(** * Splendubious rules engine: a shallow embedding and its verified properties

    The rules engine of the repository (packages/rules-engine/src) is a set of
    TypeScript functions over a [GameState] value: [createGame] builds it,
    [validateAction] accepts or rejects a player action, [applyAction] produces
    the next state and [getCardShortfall] / [canAffordCard] answer cost
    queries.  This file embeds those functions and proves the properties the
    specification states about them; it then covers the rest of the engine
    ([getAvailableActions] and its checkers, [calculatePayment], the shuffle
    and the deal of [createGame], [checkNobleAcquisition], [refillMarket] and
    the catalog lookups) with the properties the code itself shows:
    invariants of the states of a game, conservation of cards and nobles, and
    the agreement of the availability query with the validators.

    Conventions of the embedding:
    - a JavaScript [number] holding a count or an index is a [Z];
    - [T | undefined] and [T | null] are [option T];
    - an array is a [list];
    - a function that may throw returns [exn A]: [Ret a] or [Throw e];
    - the engine clones the state and mutates the clone through object
      references; the clone is the identity on values and a mutation through
      the reference returned by [getPlayerById] is an update of the first
      player of the list that carries the id ([withPlayer]). *)

From Stdlib Require Import ZArith List String Bool Lia Permutation.
Import ListNotations.
Open Scope string_scope.
Open Scope list_scope.
Open Scope Z_scope.

(* ======================================================================= *)
(** * Exceptions *)
(* ======================================================================= *)

(** The two kinds of exception the engine can raise: a [TypeError] of the
    runtime (a property read on [undefined]) and an explicit
    [throw new Error(msg)].  A message built from a template or taken from a
    validation result is kept as a fixed text. *)
Inductive JsError : Type :=
| TypeError
| Error (msg : string).

Inductive exn (A : Type) : Type :=
| Ret (a : A)
| Throw (e : JsError).

Arguments Ret {A} a.
Arguments Throw {A} e.

Definition bind {A B : Type} (m : exn A) (k : A -> exn B) : exn B :=
  match m with
  | Ret a => k a
  | Throw e => Throw e
  end.

Notation "x <- m ;; k" := (bind m (fun x => k))
  (at level 61, m at next level, right associativity).

(* ======================================================================= *)
(** * types.ts: the data model *)
(* ======================================================================= *)

Inductive GemColor : Type := emerald | diamond | sapphire | onyx | ruby.

(** [GemType = GemColor | 'gold'] *)
Inductive GemType : Type :=
| colored (c : GemColor)
| gold.

Coercion colored : GemColor >-> GemType.

Definition GEM_COLORS : list GemColor := [emerald; diamond; sapphire; onyx; ruby].

Definition GEM_TYPES : list GemType := map colored GEM_COLORS ++ [gold].

Definition GemColor_eqb (a b : GemColor) : bool :=
  match a, b with
  | emerald, emerald | diamond, diamond | sapphire, sapphire
  | onyx, onyx | ruby, ruby => true
  | _, _ => false
  end.

Definition GemType_eqb (a b : GemType) : bool :=
  match a, b with
  | colored x, colored y => GemColor_eqb x y
  | gold, gold => true
  | _, _ => false
  end.

(** [GemCollection = Record<GemType, number>] *)
Record GemCollection : Type := mkGems {
  gems_emerald : Z;
  gems_diamond : Z;
  gems_sapphire : Z;
  gems_onyx : Z;
  gems_ruby : Z;
  gems_gold : Z
}.

(** [ColoredGemCollection = Record<GemColor, number>] *)
Record ColoredGemCollection : Type := mkColored {
  col_emerald : Z;
  col_diamond : Z;
  col_sapphire : Z;
  col_onyx : Z;
  col_ruby : Z
}.

(** [collection[gem]] *)
Definition gem_get (g : GemCollection) (t : GemType) : Z :=
  match t with
  | colored emerald => gems_emerald g
  | colored diamond => gems_diamond g
  | colored sapphire => gems_sapphire g
  | colored onyx => gems_onyx g
  | colored ruby => gems_ruby g
  | gold => gems_gold g
  end.

(** [collection[gem] = v] *)
Definition gem_set (g : GemCollection) (t : GemType) (v : Z) : GemCollection :=
  match t with
  | colored emerald =>
    mkGems v (gems_diamond g) (gems_sapphire g) (gems_onyx g) (gems_ruby g)
      (gems_gold g)
  | colored diamond =>
    mkGems (gems_emerald g) v (gems_sapphire g) (gems_onyx g) (gems_ruby g)
      (gems_gold g)
  | colored sapphire =>
    mkGems (gems_emerald g) (gems_diamond g) v (gems_onyx g) (gems_ruby g)
      (gems_gold g)
  | colored onyx =>
    mkGems (gems_emerald g) (gems_diamond g) (gems_sapphire g) v (gems_ruby g)
      (gems_gold g)
  | colored ruby =>
    mkGems (gems_emerald g) (gems_diamond g) (gems_sapphire g) (gems_onyx g) v
      (gems_gold g)
  | gold =>
    mkGems (gems_emerald g) (gems_diamond g) (gems_sapphire g) (gems_onyx g)
      (gems_ruby g) v
  end.

(** [collection[gem] += d] *)
Definition gem_add (g : GemCollection) (t : GemType) (d : Z) : GemCollection :=
  gem_set g t (gem_get g t + d).

Definition col_get (c : ColoredGemCollection) (t : GemColor) : Z :=
  match t with
  | emerald => col_emerald c
  | diamond => col_diamond c
  | sapphire => col_sapphire c
  | onyx => col_onyx c
  | ruby => col_ruby c
  end.

Definition col_set (c : ColoredGemCollection) (t : GemColor) (v : Z) : ColoredGemCollection :=
  match t with
  | emerald => mkColored v (col_diamond c) (col_sapphire c) (col_onyx c) (col_ruby c)
  | diamond => mkColored (col_emerald c) v (col_sapphire c) (col_onyx c) (col_ruby c)
  | sapphire => mkColored (col_emerald c) (col_diamond c) v (col_onyx c) (col_ruby c)
  | onyx => mkColored (col_emerald c) (col_diamond c) (col_sapphire c) v (col_ruby c)
  | ruby => mkColored (col_emerald c) (col_diamond c) (col_sapphire c) (col_onyx c) v
  end.

(** [CardTier = 1 | 2 | 3] *)
Inductive CardTier : Type := Tier1 | Tier2 | Tier3.

Record DevelopmentCard : Type := mkCard {
  card_id : string;
  card_tier : CardTier;
  cost : ColoredGemCollection;
  bonus : GemColor;
  card_prestigePoints : Z
}.

Record Noble : Type := mkNoble {
  noble_id : string;
  requirements : ColoredGemCollection;
  noble_prestigePoints : Z
}.

Record Player : Type := mkPlayer {
  player_id : string;
  player_name : string;
  gems : GemCollection;
  bonuses : ColoredGemCollection;
  reservedCards : list DevelopmentCard;
  purchasedCards : list DevelopmentCard;
  player_nobles : list Noble;
  prestigePoints : Z
}.

(** The market is declared as [DevelopmentCard[]] per tier, but the engine
    stores [null] in a slot whose card was taken. *)
Record CardMarket : Type := mkMarket {
  market_tier1 : list (option DevelopmentCard);
  market_tier2 : list (option DevelopmentCard);
  market_tier3 : list (option DevelopmentCard)
}.

Record CardDecks : Type := mkDecks {
  deck_tier1 : list DevelopmentCard;
  deck_tier2 : list DevelopmentCard;
  deck_tier3 : list DevelopmentCard
}.

Inductive GamePhase : Type := waiting | playing | final_round | ended.

Record GameState : Type := mkState {
  game_id : string;
  phase : GamePhase;
  players : list Player;
  currentPlayerIndex : Z;
  bank : GemCollection;
  market : CardMarket;
  decks : CardDecks;
  nobles : list Noble;
  round : Z;
  endGameTriggeredBy : option string;
  winners : list string;
  pendingGemDiscard : option string;
  pendingNobleSelection : option string
}.

(** [PlayerAction]: the tagged union of the six actions.  The gems of the two
    take actions are declared [GemColor] but checked at run time against
    [GEM_COLORS], so they are [GemType] here.  The gems of [DISCARD_GEMS] are a
    [Partial<GemCollection>], read through [Object.entries]: a list of
    key/value entries whose value may be [undefined]. *)
Inductive PlayerAction : Type :=
| TAKE_THREE_GEMS (playerId : string) (takenGems : list GemType)
| TAKE_TWO_GEMS (playerId : string) (gem : GemType)
| RESERVE_CARD (playerId : string) (cardId : option string) (tier : CardTier)
| PURCHASE_CARD (playerId : string) (cardId : string) (goldUsed : option Z)
| SELECT_NOBLE (playerId : string) (nobleId : string)
| DISCARD_GEMS (playerId : string) (discarded : list (GemType * option Z)).

Definition action_playerId (a : PlayerAction) : string :=
  match a with
  | TAKE_THREE_GEMS p _ | TAKE_TWO_GEMS p _ | RESERVE_CARD p _ _
  | PURCHASE_CARD p _ _ | SELECT_NOBLE p _ | DISCARD_GEMS p _ => p
  end.

(** [MainAction]: the four actions of which a turn takes exactly one. *)
Definition isMainAction (a : PlayerAction) : bool :=
  match a with
  | TAKE_THREE_GEMS _ _ | TAKE_TWO_GEMS _ _ | RESERVE_CARD _ _ _
  | PURCHASE_CARD _ _ _ => true
  | SELECT_NOBLE _ _ | DISCARD_GEMS _ _ => false
  end.

Inductive ValidationErrorCode : Type :=
| NOT_PLAYERS_TURN
| INSUFFICIENT_GEMS_IN_BANK
| GEMS_NOT_DISTINCT
| REQUIRES_FOUR_GEMS_FOR_TWO
| CANNOT_TAKE_GOLD
| MAX_RESERVED_CARDS
| CARD_NOT_AVAILABLE
| INSUFFICIENT_PAYMENT
| NOBLE_NOT_ELIGIBLE
| MUST_DISCARD_GEMS
| INVALID_DISCARD_AMOUNT
| GAME_NOT_IN_PROGRESS
| INVALID_ACTION.

(** [ValidationResult]: [{valid: true}] or [{valid: false, error, errorCode}];
    the free-text [error] message is not modelled. *)
Inductive ValidationResult : Type :=
| Valid
| Invalid (errorCode : ValidationErrorCode).

(** [GameConfig.playerCount : 2 | 3 | 4] *)
Inductive PlayerCount : Type := Two | Three | Four.

Definition playerCount_value (n : PlayerCount) : Z :=
  match n with Two => 2 | Three => 3 | Four => 4 end.

Record GameConfig : Type := mkConfig { playerCount : PlayerCount }.

(** [INITIAL_GEM_COUNTS]: (colored, gold) per player count. *)
Definition INITIAL_GEM_COUNTS (n : PlayerCount) : Z * Z :=
  match n with
  | Two => (4, 5)
  | Three => (5, 5)
  | Four => (7, 5)
  end.

Module GAME_CONSTANTS.
Definition MAX_GEMS : Z := 10.
Definition MAX_RESERVED_CARDS : Z := 3.
Definition WINNING_POINTS : Z := 15.
Definition NOBLE_POINTS : Z := 3.
Definition MARKET_SIZE : nat := 4.
Definition MIN_GEMS_FOR_TAKE_TWO : Z := 4.
End GAME_CONSTANTS.

(** Field updates of the state and of a player (assignment to one field). *)
Definition set_phase (v : GamePhase) (s : GameState) : GameState :=
  mkState (game_id s) v (players s) (currentPlayerIndex s) (bank s) (market s)
    (decks s) (nobles s) (round s) (endGameTriggeredBy s) (winners s)
    (pendingGemDiscard s) (pendingNobleSelection s).

Definition set_players (v : list Player) (s : GameState) : GameState :=
  mkState (game_id s) (phase s) v (currentPlayerIndex s) (bank s) (market s)
    (decks s) (nobles s) (round s) (endGameTriggeredBy s) (winners s)
    (pendingGemDiscard s) (pendingNobleSelection s).

Definition set_currentPlayerIndex (v : Z) (s : GameState) : GameState :=
  mkState (game_id s) (phase s) (players s) v (bank s) (market s)
    (decks s) (nobles s) (round s) (endGameTriggeredBy s) (winners s)
    (pendingGemDiscard s) (pendingNobleSelection s).

Definition set_bank (v : GemCollection) (s : GameState) : GameState :=
  mkState (game_id s) (phase s) (players s) (currentPlayerIndex s) v (market s)
    (decks s) (nobles s) (round s) (endGameTriggeredBy s) (winners s)
    (pendingGemDiscard s) (pendingNobleSelection s).

Definition set_market (v : CardMarket) (s : GameState) : GameState :=
  mkState (game_id s) (phase s) (players s) (currentPlayerIndex s) (bank s) v
    (decks s) (nobles s) (round s) (endGameTriggeredBy s) (winners s)
    (pendingGemDiscard s) (pendingNobleSelection s).

Definition set_decks (v : CardDecks) (s : GameState) : GameState :=
  mkState (game_id s) (phase s) (players s) (currentPlayerIndex s) (bank s)
    (market s) v (nobles s) (round s) (endGameTriggeredBy s) (winners s)
    (pendingGemDiscard s) (pendingNobleSelection s).

Definition set_nobles (v : list Noble) (s : GameState) : GameState :=
  mkState (game_id s) (phase s) (players s) (currentPlayerIndex s) (bank s)
    (market s) (decks s) v (round s) (endGameTriggeredBy s) (winners s)
    (pendingGemDiscard s) (pendingNobleSelection s).

Definition set_round (v : Z) (s : GameState) : GameState :=
  mkState (game_id s) (phase s) (players s) (currentPlayerIndex s) (bank s)
    (market s) (decks s) (nobles s) v (endGameTriggeredBy s) (winners s)
    (pendingGemDiscard s) (pendingNobleSelection s).

Definition set_endGameTriggeredBy (v : option string) (s : GameState) : GameState :=
  mkState (game_id s) (phase s) (players s) (currentPlayerIndex s) (bank s)
    (market s) (decks s) (nobles s) (round s) v (winners s)
    (pendingGemDiscard s) (pendingNobleSelection s).

Definition set_winners (v : list string) (s : GameState) : GameState :=
  mkState (game_id s) (phase s) (players s) (currentPlayerIndex s) (bank s)
    (market s) (decks s) (nobles s) (round s) (endGameTriggeredBy s) v
    (pendingGemDiscard s) (pendingNobleSelection s).

Definition set_pendingGemDiscard (v : option string) (s : GameState) : GameState :=
  mkState (game_id s) (phase s) (players s) (currentPlayerIndex s) (bank s)
    (market s) (decks s) (nobles s) (round s) (endGameTriggeredBy s)
    (winners s) v (pendingNobleSelection s).

Definition set_pendingNobleSelection (v : option string) (s : GameState) : GameState :=
  mkState (game_id s) (phase s) (players s) (currentPlayerIndex s) (bank s)
    (market s) (decks s) (nobles s) (round s) (endGameTriggeredBy s)
    (winners s) (pendingGemDiscard s) v.

Definition set_gems (v : GemCollection) (p : Player) : Player :=
  mkPlayer (player_id p) (player_name p) v (bonuses p) (reservedCards p)
    (purchasedCards p) (player_nobles p) (prestigePoints p).

Definition set_bonuses (v : ColoredGemCollection) (p : Player) : Player :=
  mkPlayer (player_id p) (player_name p) (gems p) v (reservedCards p)
    (purchasedCards p) (player_nobles p) (prestigePoints p).

Definition set_reservedCards (v : list DevelopmentCard) (p : Player) : Player :=
  mkPlayer (player_id p) (player_name p) (gems p) (bonuses p) v
    (purchasedCards p) (player_nobles p) (prestigePoints p).

Definition set_purchasedCards (v : list DevelopmentCard) (p : Player) : Player :=
  mkPlayer (player_id p) (player_name p) (gems p) (bonuses p) (reservedCards p)
    v (player_nobles p) (prestigePoints p).

Definition set_player_nobles (v : list Noble) (p : Player) : Player :=
  mkPlayer (player_id p) (player_name p) (gems p) (bonuses p) (reservedCards p)
    (purchasedCards p) v (prestigePoints p).

Definition set_prestigePoints (v : Z) (p : Player) : Player :=
  mkPlayer (player_id p) (player_name p) (gems p) (bonuses p) (reservedCards p)
    (purchasedCards p) (player_nobles p) v.

(* ======================================================================= *)
(** * Array helpers *)
(* ======================================================================= *)

(** [Array.prototype.findIndex]; [None] stands for [-1]. *)
Fixpoint findIndex {A : Type} (f : A -> bool) (l : list A) : option nat :=
  match l with
  | [] => None
  | x :: r => if f x then Some O else option_map S (findIndex f r)
  end.

(** [array[i] = v] for an index inside the array. *)
Fixpoint replaceAt {A : Type} (i : nat) (v : A) (l : list A) : list A :=
  match l, i with
  | [], _ => []
  | _ :: r, O => v :: r
  | x :: r, S j => x :: replaceAt j v r
  end.

(** [array.splice(i, 1)]: the array without its element of index [i]. *)
Fixpoint removeAt {A : Type} (i : nat) (l : list A) : list A :=
  match l, i with
  | [], _ => []
  | _ :: r, O => r
  | x :: r, S j => x :: removeAt j r
  end.

(** The size of [new Set(array)]. *)
Fixpoint distinctCount (l : list GemType) : nat :=
  match l with
  | [] => O
  | x :: r => if existsb (GemType_eqb x) r then distinctCount r
              else S (distinctCount r)
  end.

(* ======================================================================= *)
(** * initialization.ts: utility functions *)
(* ======================================================================= *)

(** [JSON.parse(JSON.stringify(state))]: a structural copy, the same value. *)
Definition cloneGameState (s : GameState) : GameState := s.

(** [state.players[state.currentPlayerIndex]]: [undefined] out of range. *)
Definition getCurrentPlayer (s : GameState) : option Player :=
  if currentPlayerIndex s <? 0 then None
  else nth_error (players s) (Z.to_nat (currentPlayerIndex s)).

Definition getPlayerById (s : GameState) (playerId : string) : option Player :=
  find (fun p => player_id p =? playerId)%string (players s).

(** A mutation through the object [getPlayerById] returned: the first player
    with the id is replaced by its mutated version. *)
Fixpoint withPlayer (playerId : string) (f : Player -> Player)
  (ps : list Player) : list Player :=
  match ps with
  | [] => []
  | p :: r => if (player_id p =? playerId)%string then f p :: r
              else p :: withPlayer playerId f r
  end.

Definition mutatePlayer (playerId : string) (f : Player -> Player)
  (s : GameState) : GameState :=
  set_players (withPlayer playerId f (players s)) s.

(* ======================================================================= *)
(** * validators.ts *)
(* ======================================================================= *)

(** [getCurrentPlayer(state).id === playerId]; reading [id] of [undefined]
    throws. *)
Definition isPlayersTurn (s : GameState) (playerId : string) : exn bool :=
  match getCurrentPlayer s with
  | Some currentPlayer => Ret (player_id currentPlayer =? playerId)%string
  | None => Throw TypeError
  end.

Definition isGameInProgress (s : GameState) : bool :=
  match phase s with
  | playing | final_round => true
  | _ => false
  end.

(** [slots.find(c => c?.id === cardId)] *)
Definition slotHasId (cardId : string) (c : option DevelopmentCard) : bool :=
  match c with
  | Some card => (card_id card =? cardId)%string
  | None => false
  end.

Definition findInSlots (cardId : string) (slots : list (option DevelopmentCard))
  : option DevelopmentCard :=
  match find (slotHasId cardId) slots with
  | Some c => c
  | None => None
  end.

(** [a ?? b] *)
Definition orElse {A : Type} (a b : option A) : option A :=
  match a with
  | Some _ => a
  | None => b
  end.

Definition findCardInMarket (s : GameState) (cardId : string)
  : option DevelopmentCard :=
  orElse (findInSlots cardId (market_tier1 (market s)))
    (orElse (findInSlots cardId (market_tier2 (market s)))
       (findInSlots cardId (market_tier3 (market s)))).

Definition getDeckByTier (s : GameState) (tier : CardTier)
  : list DevelopmentCard :=
  match tier with
  | Tier1 => deck_tier1 (decks s)
  | Tier2 => deck_tier2 (decks s)
  | Tier3 => deck_tier3 (decks s)
  end.

(** The card a purchase or a cost query is about:
    [findCardInMarket(state, cardId) ?? player.reservedCards.find(...)]. *)
Definition findCardForPlayer (s : GameState) (player : Player) (cardId : string)
  : option DevelopmentCard :=
  orElse (findCardInMarket s cardId)
    (find (fun c => card_id c =? cardId)%string (reservedCards player)).

Definition calculateEffectiveCost (s : GameState) (playerId cardId : string)
  : option ColoredGemCollection :=
  match getPlayerById s playerId with
  | None => None
  | Some player =>
    match findCardForPlayer s player cardId with
    | None => None
    | Some card =>
      Some (mkColored
        (Z.max 0 (col_emerald (cost card) - col_emerald (bonuses player)))
        (Z.max 0 (col_diamond (cost card) - col_diamond (bonuses player)))
        (Z.max 0 (col_sapphire (cost card) - col_sapphire (bonuses player)))
        (Z.max 0 (col_onyx (cost card) - col_onyx (bonuses player)))
        (Z.max 0 (col_ruby (cost card) - col_ruby (bonuses player))))
    end
  end.

(** The gold a player needs on top of the coloured gems held: the loop of
    [canAffordCard] over [GEM_COLORS]. *)
Definition goldNeededFor (effectiveCost : ColoredGemCollection)
  (player : Player) : Z :=
  fold_left
    (fun goldNeeded color =>
       let shortfall := col_get effectiveCost color
                        - gem_get (gems player) color in
       if 0 <? shortfall then goldNeeded + shortfall else goldNeeded)
    GEM_COLORS 0.

Definition canAffordCard (s : GameState) (playerId cardId : string) : bool :=
  match getPlayerById s playerId with
  | None => false
  | Some player =>
    match calculateEffectiveCost s playerId cardId with
    | None => false
    | Some effectiveCost =>
      goldNeededFor effectiveCost player <=? gem_get (gems player) gold
    end
  end.

(** The filter of [getEligibleNobles]: no colour whose bonus is below the
    requirement. *)
Definition meetsRequirements (player : Player) (noble : Noble) : bool :=
  forallb
    (fun color => negb (col_get (bonuses player) color
                        <? col_get (requirements noble) color))
    GEM_COLORS.

Definition getEligibleNobles (s : GameState) (playerId : string) : list string :=
  match getPlayerById s playerId with
  | None => []
  | Some player => map noble_id (filter (meetsRequirements player) (nobles s))
  end.

Definition playerTotalGems (player : Player) : Z :=
  gems_emerald (gems player) + gems_diamond (gems player)
  + gems_sapphire (gems player) + gems_onyx (gems player)
  + gems_ruby (gems player) + gems_gold (gems player).

Definition getTotalGems (s : GameState) (playerId : string) : Z :=
  match getPlayerById s playerId with
  | None => 0
  | Some player => playerTotalGems player
  end.

Definition needsToDiscardGems (s : GameState) (playerId : string) : bool :=
  GAME_CONSTANTS.MAX_GEMS <? getTotalGems s playerId.

Definition validateTakeThreeGems (s : GameState) (playerId : string)
  (takenGems : list GemType) : exn ValidationResult :=
  turn <- isPlayersTurn s playerId ;;
  if negb turn then Ret (Invalid NOT_PLAYERS_TURN)
  else if ((List.length takenGems <? 1) || (3 <? List.length takenGems))%nat
  then Ret (Invalid INVALID_ACTION)
  else if negb (distinctCount takenGems =? List.length takenGems)%nat
  then Ret (Invalid GEMS_NOT_DISTINCT)
  else if existsb
            (fun gem => negb (existsb (fun c => GemType_eqb (colored c) gem)
                                GEM_COLORS))
            takenGems
  then Ret (Invalid CANNOT_TAKE_GOLD)
  else if existsb (fun gem => gem_get (bank s) gem <? 1) takenGems
  then Ret (Invalid INSUFFICIENT_GEMS_IN_BANK)
  else Ret Valid.

Definition validateTakeTwoGems (s : GameState) (playerId : string)
  (gem : GemType) : exn ValidationResult :=
  turn <- isPlayersTurn s playerId ;;
  if negb turn then Ret (Invalid NOT_PLAYERS_TURN)
  else if negb (existsb (fun c => GemType_eqb (colored c) gem) GEM_COLORS)
  then Ret (Invalid CANNOT_TAKE_GOLD)
  else if gem_get (bank s) gem <? GAME_CONSTANTS.MIN_GEMS_FOR_TAKE_TWO
  then Ret (Invalid REQUIRES_FOUR_GEMS_FOR_TWO)
  else Ret Valid.

Definition validateReserveCard (s : GameState) (playerId : string)
  (cardId : option string) (tier : CardTier) : exn ValidationResult :=
  turn <- isPlayersTurn s playerId ;;
  if negb turn then Ret (Invalid NOT_PLAYERS_TURN)
  else
    match getPlayerById s playerId with
    | None => Ret (Invalid INVALID_ACTION)
    | Some player =>
      if GAME_CONSTANTS.MAX_RESERVED_CARDS <=? Z.of_nat (List.length (reservedCards player))
      then Ret (Invalid MAX_RESERVED_CARDS)
      else
        match cardId with
        | Some cid =>
          match findCardInMarket s cid with
          | None => Ret (Invalid CARD_NOT_AVAILABLE)
          | Some _ => Ret Valid
          end
        | None =>
          match getDeckByTier s tier with
          | [] => Ret (Invalid CARD_NOT_AVAILABLE)
          | _ :: _ => Ret Valid
          end
        end
    end.

Definition validatePurchaseCard (s : GameState) (playerId cardId : string)
  : exn ValidationResult :=
  turn <- isPlayersTurn s playerId ;;
  if negb turn then Ret (Invalid NOT_PLAYERS_TURN)
  else
    match getPlayerById s playerId with
    | None => Ret (Invalid INVALID_ACTION)
    | Some player =>
      match findCardForPlayer s player cardId with
      | None => Ret (Invalid CARD_NOT_AVAILABLE)
      | Some _ =>
        if negb (canAffordCard s playerId cardId)
        then Ret (Invalid INSUFFICIENT_PAYMENT)
        else Ret Valid
      end
    end.

Definition validateSelectNoble (s : GameState) (playerId nobleId : string)
  : exn ValidationResult :=
  match getPlayerById s playerId with
  | None => Ret (Invalid INVALID_ACTION)
  | Some player =>
    match find (fun n => noble_id n =? nobleId)%string (nobles s) with
    | None => Ret (Invalid NOBLE_NOT_ELIGIBLE)
    | Some noble =>
      if existsb
           (fun color => col_get (bonuses player) color
                         <? col_get (requirements noble) color)
           GEM_COLORS
      then Ret (Invalid NOBLE_NOT_ELIGIBLE)
      else Ret Valid
    end
  end.

(** The loop of [validateDiscardGems] over [Object.entries(action.gems)]:
    [None] when an entry asks for more than the player holds, otherwise the
    total to discard. *)
Fixpoint discardTotal (player : Player) (entries : list (GemType * option Z))
  (totalDiscard : Z) : option Z :=
  match entries with
  | [] => Some totalDiscard
  | (gem, None) :: rest => discardTotal player rest totalDiscard
  | (gem, Some count) :: rest =>
    if count <? 0 then discardTotal player rest totalDiscard
    else if gem_get (gems player) gem <? count then None
    else discardTotal player rest (totalDiscard + count)
  end.

Definition validateDiscardGems (s : GameState) (playerId : string)
  (discarded : list (GemType * option Z)) : exn ValidationResult :=
  match getPlayerById s playerId with
  | None => Ret (Invalid INVALID_ACTION)
  | Some player =>
    let totalGems := getTotalGems s playerId in
    if totalGems <=? GAME_CONSTANTS.MAX_GEMS then Ret (Invalid INVALID_ACTION)
    else
      match discardTotal player discarded 0 with
      | None => Ret (Invalid INVALID_DISCARD_AMOUNT)
      | Some totalDiscard =>
        if negb (totalGems - totalDiscard =? GAME_CONSTANTS.MAX_GEMS)
        then Ret (Invalid INVALID_DISCARD_AMOUNT)
        else Ret Valid
      end
  end.

Definition validateAction (s : GameState) (action : PlayerAction)
  : exn ValidationResult :=
  if negb (isGameInProgress s) then Ret (Invalid GAME_NOT_IN_PROGRESS)
  else
    match action with
    | TAKE_THREE_GEMS playerId takenGems =>
      validateTakeThreeGems s playerId takenGems
    | TAKE_TWO_GEMS playerId gem => validateTakeTwoGems s playerId gem
    | RESERVE_CARD playerId cardId tier =>
      validateReserveCard s playerId cardId tier
    | PURCHASE_CARD playerId cardId _ => validatePurchaseCard s playerId cardId
    | SELECT_NOBLE playerId nobleId => validateSelectNoble s playerId nobleId
    | DISCARD_GEMS playerId discarded =>
      validateDiscardGems s playerId discarded
    end.

(* ======================================================================= *)
(** * actions.ts: helper functions *)
(* ======================================================================= *)

Definition getMarketByTier (s : GameState) (tier : CardTier)
  : list (option DevelopmentCard) :=
  match tier with
  | Tier1 => market_tier1 (market s)
  | Tier2 => market_tier2 (market s)
  | Tier3 => market_tier3 (market s)
  end.

(** Writes through the array [getMarketByTierMutable] returned. *)
Definition set_marketByTier (tier : CardTier)
  (slots : list (option DevelopmentCard)) (s : GameState) : GameState :=
  match tier with
  | Tier1 => set_market (mkMarket slots (market_tier2 (market s))
                           (market_tier3 (market s))) s
  | Tier2 => set_market (mkMarket (market_tier1 (market s)) slots
                           (market_tier3 (market s))) s
  | Tier3 => set_market (mkMarket (market_tier1 (market s))
                           (market_tier2 (market s)) slots) s
  end.

(** Writes through the array [getDeckByTierMutable] returned. *)
Definition set_deckByTier (tier : CardTier) (deck : list DevelopmentCard)
  (s : GameState) : GameState :=
  match tier with
  | Tier1 => set_decks (mkDecks deck (deck_tier2 (decks s))
                          (deck_tier3 (decks s))) s
  | Tier2 => set_decks (mkDecks (deck_tier1 (decks s)) deck
                          (deck_tier3 (decks s))) s
  | Tier3 => set_decks (mkDecks (deck_tier1 (decks s))
                          (deck_tier2 (decks s)) deck) s
  end.

(** One tier of [removeCardFromMarket]: the card of the first slot with the
    id, and the slots with that slot set to [null]. *)
Definition removeFromSlots (cardId : string)
  (slots : list (option DevelopmentCard))
  : option (DevelopmentCard * list (option DevelopmentCard)) :=
  match findIndex (slotHasId cardId) slots with
  | None => None
  | Some index =>
    match nth_error slots index with
    | Some (Some card) => Some (card, replaceAt index None slots)
    | _ => None
    end
  end.

Definition removeCardFromMarket (s : GameState) (cardId : string)
  : option DevelopmentCard * GameState :=
  match removeFromSlots cardId (market_tier1 (market s)) with
  | Some (card, slots) => (Some card, set_marketByTier Tier1 slots s)
  | None =>
    match removeFromSlots cardId (market_tier2 (market s)) with
    | Some (card, slots) => (Some card, set_marketByTier Tier2 slots s)
    | None =>
      match removeFromSlots cardId (market_tier3 (market s)) with
      | Some (card, slots) => (Some card, set_marketByTier Tier3 slots s)
      | None => (None, s)
      end
    end
  end.

Definition isNull (c : option DevelopmentCard) : bool :=
  match c with
  | None => true
  | Some _ => false
  end.

Definition refillMarketSlot (s : GameState) (tier : CardTier) : GameState :=
  let deck := getDeckByTier s tier in
  let slots := getMarketByTier s tier in
  match deck, findIndex isNull slots with
  | card :: rest, Some emptyIndex =>
    set_marketByTier tier (replaceAt emptyIndex (Some card) slots)
      (set_deckByTier tier rest s)
  | _, _ => s
  end.

(** [newState.bank[gem] -= n; player.gems[gem] += n] *)
Definition bankToPlayer (playerId : string) (gem : GemType) (n : Z)
  (st : GameState) : GameState :=
  mutatePlayer playerId (fun p => set_gems (gem_add (gems p) gem n) p)
    (set_bank (gem_add (bank st) gem (- n)) st).

(** [player.gems[gem] -= n; newState.bank[gem] += n] *)
Definition playerToBank (playerId : string) (gem : GemType) (n : Z)
  (st : GameState) : GameState :=
  set_bank (gem_add (bank st) gem n)
    (mutatePlayer playerId (fun p => set_gems (gem_add (gems p) gem (- n)) p) st).

(* ======================================================================= *)
(** * actions.ts: payment *)
(* ======================================================================= *)

Record Payment : Type := mkPayment {
  pay_gems : ColoredGemCollection;
  pay_gold : Z
}.

Definition paymentStep (effectiveCost : ColoredGemCollection) (player : Player)
  (acc : ColoredGemCollection * Z) (color : GemColor)
  : ColoredGemCollection * Z :=
  let required := col_get effectiveCost color in
  let available := gem_get (gems player) color in
  if required <=? available
  then (col_set (fst acc) color required, snd acc)
  else (col_set (fst acc) color available, snd acc + (required - available)).

Definition calculatePayment (s : GameState) (playerId cardId : string)
  : option Payment :=
  match getPlayerById s playerId with
  | None => None
  | Some player =>
    match calculateEffectiveCost s playerId cardId with
    | None => None
    | Some effectiveCost =>
      let result := fold_left (paymentStep effectiveCost player) GEM_COLORS
                      (mkColored 0 0 0 0 0, 0) in
      if gem_get (gems player) gold <? snd result then None
      else Some (mkPayment (fst result) (snd result))
    end
  end.

(* ======================================================================= *)
(** * actions.ts: game end detection *)
(* ======================================================================= *)

(** [Math.max(...xs)]; [None] is the [-Infinity] of an empty argument list. *)
Definition Math_max (xs : list Z) : option Z :=
  match xs with
  | [] => None
  | x :: r => Some (fold_left Z.max r x)
  end.

(** [Math.min(...xs)]; [None] is the [Infinity] of an empty argument list. *)
Definition Math_min (xs : list Z) : option Z :=
  match xs with
  | [] => None
  | x :: r => Some (fold_left Z.min r x)
  end.

(** [n === bound] for a bound that may be infinite. *)
Definition equalsBound (n : Z) (bound : option Z) : bool :=
  match bound with
  | Some b => n =? b
  | None => false
  end.

Definition cardCount (p : Player) : Z := Z.of_nat (List.length (purchasedCards p)).

Definition determineWinners (s : GameState) : list string :=
  match players s with
  | [] => []
  | _ :: _ =>
    let maxPoints := Math_max (map prestigePoints (players s)) in
    let candidates :=
      filter (fun p => equalsBound (prestigePoints p) maxPoints) (players s) in
    match candidates with
    | [only] => [player_id only]
    | _ =>
      let minCards := Math_min (map cardCount candidates) in
      map player_id
        (filter (fun p => equalsBound (cardCount p) minCards) candidates)
    end
  end.

Definition checkGameEndTrigger (s : GameState) : GameState :=
  match phase s with
  | final_round | ended => s
  | _ =>
    match find (fun p => GAME_CONSTANTS.WINNING_POINTS <=? prestigePoints p) (players s) with
    | Some player =>
      set_phase final_round (set_endGameTriggeredBy (Some (player_id player)) s)
    | None => s
    end
  end.

Definition checkGameEnd (s : GameState) : GameState :=
  match phase s with
  | final_round =>
    let s := set_phase ended s in
    set_winners (determineWinners s) s
  | _ => s
  end.

(* ======================================================================= *)
(** * actions.ts: turn management *)
(* ======================================================================= *)

(** [%] is the truncating remainder of JavaScript ([Z.rem]).  With no player
    the source computes [NaN]; the engine only advances a turn in a state
    that holds the acting player, so the player list is never empty there. *)
Definition advanceTurn (s : GameState) : GameState :=
  match phase s with
  | ended => s
  | _ =>
    let s := set_currentPlayerIndex
               (Z.rem (currentPlayerIndex s + 1)
                  (Z.of_nat (List.length (players s)))) s in
    if currentPlayerIndex s =? 0 then
      let s := set_round (round s + 1) s in
      match phase s with
      | final_round => checkGameEnd s
      | _ => s
      end
    else s
  end.

Definition checkGameEndAndAdvance (s : GameState) : GameState :=
  advanceTurn (checkGameEndTrigger s).

(** The noble a player receives: pushed on the player's nobles, its prestige
    added. *)
Definition receiveNoble (noble : Noble) (p : Player) : Player :=
  set_prestigePoints (prestigePoints p + noble_prestigePoints noble)
    (set_player_nobles (player_nobles p ++ [noble]) p).

(** [const [noble] = nobles.splice(index, 1)], where [index] comes from
    [findIndex]: at [-1] ([None]) [splice] counts from the end and takes the
    last element. *)
Definition spliceOne {A : Type} (index : option nat) (l : list A)
  : option A * list A :=
  match index with
  | Some i => (nth_error l i, removeAt i l)
  | None => (nth_error l (List.length l - 1), removeAt (List.length l - 1) l)
  end.

Definition checkNobleAndAdvance (s : GameState) (playerId : string)
  : exn GameState :=
  match getEligibleNobles s playerId with
  | [nobleId] =>
    let nobleIndex := findIndex (fun n => noble_id n =? nobleId)%string (nobles s) in
    let spliced := spliceOne nobleIndex (nobles s) in
    let s := set_nobles (snd spliced) s in
    match getPlayerById s playerId, fst spliced with
    | Some _, Some noble =>
      Ret (checkGameEndAndAdvance (mutatePlayer playerId (receiveNoble noble) s))
    | _, _ => Throw TypeError
    end
  | [] => Ret (checkGameEndAndAdvance s)
  | _ :: _ :: _ => Ret (set_pendingNobleSelection (Some playerId) s)
  end.

Definition finishTurn (s : GameState) (playerId : string) : exn GameState :=
  match getPlayerById s playerId with
  | None => Throw TypeError
  | Some player =>
    if GAME_CONSTANTS.MAX_GEMS <? playerTotalGems player
    then Ret (set_pendingGemDiscard (Some playerId) s)
    else checkNobleAndAdvance s playerId
  end.

(** [checkNobleAcquisition(state)]: the exported form of the noble step, for
    the current player.  It reads [currentPlayer] from [getCurrentPlayer]
    ([currentPlayer.id] throws when there is none) and mutates that object:
    the player at the current index. *)
Definition checkNobleAcquisition (s : GameState) : exn GameState :=
  match getCurrentPlayer s with
  | None => Throw TypeError
  | Some currentPlayer =>
    match getEligibleNobles s (player_id currentPlayer) with
    | [] => Ret s
    | [nobleId] =>
      let nobleIndex :=
        findIndex (fun n => noble_id n =? nobleId)%string (nobles s) in
      let spliced := spliceOne nobleIndex (nobles s) in
      let s := set_nobles (snd spliced) s in
      match fst spliced with
      | Some noble =>
        Ret (set_players
               (replaceAt (Z.to_nat (currentPlayerIndex s))
                  (receiveNoble noble currentPlayer) (players s)) s)
      | None => Throw TypeError
      end
    | _ :: _ :: _ =>
      Ret (set_pendingNobleSelection (Some (player_id currentPlayer)) s)
    end
  end.

(** [refillMarket(state, tier)]: [refillMarketSlot] on a clone. *)
Definition refillMarket (s : GameState) (tier : CardTier) : GameState :=
  refillMarketSlot (cloneGameState s) tier.

(* ======================================================================= *)
(** * actions.ts: action handlers *)
(* ======================================================================= *)

(** Each handler of a main action is its economic effect on a clone of the
    state followed by [finishTurn].  The handlers read [player] once, from
    [getPlayerById(newState, playerId)!]; with no such player every path of
    the handler ends in a [TypeError] (at the first [player.] access, at the
    latest in [finishTurn]), which the effect raises at once. *)

Definition takeThreeGemsEffect (s : GameState) (playerId : string)
  (takenGems : list GemType) : exn GameState :=
  let newState := cloneGameState s in
  match getPlayerById newState playerId with
  | None => Throw TypeError
  | Some _ =>
    Ret (fold_left (fun st gem => bankToPlayer playerId gem 1 st)
           takenGems newState)
  end.

Definition applyTakeThreeGems (s : GameState) (playerId : string)
  (takenGems : list GemType) : exn GameState :=
  newState <- takeThreeGemsEffect s playerId takenGems ;;
  finishTurn newState playerId.

Definition takeTwoGemsEffect (s : GameState) (playerId : string)
  (gem : GemType) : exn GameState :=
  let newState := cloneGameState s in
  match getPlayerById newState playerId with
  | None => Throw TypeError
  | Some _ => Ret (bankToPlayer playerId gem 2 newState)
  end.

Definition applyTakeTwoGems (s : GameState) (playerId : string)
  (gem : GemType) : exn GameState :=
  newState <- takeTwoGemsEffect s playerId gem ;;
  finishTurn newState playerId.

(** The card a reservation takes, and the state without it: from the market
    (with a refill of the tier) or from the top of a deck. *)
Definition takeReservedCard (newState : GameState) (cardId : option string)
  (tier : CardTier) : option DevelopmentCard * GameState :=
  match cardId with
  | Some cid =>
    match removeCardFromMarket newState cid with
    | (Some card, st) => (Some card, refillMarketSlot st (card_tier card))
    | (None, st) => (None, st)
    end
  | None =>
    match getDeckByTier newState tier with
    | card :: rest => (Some card, set_deckByTier tier rest newState)
    | [] => (None, newState)
    end
  end.

Definition reserveCardEffect (s : GameState) (playerId : string)
  (cardId : option string) (tier : CardTier) : exn GameState :=
  let newState := cloneGameState s in
  match getPlayerById newState playerId with
  | None => Throw TypeError
  | Some _ =>
    let taken := takeReservedCard newState cardId tier in
    let newState :=
      match fst taken with
      | Some card =>
        mutatePlayer playerId
          (fun p => set_reservedCards (reservedCards p ++ [card]) p) (snd taken)
      | None => snd taken
      end in
    Ret (if 0 <? gem_get (bank newState) gold
         then bankToPlayer playerId gold 1 newState
         else newState)
  end.

Definition applyReserveCard (s : GameState) (playerId : string)
  (cardId : option string) (tier : CardTier) : exn GameState :=
  newState <- reserveCardEffect s playerId cardId tier ;;
  finishTurn newState playerId.

(** The card a purchase takes: from the market, else from the player's
    reserved cards; with the flag [fromReserved] and the state without it. *)
Definition takePurchasedCard (newState : GameState) (playerId cardId : string)
  (player : Player) : option (DevelopmentCard * bool * GameState) :=
  match removeCardFromMarket newState cardId with
  | (Some card, st) => Some (card, false, st)
  | (None, st) =>
    match findIndex (fun c => card_id c =? cardId)%string (reservedCards player) with
    | Some reservedIndex =>
      match nth_error (reservedCards player) reservedIndex with
      | Some card =>
        Some (card, true,
              mutatePlayer playerId
                (fun p => set_reservedCards
                            (removeAt reservedIndex (reservedCards p)) p) st)
      | None => None
      end
    | None => None
    end
  end.

(** [purchasedCards.push(card); bonuses[card.bonus]++;
     prestigePoints += card.prestigePoints] *)
Definition receiveCard (card : DevelopmentCard) (p : Player) : Player :=
  set_prestigePoints (prestigePoints p + card_prestigePoints card)
    (set_bonuses (col_set (bonuses p) (bonus card)
                    (col_get (bonuses p) (bonus card) + 1))
       (set_purchasedCards (purchasedCards p ++ [card]) p)).

Definition payGems (playerId : string) (payment : Payment) (st : GameState)
  : GameState :=
  playerToBank playerId gold (pay_gold payment)
    (fold_left
       (fun st (color : GemColor) =>
          playerToBank playerId color (col_get (pay_gems payment) color) st)
       GEM_COLORS st).

Definition purchaseCardEffect (s : GameState) (playerId cardId : string)
  : exn GameState :=
  let newState := cloneGameState s in
  match calculatePayment newState playerId cardId with
  | None => Throw (Error "Cannot afford card")
  | Some payment =>
    match getPlayerById newState playerId with
    | None => Throw TypeError
    | Some player =>
      match takePurchasedCard newState playerId cardId player with
      | None => Throw (Error "Card not found")
      | Some (card, fromReserved, newState) =>
        let newState := payGems playerId payment newState in
        let newState := mutatePlayer playerId (receiveCard card) newState in
        Ret (if fromReserved then newState
             else refillMarketSlot newState (card_tier card))
      end
    end
  end.

Definition applyPurchaseCard (s : GameState) (playerId cardId : string)
  : exn GameState :=
  newState <- purchaseCardEffect s playerId cardId ;;
  finishTurn newState playerId.

Definition applySelectNoble (s : GameState) (playerId nobleId : string)
  : exn GameState :=
  let newState := cloneGameState s in
  match findIndex (fun n => noble_id n =? nobleId)%string (nobles newState) with
  | None => Throw (Error "Noble not found")
  | Some nobleIndex =>
    let spliced := spliceOne (Some nobleIndex) (nobles newState) in
    let newState := set_nobles (snd spliced) newState in
    match getPlayerById newState playerId, fst spliced with
    | Some _, Some noble =>
      let newState := mutatePlayer playerId (receiveNoble noble) newState in
      let newState := set_pendingNobleSelection None newState in
      Ret (checkGameEndAndAdvance newState)
    | _, _ => Throw TypeError
    end
  end.

(** The loop of [applyDiscardGems] over [Object.entries(action.gems)]; the
    player is only read for an entry with a positive count. *)
Fixpoint discardEntries (playerId : string)
  (entries : list (GemType * option Z)) (st : GameState) : exn GameState :=
  match entries with
  | [] => Ret st
  | (gem, None) :: rest => discardEntries playerId rest st
  | (gem, Some count) :: rest =>
    if count <=? 0 then discardEntries playerId rest st
    else
      match getPlayerById st playerId with
      | None => Throw TypeError
      | Some _ => discardEntries playerId rest (playerToBank playerId gem count st)
      end
  end.

Definition discardGemsEffect (s : GameState) (playerId : string)
  (discarded : list (GemType * option Z)) : exn GameState :=
  let newState := cloneGameState s in
  newState <- discardEntries playerId discarded newState ;;
  Ret (set_pendingGemDiscard None newState).

Definition applyDiscardGems (s : GameState) (playerId : string)
  (discarded : list (GemType * option Z)) : exn GameState :=
  newState <- discardGemsEffect s playerId discarded ;;
  checkNobleAndAdvance newState playerId.

Definition applyActionUnsafe (s : GameState) (action : PlayerAction)
  : exn GameState :=
  match action with
  | TAKE_THREE_GEMS playerId takenGems => applyTakeThreeGems s playerId takenGems
  | TAKE_TWO_GEMS playerId gem => applyTakeTwoGems s playerId gem
  | RESERVE_CARD playerId cardId tier => applyReserveCard s playerId cardId tier
  | PURCHASE_CARD playerId cardId _ => applyPurchaseCard s playerId cardId
  | SELECT_NOBLE playerId nobleId => applySelectNoble s playerId nobleId
  | DISCARD_GEMS playerId discarded => applyDiscardGems s playerId discarded
  end.

Definition applyAction (s : GameState) (action : PlayerAction) : exn GameState :=
  validation <- validateAction s action ;;
  match validation with
  | Invalid _ => Throw (Error "Invalid action")
  | Valid => applyActionUnsafe s action
  end.

(** The economic effect of a main action or of a discard: the state the
    handler hands to the end-of-turn pipeline.  [applySelectNoble] has no
    such hand-over (it awards the noble and goes on itself), so the effect of
    SELECT_NOBLE is left as the input state. *)
Definition actionEffect (s : GameState) (action : PlayerAction) : exn GameState :=
  match action with
  | TAKE_THREE_GEMS playerId takenGems => takeThreeGemsEffect s playerId takenGems
  | TAKE_TWO_GEMS playerId gem => takeTwoGemsEffect s playerId gem
  | RESERVE_CARD playerId cardId tier => reserveCardEffect s playerId cardId tier
  | PURCHASE_CARD playerId cardId _ => purchaseCardEffect s playerId cardId
  | DISCARD_GEMS playerId discarded => discardGemsEffect s playerId discarded
  | SELECT_NOBLE _ _ => Ret s
  end.

(* ======================================================================= *)
(** * availability.ts: the shortfall query *)
(* ======================================================================= *)

Definition emptyColored : ColoredGemCollection := mkColored 0 0 0 0 0.

(** First loop of [getCardShortfall]: what each colour lacks. *)
Definition shortfallStep (effectiveCost : ColoredGemCollection)
  (player : Player) (shortfall : ColoredGemCollection) (color : GemColor)
  : ColoredGemCollection :=
  let needed := col_get effectiveCost color - gem_get (gems player) color in
  if 0 <? needed then col_set shortfall color needed else shortfall.

(** Second loop of [getCardShortfall]: gold spread over the colours in the
    order of [GEM_COLORS]. *)
Definition goldStep (acc : ColoredGemCollection * Z) (color : GemColor)
  : ColoredGemCollection * Z :=
  let shortfall := fst acc in
  let goldAvailable := snd acc in
  if (0 <? goldAvailable) && (0 <? col_get shortfall color) then
    let goldUsed := Z.min goldAvailable (col_get shortfall color) in
    (col_set shortfall color (col_get shortfall color - goldUsed),
     goldAvailable - goldUsed)
  else acc.

Definition getCardShortfall (s : GameState) (playerId cardId : string)
  : ColoredGemCollection :=
  match getPlayerById s playerId with
  | None => emptyColored
  | Some player =>
    match calculateEffectiveCost s playerId cardId with
    | None => emptyColored
    | Some effectiveCost =>
      let shortfall :=
        fold_left (shortfallStep effectiveCost player) GEM_COLORS emptyColored in
      fst (fold_left goldStep GEM_COLORS (shortfall, gem_get (gems player) gold))
    end
  end.

(** The sum of the five entries of a coloured collection. *)
Definition coloredSum (c : ColoredGemCollection) : Z :=
  col_emerald c + col_diamond c + col_sapphire c + col_onyx c + col_ruby c.

(** [slots.filter(c => c !== null)] *)
Definition nonNull (slots : list (option DevelopmentCard))
  : list DevelopmentCard :=
  flat_map (fun c => match c with Some card => [card] | None => [] end) slots.

Definition getMarketCards (s : GameState) : list DevelopmentCard :=
  nonNull (market_tier1 (market s)) ++ nonNull (market_tier2 (market s))
  ++ nonNull (market_tier3 (market s)).

(* ======================================================================= *)
(** * availability.ts: the available actions *)
(* ======================================================================= *)

Record TakeGemsOptions : Type := mkTakeGemsOptions {
  canTakeThree : bool;
  availableForThree : list GemColor;
  availableForTwo : list GemColor
}.

Record ReservableCards : Type := mkReservableCards {
  canReserve : bool;
  reservable_marketCards : list string;
  blindDrawTiers : list CardTier
}.

Record PurchasableCards : Type := mkPurchasableCards {
  purchasable_marketCards : list string;
  purchasable_reservedCards : list string
}.

Record AvailableActions : Type := mkAvailableActions {
  isPlayerTurn : bool;
  mustDiscardGems : bool;
  gemsToDiscard : Z;
  mustSelectNoble : bool;
  selectableNobles : list string;
  takeGems : TakeGemsOptions;
  reservableCards : ReservableCards;
  purchasableCards : PurchasableCards
}.

Definition noTakeGems : TakeGemsOptions := mkTakeGemsOptions false [] [].
Definition noReservable : ReservableCards := mkReservableCards false [] [].
Definition noPurchasable : PurchasableCards := mkPurchasableCards [] [].

Definition getEmptyAvailableActions : AvailableActions :=
  mkAvailableActions false false 0 false [] noTakeGems noReservable
    noPurchasable.

Definition getMarketCardsByTier (s : GameState) (tier : CardTier)
  : list DevelopmentCard :=
  nonNull (getMarketByTier s tier).

Definition hasDeckCards (s : GameState) (tier : CardTier) : bool :=
  (0 <? List.length (getDeckByTier s tier))%nat.

(** The loop of [getTakeGemOptions] pushes, in the order of [GEM_COLORS], the
    colours the bank holds at least 1 (respectively 4) of. *)
Definition getTakeGemOptions (s : GameState) : TakeGemsOptions :=
  let forThree :=
    filter (fun color : GemColor => 1 <=? gem_get (bank s) color) GEM_COLORS in
  let forTwo :=
    filter (fun color : GemColor =>
              GAME_CONSTANTS.MIN_GEMS_FOR_TAKE_TWO <=? gem_get (bank s) color)
      GEM_COLORS in
  mkTakeGemsOptions (1 <=? List.length forThree)%nat forThree forTwo.

Definition getReservableCards (s : GameState) (playerId : string)
  : ReservableCards :=
  match getPlayerById s playerId with
  | None => noReservable
  | Some player =>
    if Z.of_nat (List.length (reservedCards player))
       <? GAME_CONSTANTS.MAX_RESERVED_CARDS
    then
      mkReservableCards true (map card_id (getMarketCards s))
        ((if hasDeckCards s Tier1 then [Tier1] else [])
         ++ (if hasDeckCards s Tier2 then [Tier2] else [])
         ++ (if hasDeckCards s Tier3 then [Tier3] else []))
    else noReservable
  end.

Definition getPurchasableCards (s : GameState) (playerId : string)
  : PurchasableCards :=
  match getPlayerById s playerId with
  | None => noPurchasable
  | Some player =>
    mkPurchasableCards
      (map card_id
         (filter (fun card => canAffordCard s playerId (card_id card))
            (getMarketCards s)))
      (map card_id
         (filter (fun card => canAffordCard s playerId (card_id card))
            (reservedCards player)))
  end.

Definition canPurchaseCard (s : GameState) (playerId cardId : string) : bool :=
  canAffordCard s playerId cardId.

(** [a === b] for an optional id and an id. *)
Definition isId (a : option string) (b : string) : bool :=
  match a with
  | Some x => (x =? b)%string
  | None => false
  end.

(** [getAvailableActions]: for a player of the state the turn test reads the
    current player, so it throws when there is none. *)
Definition getAvailableActions (s : GameState) (playerId : string)
  : exn AvailableActions :=
  match getPlayerById s playerId with
  | None => Ret getEmptyAvailableActions
  | Some _ =>
    turn <- isPlayersTurn s playerId ;;
    let isMyTurn := turn && isGameInProgress s in
    let totalGems := getTotalGems s playerId in
    let eligibleNobleIds := getEligibleNobles s playerId in
    let mustSelect :=
      isId (pendingNobleSelection s) playerId
      && (1 <? List.length eligibleNobleIds)%nat in
    let mustDiscard := isId (pendingGemDiscard s) playerId in
    let toDiscard :=
      if mustDiscard then totalGems - GAME_CONSTANTS.MAX_GEMS else 0 in
    if negb isMyTurn || mustDiscard || mustSelect then
      Ret (mkAvailableActions isMyTurn mustDiscard toDiscard mustSelect
             (if mustSelect then eligibleNobleIds else [])
             noTakeGems noReservable noPurchasable)
    else
      Ret (mkAvailableActions isMyTurn mustDiscard toDiscard mustSelect []
             (getTakeGemOptions s) (getReservableCards s playerId)
             (getPurchasableCards s playerId))
  end.

(* ======================================================================= *)
(** * data/cards.ts: the card and noble catalogs *)
(* ======================================================================= *)

Definition TIER_1_CARDS : list DevelopmentCard := [
  mkCard "t1_d01" Tier1 (mkColored 1 0 1 1 1) diamond 0;
  mkCard "t1_d02" Tier1 (mkColored 2 0 1 1 1) diamond 0;
  mkCard "t1_d03" Tier1 (mkColored 2 0 2 1 0) diamond 0;
  mkCard "t1_d04" Tier1 (mkColored 3 0 0 1 1) diamond 0;
  mkCard "t1_d05" Tier1 (mkColored 0 0 3 0 0) diamond 0;
  mkCard "t1_d06" Tier1 (mkColored 0 0 2 2 0) diamond 0;
  mkCard "t1_d07" Tier1 (mkColored 2 0 2 0 1) diamond 0;
  mkCard "t1_d08" Tier1 (mkColored 0 0 0 4 0) diamond 1;
  mkCard "t1_s01" Tier1 (mkColored 1 1 0 1 1) sapphire 0;
  mkCard "t1_s02" Tier1 (mkColored 1 1 0 1 2) sapphire 0;
  mkCard "t1_s03" Tier1 (mkColored 2 1 0 0 2) sapphire 0;
  mkCard "t1_s04" Tier1 (mkColored 3 1 0 0 1) sapphire 0;
  mkCard "t1_s05" Tier1 (mkColored 0 0 0 3 0) sapphire 0;
  mkCard "t1_s06" Tier1 (mkColored 2 0 0 2 0) sapphire 0;
  mkCard "t1_s07" Tier1 (mkColored 2 1 0 2 0) sapphire 0;
  mkCard "t1_s08" Tier1 (mkColored 0 0 0 0 4) sapphire 1;
  mkCard "t1_e01" Tier1 (mkColored 0 1 1 1 1) emerald 0;
  mkCard "t1_e02" Tier1 (mkColored 0 1 1 2 1) emerald 0;
  mkCard "t1_e03" Tier1 (mkColored 0 0 1 2 2) emerald 0;
  mkCard "t1_e04" Tier1 (mkColored 1 1 3 0 0) emerald 0;
  mkCard "t1_e05" Tier1 (mkColored 0 0 0 0 3) emerald 0;
  mkCard "t1_e06" Tier1 (mkColored 0 0 2 0 2) emerald 0;
  mkCard "t1_e07" Tier1 (mkColored 0 2 1 2 0) emerald 0;
  mkCard "t1_e08" Tier1 (mkColored 0 0 4 0 0) emerald 1;
  mkCard "t1_r01" Tier1 (mkColored 1 1 1 1 0) ruby 0;
  mkCard "t1_r02" Tier1 (mkColored 1 2 1 1 0) ruby 0;
  mkCard "t1_r03" Tier1 (mkColored 1 2 0 2 0) ruby 0;
  mkCard "t1_r04" Tier1 (mkColored 0 1 0 3 1) ruby 0;
  mkCard "t1_r05" Tier1 (mkColored 0 3 0 0 0) ruby 0;
  mkCard "t1_r06" Tier1 (mkColored 2 2 0 0 0) ruby 0;
  mkCard "t1_r07" Tier1 (mkColored 1 2 2 0 0) ruby 0;
  mkCard "t1_r08" Tier1 (mkColored 4 0 0 0 0) ruby 1;
  mkCard "t1_o01" Tier1 (mkColored 1 1 1 0 1) onyx 0;
  mkCard "t1_o02" Tier1 (mkColored 1 1 2 0 1) onyx 0;
  mkCard "t1_o03" Tier1 (mkColored 0 2 2 0 1) onyx 0;
  mkCard "t1_o04" Tier1 (mkColored 3 0 1 0 1) onyx 0;
  mkCard "t1_o05" Tier1 (mkColored 3 0 0 0 0) onyx 0;
  mkCard "t1_o06" Tier1 (mkColored 0 2 0 0 2) onyx 0;
  mkCard "t1_o07" Tier1 (mkColored 2 0 0 2 1) onyx 0;
  mkCard "t1_o08" Tier1 (mkColored 0 4 0 0 0) onyx 1
].

Definition TIER_2_CARDS : list DevelopmentCard := [
  mkCard "t2_d01" Tier2 (mkColored 3 0 2 2 0) diamond 1;
  mkCard "t2_d02" Tier2 (mkColored 2 0 0 3 3) diamond 1;
  mkCard "t2_d03" Tier2 (mkColored 0 5 3 0 0) diamond 2;
  mkCard "t2_d04" Tier2 (mkColored 0 0 0 0 5) diamond 2;
  mkCard "t2_d05" Tier2 (mkColored 0 0 0 3 5) diamond 2;
  mkCard "t2_d06" Tier2 (mkColored 0 0 0 0 6) diamond 3;
  mkCard "t2_s01" Tier2 (mkColored 2 2 0 0 3) sapphire 1;
  mkCard "t2_s02" Tier2 (mkColored 3 3 0 2 0) sapphire 1;
  mkCard "t2_s03" Tier2 (mkColored 3 0 5 0 0) sapphire 2;
  mkCard "t2_s04" Tier2 (mkColored 0 5 0 0 0) sapphire 2;
  mkCard "t2_s05" Tier2 (mkColored 3 5 0 0 0) sapphire 2;
  mkCard "t2_s06" Tier2 (mkColored 0 6 0 0 0) sapphire 3;
  mkCard "t2_e01" Tier2 (mkColored 0 2 3 2 0) emerald 1;
  mkCard "t2_e02" Tier2 (mkColored 0 3 2 0 3) emerald 1;
  mkCard "t2_e03" Tier2 (mkColored 5 0 0 0 3) emerald 2;
  mkCard "t2_e04" Tier2 (mkColored 0 0 5 0 0) emerald 2;
  mkCard "t2_e05" Tier2 (mkColored 0 0 5 0 3) emerald 2;
  mkCard "t2_e06" Tier2 (mkColored 0 0 6 0 0) emerald 3;
  mkCard "t2_r01" Tier2 (mkColored 3 0 2 3 0) ruby 1;
  mkCard "t2_r02" Tier2 (mkColored 0 2 2 3 0) ruby 1;
  mkCard "t2_r03" Tier2 (mkColored 0 3 0 0 5) ruby 2;
  mkCard "t2_r04" Tier2 (mkColored 0 0 0 5 0) ruby 2;
  mkCard "t2_r05" Tier2 (mkColored 0 3 0 5 0) ruby 2;
  mkCard "t2_r06" Tier2 (mkColored 0 0 0 6 0) ruby 3;
  mkCard "t2_o01" Tier2 (mkColored 0 3 3 0 2) onyx 1;
  mkCard "t2_o02" Tier2 (mkColored 2 0 3 0 2) onyx 1;
  mkCard "t2_o03" Tier2 (mkColored 3 0 0 5 0) onyx 2;
  mkCard "t2_o04" Tier2 (mkColored 5 0 0 0 0) onyx 2;
  mkCard "t2_o05" Tier2 (mkColored 5 3 0 0 0) onyx 2;
  mkCard "t2_o06" Tier2 (mkColored 6 0 0 0 0) onyx 3
].

Definition TIER_3_CARDS : list DevelopmentCard := [
  mkCard "t3_d01" Tier3 (mkColored 3 0 3 5 3) diamond 3;
  mkCard "t3_d02" Tier3 (mkColored 0 0 0 7 0) diamond 4;
  mkCard "t3_d03" Tier3 (mkColored 0 3 0 7 0) diamond 4;
  mkCard "t3_d04" Tier3 (mkColored 0 0 0 7 3) diamond 5;
  mkCard "t3_s01" Tier3 (mkColored 3 3 0 3 5) sapphire 3;
  mkCard "t3_s02" Tier3 (mkColored 0 7 0 0 0) sapphire 4;
  mkCard "t3_s03" Tier3 (mkColored 0 7 3 0 0) sapphire 4;
  mkCard "t3_s04" Tier3 (mkColored 0 7 0 3 0) sapphire 5;
  mkCard "t3_e01" Tier3 (mkColored 0 3 5 3 3) emerald 3;
  mkCard "t3_e02" Tier3 (mkColored 0 0 7 0 0) emerald 4;
  mkCard "t3_e03" Tier3 (mkColored 3 0 7 0 0) emerald 4;
  mkCard "t3_e04" Tier3 (mkColored 0 3 7 0 0) emerald 5;
  mkCard "t3_r01" Tier3 (mkColored 3 5 3 3 0) ruby 3;
  mkCard "t3_r02" Tier3 (mkColored 7 0 0 0 0) ruby 4;
  mkCard "t3_r03" Tier3 (mkColored 7 0 0 0 3) ruby 4;
  mkCard "t3_r04" Tier3 (mkColored 7 0 3 0 0) ruby 5;
  mkCard "t3_o01" Tier3 (mkColored 5 3 3 0 3) onyx 3;
  mkCard "t3_o02" Tier3 (mkColored 0 0 0 0 7) onyx 4;
  mkCard "t3_o03" Tier3 (mkColored 0 0 0 3 7) onyx 4;
  mkCard "t3_o04" Tier3 (mkColored 3 0 0 0 7) onyx 5
].

Definition NOBLES : list Noble := [
  mkNoble "noble_01" (mkColored 0 4 0 4 0) 3;
  mkNoble "noble_02" (mkColored 4 0 4 0 0) 3;
  mkNoble "noble_03" (mkColored 4 0 0 0 4) 3;
  mkNoble "noble_04" (mkColored 0 0 0 4 4) 3;
  mkNoble "noble_05" (mkColored 0 3 3 3 0) 3;
  mkNoble "noble_06" (mkColored 3 3 3 0 0) 3;
  mkNoble "noble_07" (mkColored 3 0 3 0 3) 3;
  mkNoble "noble_08" (mkColored 3 0 0 3 3) 3;
  mkNoble "noble_09" (mkColored 0 3 0 3 3) 3;
  mkNoble "noble_10" (mkColored 3 3 0 3 0) 3
].

Definition getCardsByTier (tier : CardTier) : list DevelopmentCard :=
  match tier with
  | Tier1 => TIER_1_CARDS
  | Tier2 => TIER_2_CARDS
  | Tier3 => TIER_3_CARDS
  end.

Definition getAllNobles : list Noble := NOBLES.

Definition getAllCards : list DevelopmentCard :=
  TIER_1_CARDS ++ TIER_2_CARDS ++ TIER_3_CARDS.

Definition findCardById (id : string) : option DevelopmentCard :=
  find (fun card => card_id card =? id)%string getAllCards.

Definition findNobleById (id : string) : option Noble :=
  find (fun noble => noble_id noble =? id)%string NOBLES.

(* ======================================================================= *)
(** * initialization.ts: game creation *)
(* ======================================================================= *)

Definition createEmptyGemCollection : GemCollection := mkGems 0 0 0 0 0 0.

Definition createEmptyColoredGemCollection : ColoredGemCollection :=
  mkColored 0 0 0 0 0.

Definition createInitialBank (n : PlayerCount) : GemCollection :=
  let counts := INITIAL_GEM_COUNTS n in
  mkGems (fst counts) (fst counts) (fst counts) (fst counts) (fst counts)
    (snd counts).

Definition createPlayer (id name : string) : Player :=
  mkPlayer id name createEmptyGemCollection createEmptyColoredGemCollection
    [] [] [] 0.

(** The injected random source, seen through its only use,
    [Math.floor(randomFn() * bound)]: [rand k bound] is that index at the
    [k]-th call.  A source that keeps the contract of [Math.random] yields an
    index below [bound]. *)
Definition RandomSource : Type := nat -> nat -> nat.

(** [[result[i], result[j]] = [result[j], result[i]]] for indices inside the
    array. *)
Definition swapAt {A : Type} (i j : nat) (l : list A) : list A :=
  match nth_error l i, nth_error l j with
  | Some x, Some y => replaceAt i y (replaceAt j x l)
  | _, _ => l
  end.

(** The loop of [shuffleArray], from index [i] down to 1; [calls] counts the
    calls made to the random source so far. *)
Fixpoint shuffleLoop {A : Type} (rand : RandomSource) (i calls : nat)
  (result : list A) : list A * nat :=
  match i with
  | O => (result, calls)
  | S i' => shuffleLoop rand i' (S calls) (swapAt i (rand calls (S i)) result)
  end.

Definition shuffleArray {A : Type} (rand : RandomSource) (calls : nat)
  (array : list A) : list A * nat :=
  shuffleLoop rand (List.length array - 1) calls array.

Definition createShuffledDecks (rand : RandomSource) (calls : nat)
  : CardDecks * nat :=
  let t1 := shuffleArray rand calls (getCardsByTier Tier1) in
  let t2 := shuffleArray rand (snd t1) (getCardsByTier Tier2) in
  let t3 := shuffleArray rand (snd t2) (getCardsByTier Tier3) in
  (mkDecks (fst t1) (fst t2) (fst t3), snd t3).

Definition createInitialMarket (shuffled : CardDecks) : CardMarket * CardDecks :=
  (mkMarket (map Some (firstn GAME_CONSTANTS.MARKET_SIZE (deck_tier1 shuffled)))
     (map Some (firstn GAME_CONSTANTS.MARKET_SIZE (deck_tier2 shuffled)))
     (map Some (firstn GAME_CONSTANTS.MARKET_SIZE (deck_tier3 shuffled))),
   mkDecks (skipn GAME_CONSTANTS.MARKET_SIZE (deck_tier1 shuffled))
     (skipn GAME_CONSTANTS.MARKET_SIZE (deck_tier2 shuffled))
     (skipn GAME_CONSTANTS.MARKET_SIZE (deck_tier3 shuffled))).

Definition selectNobles (n : PlayerCount) (rand : RandomSource) (calls : nat)
  : list Noble * nat :=
  let shuffled := shuffleArray rand calls getAllNobles in
  (firstn (Z.to_nat (playerCount_value n + 1)) (fst shuffled), snd shuffled).

Definition randomizePlayerOrder (ps : list Player) (rand : RandomSource)
  (calls : nat) : list Player * nat :=
  shuffleArray rand calls ps.

(** [createGame(config, playerInfos, randomFn)].  [freshId] is the string
    [generateGameId()] builds from the clock and [Math.random]. *)
Definition createGame (config : GameConfig)
  (playerInfos : list (string * string)) (rand : RandomSource)
  (freshId : string) : exn GameState :=
  if negb (Z.of_nat (List.length playerInfos)
           =? playerCount_value (playerCount config))
  then Throw (Error "Expected playerCount players")
  else
    let ps := map (fun info => createPlayer (fst info) (snd info)) playerInfos in
    let orderedPlayers := randomizePlayerOrder ps rand O in
    let initialBank := createInitialBank (playerCount config) in
    let shuffledDecks := createShuffledDecks rand (snd orderedPlayers) in
    let dealt := createInitialMarket (fst shuffledDecks) in
    let chosenNobles := selectNobles (playerCount config) rand (snd shuffledDecks) in
    Ret (mkState freshId playing (fst orderedPlayers) 0 initialBank
           (fst dealt) (snd dealt) (fst chosenNobles) 1 None [] None None).

(* ======================================================================= *)
(** * Specification-side definitions *)
(* ======================================================================= *)

(** The gems of one type held by all players, and the total in play: bank
    plus players. *)
Definition playersGems (g : GemType) (ps : list Player) : Z :=
  fold_right Z.add 0 (map (fun p => gem_get (gems p) g) ps).

Definition gemTotal (g : GemType) (s : GameState) : Z :=
  gem_get (bank s) g + playersGems g (players s).

(** A step of a handler that, in a state holding player [pid], keeps that
    player in the state and keeps the total of every gem type. *)
Definition conserving (pid : string) (s s' : GameState) : Prop :=
  getPlayerById s pid <> None ->
  getPlayerById s' pid <> None /\ forall g, gemTotal g s' = gemTotal g s.

(** The shortfall of one colour as the specification words it:
    [max 0 (max 0 (cost - bonus) - gems)]. *)
Definition colorShortfall (card : DevelopmentCard) (player : Player)
  (color : GemColor) : Z :=
  Z.max 0 (Z.max 0 (col_get (cost card) color - col_get (bonuses player) color)
           - gem_get (gems player) color).

Definition nonnegColored (c : ColoredGemCollection) : Prop :=
  forall color, 0 <= col_get c color.

(** The tie-break order as the specification words it: a winner has the
    highest prestige of all players and, among the players with the highest
    prestige, the fewest purchased cards. *)
Definition hasMaxPrestige (ps : list Player) (p : Player) : bool :=
  forallb (fun q => prestigePoints q <=? prestigePoints p) ps.

Definition isWinner (ps : list Player) (p : Player) : bool :=
  hasMaxPrestige ps p
  && forallb (fun q => cardCount p <=? cardCount q) (filter (hasMaxPrestige ps) ps).

Definition isDiscard (a : PlayerAction) : bool :=
  match a with
  | DISCARD_GEMS _ _ => true
  | _ => false
  end.

(** What the economic effect of an action leaves alone: whose turn it is, the
    round, the phase, the nobles of the pool and of each player, and the
    pending noble selection. *)
Definition turnFrame (s s' : GameState) : Prop :=
  currentPlayerIndex s' = currentPlayerIndex s
  /\ round s' = round s
  /\ phase s' = phase s
  /\ nobles s' = nobles s
  /\ pendingNobleSelection s' = pendingNobleSelection s
  /\ map player_nobles (players s') = map player_nobles (players s).

(** The state a noble award leads to, before the turn goes on: the pool is
    left with [rest], the noble is appended to the player's nobles and 3
    prestige points are added. *)
Definition awardNoble (pid : string) (noble : Noble) (rest : list Noble)
  (s : GameState) : GameState :=
  mutatePlayer pid
    (fun p => set_prestigePoints (prestigePoints p + 3)
                (set_player_nobles (player_nobles p ++ [noble]) p))
    (set_nobles rest s).

(** The nobles of a pool as the catalog has them: distinct ids and, as the
    type [Noble] fixes it, 3 prestige points each. *)
Definition noblesWellFormed (pool : list Noble) : Prop :=
  NoDup (map noble_id pool)
  /\ forall n, In n pool -> noble_prestigePoints n = 3.

(** The states of a game: those [createGame] returns and those [applyAction]
    returns from them. *)
Inductive reachable : GameState -> Prop :=
| reachable_created (config : GameConfig) (playerInfos : list (string * string))
    (rand : RandomSource) (freshId : string) (s : GameState) :
    createGame config playerInfos rand freshId = Ret s -> reachable s
| reachable_applied (s : GameState) (a : PlayerAction) (s' : GameState) :
    reachable s -> applyAction s a = Ret s' -> reachable s'.

(** A random source within the contract of [Math.random]: a value in
    [0, 1) gives an index below the bound. *)
Definition inContract (rand : RandomSource) : Prop :=
  forall k bound, (0 < bound)%nat -> (rand k bound < bound)%nat.

(** The elementary writes of the action handlers, as relations between the
    state before and after.  [economy] closes the writes of the economic
    effect of an action (bank, gems, market, decks, reserved and purchased
    cards) under composition; [turnEnd] does so for the writes of the
    end-of-turn pipeline (pending flags, noble award, end-game trigger and
    turn advance). *)
Inductive economy : GameState -> GameState -> Prop :=
| eco_refl (s : GameState) : economy s s
| eco_trans (s1 s2 s3 : GameState) :
    economy s1 s2 -> economy s2 s3 -> economy s1 s3
| eco_bank (b : GemCollection) (s : GameState) : economy s (set_bank b s)
| eco_gems (pid : string) (g : Player -> GemCollection) (s : GameState) :
    economy s (mutatePlayer pid (fun p => set_gems (g p) p) s)
| eco_market (tier : CardTier) (slots : list (option DevelopmentCard))
    (s : GameState) :
    List.length slots = List.length (getMarketByTier s tier) ->
    economy s (set_marketByTier tier slots s)
| eco_deck (tier : CardTier) (card : DevelopmentCard)
    (rest : list DevelopmentCard) (s : GameState) :
    getDeckByTier s tier = card :: rest ->
    economy s (set_deckByTier tier rest s)
| eco_reserve (pid : string) (card : DevelopmentCard) (s : GameState) :
    (forall p, getPlayerById s pid = Some p ->
               Z.of_nat (List.length (reservedCards p))
               < GAME_CONSTANTS.MAX_RESERVED_CARDS) ->
    economy s
      (mutatePlayer pid
         (fun p => set_reservedCards (reservedCards p ++ [card]) p) s)
| eco_unreserve (pid : string) (i : nat) (s : GameState) :
    economy s
      (mutatePlayer pid
         (fun p => set_reservedCards (removeAt i (reservedCards p)) p) s)
| eco_receiveCard (pid : string) (card : DevelopmentCard) (s : GameState) :
    economy s (mutatePlayer pid (receiveCard card) s)
| eco_discarded (s : GameState) : economy s (set_pendingGemDiscard None s).

Inductive turnEnd : GameState -> GameState -> Prop :=
| turn_refl (s : GameState) : turnEnd s s
| turn_trans (s1 s2 s3 : GameState) :
    turnEnd s1 s2 -> turnEnd s2 s3 -> turnEnd s1 s3
| turn_pendingDiscard (pid : string) (s : GameState) :
    turnEnd s (set_pendingGemDiscard (Some pid) s)
| turn_pendingNoble (v : option string) (s : GameState) :
    turnEnd s (set_pendingNobleSelection v s)
| turn_noble (pid : string) (i : nat) (noble : Noble) (s : GameState) :
    nth_error (nobles s) i = Some noble ->
    turnEnd s
      (mutatePlayer pid (receiveNoble noble)
         (set_nobles (removeAt i (nobles s)) s))
| turn_trigger (s : GameState) : turnEnd s (checkGameEndTrigger s)
| turn_advance (s : GameState) : turnEnd s (advanceTurn s).

(** The bookkeeping of one player: the prestige is that of the purchased
    cards and of the nobles, and the bonus of a colour is the number of
    purchased cards that give it. *)
Definition sumZ (l : list Z) : Z := fold_right Z.add 0 l.

Definition bonusCount (color : GemColor) (cards : list DevelopmentCard) : Z :=
  Z.of_nat (List.length
              (filter (fun c => GemColor_eqb (bonus c) color) cards)).

Definition booksBalanced (p : Player) : Prop :=
  prestigePoints p
  = sumZ (map card_prestigePoints (purchasedCards p))
    + sumZ (map noble_prestigePoints (player_nobles p))
  /\ forall color, col_get (bonuses p) color
                   = bonusCount color (purchasedCards p).

(** The order of the phases: a game is played, enters its final round,
    ends. *)
Definition phaseRank (ph : GamePhase) : Z :=
  match ph with
  | waiting => 0
  | playing => 1
  | final_round => 2
  | ended => 3
  end.

(** Three views of a state: who sits at the table, what the end-of-turn
    pipeline owns, and what the economic effect of an action owns. *)
Definition seatsOf (s : GameState) : string * list string * list string :=
  (game_id s, map player_id (players s), map player_name (players s)).

Definition turnStateOf (s : GameState)
  : GamePhase * Z * Z * list Noble * option string * list string
    * option string * list (list Noble) :=
  (phase s, currentPlayerIndex s, round s, nobles s, endGameTriggeredBy s,
   winners s, pendingNobleSelection s, map player_nobles (players s)).

Definition holdingsOf (s : GameState)
  : GemCollection * CardMarket * CardDecks * list GemCollection
    * list ColoredGemCollection * list (list DevelopmentCard)
    * list (list DevelopmentCard) :=
  (bank s, market s, decks s, map gems (players s), map bonuses (players s),
   map reservedCards (players s), map purchasedCards (players s)).

(** What the end-of-turn pipeline does to the state an action's effect
    hands over: it waits for a discard or for a noble selection, or it
    awards at most one noble and moves on with [checkGameEndAndAdvance]. *)
Inductive award : GameState -> GameState -> Prop :=
| award_none (s : GameState) : award s s
| award_noble (pid : string) (i : nat) (noble : Noble) (s : GameState) :
    getPlayerById s pid <> None ->
    nth_error (nobles s) i = Some noble ->
    award s
      (mutatePlayer pid (receiveNoble noble)
         (set_nobles (removeAt i (nobles s)) s))
| award_selected (pid : string) (i : nat) (noble : Noble) (s : GameState) :
    getPlayerById s pid <> None ->
    nth_error (nobles s) i = Some noble ->
    award s
      (set_pendingNobleSelection None
         (mutatePlayer pid (receiveNoble noble)
            (set_nobles (removeAt i (nobles s)) s))).

Definition turnOutcome (pid : string) (s1 s' : GameState) : Prop :=
  s' = set_pendingGemDiscard (Some pid) s1
  \/ s' = set_pendingNobleSelection (Some pid) s1
  \/ exists s2, award s1 s2 /\ s' = checkGameEndAndAdvance s2.

(** The end-game bookkeeping of a state: no trigger and no winner while the
    game is played, a trigger and no winner yet in the final round, and the
    winners of the final table once the game has ended. *)
Definition endGameBooks (s : GameState) : Prop :=
  match phase s with
  | waiting => False
  | playing => endGameTriggeredBy s = None /\ winners s = []
  | final_round => endGameTriggeredBy s <> None /\ winners s = []
  | ended => endGameTriggeredBy s <> None /\ winners s = determineWinners s
  end.



(** All the development cards of a state: those on the table (market rows
    and decks) and those in the players' hands (reserved and purchased). *)
Definition tierCards (s : GameState) (tier : CardTier) : list DevelopmentCard :=
  nonNull (getMarketByTier s tier) ++ getDeckByTier s tier.

Definition tableCards (s : GameState) : list DevelopmentCard :=
  tierCards s Tier1 ++ tierCards s Tier2 ++ tierCards s Tier3.

Definition handCards (p : Player) : list DevelopmentCard :=
  reservedCards p ++ purchasedCards p.

Definition allCards (s : GameState) : list DevelopmentCard :=
  tableCards s ++ flat_map handCards (players s).

(** All the noble tiles of a state: the pool and those the players hold. *)
Definition allNobles (s : GameState) : list Noble :=
  nobles s ++ flat_map player_nobles (players s).

(** No negative gem count, in the bank or with a player. *)
Definition gemsNonneg (g : GemCollection) : Prop :=
  forall t, 0 <= gem_get g t.

Definition noDebt (s : GameState) : Prop :=
  gemsNonneg (bank s) /\ Forall (fun p => gemsNonneg (gems p)) (players s).

(** The keys of an object are distinct: so are those of the entries of the
    [gems] of a DISCARD_GEMS action. *)
Definition wellFormedAction (a : PlayerAction) : Prop :=
  match a with
  | DISCARD_GEMS _ discarded => NoDup (map fst discarded)
  | _ => True
  end.

(** What a state says about cards and about gems. *)
Definition cardsView (s : GameState)
  : CardMarket * CardDecks * list (list DevelopmentCard)
    * list (list DevelopmentCard) :=
  (market s, decks s, map reservedCards (players s),
   map purchasedCards (players s)).


(** A decision procedure for the distinctness of a list of ids. *)
Fixpoint distinctIds (l : list string) : bool :=
  match l with
  | [] => true
  | x :: r => negb (existsb (String.eqb x) r) && distinctIds r
  end.

(** The gems a DISCARD_GEMS action gives back: the positive counts of its
    entries. *)
Definition discardedTotal (entries : list (GemType * option Z)) : Z :=
  sumZ (map (fun e => match snd e with
                      | Some count => Z.max 0 count
                      | None => 0
                      end) entries).

(** The transfers a DISCARD_GEMS action makes: its entries with a positive
    count. *)
Definition positiveEntries (entries : list (GemType * option Z))
  : list (GemType * Z) :=
  flat_map (fun e => match snd e with
                     | Some count => if count <=? 0 then [] else [(fst e, count)]
                     | None => []
                     end) entries.

Definition transfer (pid : string) (st : GameState) (m : GemType * Z)
  : GameState :=
  playerToBank pid (fst m) (snd m) st.

(** The empty slots of a market row. *)
Definition emptySlots (slots : list (option DevelopmentCard)) : nat :=
  List.length (filter isNull slots).

(* ======================================================================= *)
(** * Example states *)
(* ======================================================================= *)

(** A random source that always yields index 0. *)
Definition firstIndex : RandomSource := fun _ _ => O.

(** The state read from a call that threw. *)
Definition noGame : GameState :=
  mkState "" waiting [] 0 createEmptyGemCollection (mkMarket [] [] [])
    (mkDecks [] [] []) [] 0 None [] None None.

Definition stateOf (r : exn GameState) : GameState :=
  match r with
  | Ret s => s
  | Throw _ => noGame
  end.

(** A fresh two-player game; with [firstIndex] the turn order is "p2", "p1". *)
Definition freshGame : GameState :=
  stateOf (createGame (mkConfig Two) [("p1", "Alice"); ("p2", "Bob")]
             firstIndex "game_1").

(** The purchase scenario of the specification: bonuses [{emerald: 2}], gems
    [{emerald: 1, gold: 1}], a market card costing [{emerald: 3}]. *)
Definition cardEmerald3 : DevelopmentCard :=
  mkCard "c_e3" Tier1 (mkColored 3 0 0 0 0) emerald 0.

Definition alice : Player :=
  mkPlayer "p1" "Alice" (mkGems 1 0 0 0 0 1) (mkColored 2 0 0 0 0) [] [] [] 0.

Definition bob : Player := createPlayer "p2" "Bob".

Definition purchaseScenario : GameState :=
  mkState "game_2" playing [alice; bob] 0 (mkGems 3 4 4 4 4 4)
    (mkMarket [Some cardEmerald3] [] []) (mkDecks [] [] []) [] 1 None [] None
    None.

(** A table in its final round with a three-way tie on prestige, two of the
    tied players also tied on purchased cards; the last player is to move. *)
Definition contender (id : string) (points : Z) (cards : nat) : Player :=
  mkPlayer id id createEmptyGemCollection createEmptyColoredGemCollection []
    (repeat cardEmerald3 cards) [] points.

Definition tiedTable : GameState :=
  mkState "game_3" final_round
    [contender "a" 15 5; contender "b" 15 3; contender "c" 15 3;
     contender "d" 10 1]
    3 (mkGems 4 4 4 4 4 5) (mkMarket [] [] []) (mkDecks [] [] []) [] 7
    (Some "a") [] None None.

(** A table two nobles away: the current player "p1" holds 9 gems and the
    bonuses [{diamond: 4, onyx: 3, ruby: 4}]; an onyx card the bonuses pay for
    is in the market; two nobles of the pool ask for 4 onyx. *)
Definition carol : Player :=
  mkPlayer "p1" "Carol" (mkGems 3 3 3 0 0 0) (mkColored 0 4 0 3 4) [] [] [] 5.

Definition dave : Player := createPlayer "p2" "Dave".

Definition onyxCard : DevelopmentCard :=
  mkCard "t1_o06" Tier1 (mkColored 0 2 0 0 2) onyx 0.

Definition noble01 : Noble := mkNoble "noble_01" (mkColored 0 4 0 4 0) 3.
Definition noble04 : Noble := mkNoble "noble_04" (mkColored 0 0 0 4 4) 3.
Definition noble07 : Noble := mkNoble "noble_07" (mkColored 3 0 3 0 3) 3.

Definition twoNoblesAhead : GameState :=
  mkState "game_4" playing [carol; dave] 0 (mkGems 1 1 1 4 4 5)
    (mkMarket [Some onyxCard] [] []) (mkDecks [] [] [])
    [noble01; noble04; noble07] 5 None [] None None.

(** The same table with a single noble asking for 4 onyx. *)
Definition oneNobleAhead : GameState :=
  set_nobles [noble07; noble01] twoNoblesAhead.

(** After the purchase of the onyx card two nobles are eligible and the
    selection is pending for "p1". *)
Definition awaitingSelection : GameState :=
  stateOf (applyAction twoNoblesAhead (PURCHASE_CARD "p1" "t1_o06" None)).

(** "p1" takes three gems instead of selecting: 12 gems, discard pending. *)
Definition awaitingDiscard : GameState :=
  stateOf (applyAction awaitingSelection
             (TAKE_THREE_GEMS "p1" [colored emerald; colored onyx; colored ruby])).

(** The discard that resolves [awaitingDiscard]: "p1" gives back two
    emeralds. *)
Definition resolvingDiscard : PlayerAction :=
  DISCARD_GEMS "p1" [(colored emerald, Some 2)].

(** A table where "p2", who is not the current player, meets a noble of the
    pool and no selection is pending. *)
Definition erin : Player :=
  mkPlayer "p2" "Erin" (mkGems 0 0 0 0 0 0) (mkColored 3 0 3 0 3) [] [] [] 4.

Definition idleNoble : GameState :=
  mkState "game_5" playing [carol; erin] 0 (mkGems 1 1 1 4 4 5)
    (mkMarket [Some onyxCard] [] []) (mkDecks [] [] [])
    [noble01; noble07] 5 None [] None None.

(** The discard scenario of the specification: "p1" holds 9 gems and takes
    three more. *)
Definition frank : Player :=
  mkPlayer "p1" "Frank" (mkGems 2 2 2 2 1 0) createEmptyColoredGemCollection
    [] [] [] 0.

Definition gina : Player := createPlayer "p2" "Gina".

Definition nineGems : GameState :=
  mkState "game_6" playing [frank; gina] 0 (mkGems 2 2 2 2 3 5)
    (mkMarket [] [] []) (mkDecks [] [] []) [] 3 None [] None None.

Definition overLimit : GameState :=
  stateOf (applyAction nineGems
             (TAKE_THREE_GEMS "p1"
                [colored emerald; colored diamond; colored sapphire])).

(** The last turn of a final round, as the repository's game-end test sets it
    up on a fresh game: "p2" triggered the end with 15 points, "p1", the last
    player in turn order, is to move. *)
Definition lastTurn : GameState :=
  set_currentPlayerIndex 1
    (set_phase final_round
       (set_endGameTriggeredBy (Some "p2")
          (mutatePlayer "p2" (set_prestigePoints 15)
             (mutatePlayer "p1" (set_gems (mkGems 1 1 1 1 1 0)) freshGame)))).

(* ======================================================================= *)
(** * Lemmas on collections and arrays *)
(* ======================================================================= *)

(** Closed facts about example states: split the conjunctions (and only
    them) and evaluate each side. *)
Ltac evaluate :=
  repeat match goal with |- _ /\ _ => split end;
  vm_compute; reflexivity.

Lemma GemType_eqb_eq (a b : GemType) : GemType_eqb a b = true <-> a = b.
Proof.
  destruct a as [[]|], b as [[]|]; cbn; split; intro H;
    try reflexivity; try discriminate.
Qed.

Lemma gem_get_set (g : GemCollection) (t t' : GemType) (v : Z) :
  gem_get (gem_set g t v) t' = if GemType_eqb t t' then v else gem_get g t'.
Proof. destruct t as [[]|], t' as [[]|]; reflexivity. Qed.

Lemma gem_get_add (g : GemCollection) (t t' : GemType) (d : Z) :
  gem_get (gem_add g t d) t'
  = gem_get g t' + (if GemType_eqb t t' then d else 0).
Proof.
  unfold gem_add. rewrite gem_get_set.
  destruct (GemType_eqb t t') eqn:E; [|lia].
  apply GemType_eqb_eq in E. subst. reflexivity.
Qed.

Lemma col_get_set (c : ColoredGemCollection) (t t' : GemColor) (v : Z) :
  col_get (col_set c t v) t' = if GemColor_eqb t t' then v else col_get c t'.
Proof. destruct t, t'; reflexivity. Qed.

Lemma coloredSum_set (c : ColoredGemCollection) (t : GemColor) (v : Z) :
  coloredSum (col_set c t v) = coloredSum c - col_get c t + v.
Proof. destruct t; unfold coloredSum; cbn; lia. Qed.

Lemma coloredSum_get (c : ColoredGemCollection) :
  coloredSum c = fold_right Z.add 0 (map (col_get c) GEM_COLORS).
Proof. unfold coloredSum; cbn; lia. Qed.

Lemma findIndex_find {A : Type} (f : A -> bool) (l : list A) (i : nat) :
  findIndex f l = Some i ->
  exists x, nth_error l i = Some x /\ find f l = Some x /\ f x = true.
Proof.
  revert i. induction l as [|a l IH]; intros i H; cbn in *; [discriminate|].
  destruct (f a) eqn:Fa.
  - inversion H; subst. exists a. cbn. auto.
  - destruct (findIndex f l) as [j|]; [|discriminate].
    inversion H; subst. destruct (IH j eq_refl) as (x & Hn & Hf & Hx).
    exists x. cbn. auto.
Qed.

Lemma find_findIndex {A : Type} (f : A -> bool) (l : list A) (x : A) :
  find f l = Some x ->
  exists i, findIndex f l = Some i /\ nth_error l i = Some x.
Proof.
  induction l as [|a l IH]; intros H; cbn in *; [discriminate|].
  destruct (f a).
  - inversion H; subst. exists O. auto.
  - destruct (IH H) as (i & Hi & Hn). exists (S i). rewrite Hi. auto.
Qed.

Lemma findIndex_None {A : Type} (f : A -> bool) (l : list A) :
  findIndex f l = None <-> find f l = None.
Proof.
  induction l as [|a l IH]; cbn; [tauto|].
  destruct (f a); [split; discriminate|].
  destruct (findIndex f l); cbn; split; intro H;
    try discriminate; try reflexivity; apply IH in H; try discriminate; auto.
Qed.

Lemma removeAt_split {A : Type} (l : list A) (i : nat) (x : A) :
  nth_error l i = Some x ->
  exists l1 l2, l = l1 ++ x :: l2 /\ removeAt i l = l1 ++ l2
                /\ List.length l1 = i.
Proof.
  revert i. induction l as [|a l IH]; intros [|i] H; cbn in *; try discriminate.
  - inversion H; subst. exists [], l. auto.
  - destruct (IH i H) as (l1 & l2 & E1 & E2 & E3).
    exists (a :: l1), l2. subst. cbn. rewrite E2. auto.
Qed.

(* ======================================================================= *)
(** * Lemmas on the player list *)
(* ======================================================================= *)

Lemma withPlayer_missing (pid : string) (f : Player -> Player) (ps : list Player) :
  find (fun p => player_id p =? pid)%string ps = None -> withPlayer pid f ps = ps.
Proof.
  induction ps as [|p ps IH]; cbn; [reflexivity|].
  destruct (player_id p =? pid)%string; [discriminate|].
  intro H. rewrite IH; auto.
Qed.

Lemma find_withPlayer (pid : string) (f : Player -> Player) (ps : list Player) :
  (forall p, player_id (f p) = player_id p) ->
  find (fun p => player_id p =? pid)%string (withPlayer pid f ps)
  = option_map f (find (fun p => player_id p =? pid)%string ps).
Proof.
  intro Hid. induction ps as [|p ps IH]; cbn; [reflexivity|].
  destruct (player_id p =? pid)%string eqn:E; cbn.
  - rewrite Hid, E. reflexivity.
  - rewrite E. exact IH.
Qed.

Lemma length_withPlayer (pid : string) (f : Player -> Player) (ps : list Player) :
  List.length (withPlayer pid f ps) = List.length ps.
Proof.
  induction ps as [|p ps IH]; cbn; [reflexivity|].
  destruct (player_id p =? pid)%string; cbn; congruence.
Qed.

Lemma map_withPlayer {B : Type} (h : Player -> B) (pid : string)
  (f : Player -> Player) (ps : list Player) :
  (forall p, h (f p) = h p) -> map h (withPlayer pid f ps) = map h ps.
Proof.
  intro H. induction ps as [|p ps IH]; cbn; [reflexivity|].
  destruct (player_id p =? pid)%string; cbn; congruence.
Qed.

Lemma getPlayerById_mutatePlayer (s : GameState) (pid : string)
  (f : Player -> Player) :
  (forall p, player_id (f p) = player_id p) ->
  getPlayerById (mutatePlayer pid f s) pid = option_map f (getPlayerById s pid).
Proof. intro H. unfold getPlayerById, mutatePlayer. cbn. apply find_withPlayer, H. Qed.

Lemma getPlayerById_In (s : GameState) (pid : string) (p : Player) :
  getPlayerById s pid = Some p -> In p (players s) /\ player_id p = pid.
Proof.
  unfold getPlayerById. intro H. apply find_some in H. destruct H as [Hin E].
  apply String.eqb_eq in E. auto.
Qed.

Lemma isPlayersTurn_player (s : GameState) (pid : string) :
  isPlayersTurn s pid = Ret true -> exists p, getPlayerById s pid = Some p.
Proof.
  unfold isPlayersTurn, getCurrentPlayer, getPlayerById.
  destruct (currentPlayerIndex s <? 0); [discriminate|].
  destruct (nth_error (players s) (Z.to_nat (currentPlayerIndex s))) as [c|] eqn:E;
    [|discriminate].
  intro H. inversion H as [H1].
  destruct (find (fun p => player_id p =? pid)%string (players s)) as [p|] eqn:F.
  - eauto.
  - apply nth_error_In in E. eapply find_none in F; eauto.
    cbn in F. congruence.
Qed.

(* ======================================================================= *)
(** * Cost and affordability *)
(* ======================================================================= *)

Lemma effectiveCost_get (s : GameState) (pid cid : string) (player : Player)
  (card : DevelopmentCard) :
  getPlayerById s pid = Some player ->
  findCardForPlayer s player cid = Some card ->
  exists eff, calculateEffectiveCost s pid cid = Some eff /\
    forall color, col_get eff color
      = Z.max 0 (col_get (cost card) color - col_get (bonuses player) color).
Proof.
  intros Hp Hc. unfold calculateEffectiveCost. rewrite Hp, Hc.
  eexists. split; [reflexivity|]. intros []; reflexivity.
Qed.

Lemma conditional_sum (h : GemColor -> Z) (l : list GemColor) (a : Z) :
  fold_left (fun acc c => if 0 <? h c then acc + h c else acc) l a
  = a + fold_right Z.add 0 (map (fun c => Z.max 0 (h c)) l).
Proof.
  revert a. induction l as [|c l IH]; intro a; cbn; [lia|].
  rewrite IH. destruct (Z.ltb_spec 0 (h c)); lia.
Qed.

Lemma goldNeededFor_sum (eff : ColoredGemCollection) (player : Player) :
  goldNeededFor eff player
  = fold_right Z.add 0
      (map (fun c => Z.max 0 (col_get eff c - gem_get (gems player) c))
         GEM_COLORS).
Proof.
  unfold goldNeededFor.
  rewrite (conditional_sum
             (fun c => col_get eff c - gem_get (gems player) c) GEM_COLORS 0).
  lia.
Qed.

Lemma canAffordCard_found (s : GameState) (pid cid : string)
  (player : Player) (card : DevelopmentCard) :
  getPlayerById s pid = Some player ->
  findCardForPlayer s player cid = Some card ->
  (canAffordCard s pid cid = true <->
   fold_right Z.add 0 (map (colorShortfall card player) GEM_COLORS)
   <= gem_get (gems player) gold).
Proof.
  intros Hp Hc.
  destruct (effectiveCost_get s pid cid player card Hp Hc) as (eff & He & Hget).
  unfold canAffordCard. rewrite Hp, He, goldNeededFor_sum.
  unfold colorShortfall. cbn [map GEM_COLORS fold_right].
  rewrite !Hget. rewrite Z.leb_le. reflexivity.
Qed.

(** With distinct ids, the lookups of [canAffordCard] find the very player
    and card one has in hand. *)
Lemma find_unique {A : Type} (key : A -> string) (l : list A) (x : A) :
  NoDup (map key l) -> In x l ->
  find (fun y => key y =? key x)%string l = Some x.
Proof.
  induction l as [|a l IH]; cbn; [tauto|].
  intros Hnd Hin. inversion Hnd as [|? ? Hnotin Hnd']; subst.
  destruct Hin as [E|Hin].
  - subst a. rewrite String.eqb_refl. reflexivity.
  - destruct (String.eqb_spec (key a) (key x)) as [E|E]; [|auto].
    exfalso. apply Hnotin. rewrite E. apply in_map, Hin.
Qed.

Lemma findInSlots_nonNull (cid : string) (slots : list (option DevelopmentCard)) :
  findInSlots cid slots
  = find (fun c => card_id c =? cid)%string (nonNull slots).
Proof.
  unfold findInSlots. induction slots as [|[c|] slots IH]; cbn; auto.
  destruct (card_id c =? cid)%string; auto.
Qed.

Lemma find_app {A : Type} (f : A -> bool) (l1 l2 : list A) :
  find f (l1 ++ l2) = orElse (find f l1) (find f l2).
Proof.
  induction l1 as [|a l1 IH]; cbn; [destruct (find f l2); reflexivity|].
  destruct (f a); auto.
Qed.

Lemma findCardForPlayer_listed (s : GameState) (player : Player) (cid : string) :
  findCardForPlayer s player cid
  = find (fun c => card_id c =? cid)%string
      (getMarketCards s ++ reservedCards player).
Proof.
  unfold findCardForPlayer, findCardInMarket, getMarketCards.
  rewrite !find_app, !findInSlots_nonNull.
  destruct (find _ (nonNull (market_tier1 (market s)))); [reflexivity|].
  destruct (find _ (nonNull (market_tier2 (market s)))); [reflexivity|].
  destruct (find _ (nonNull (market_tier3 (market s)))); reflexivity.
Qed.

Lemma canAffordCard_listed (s : GameState) (player : Player)
  (card : DevelopmentCard) :
  NoDup (map player_id (players s)) ->
  In player (players s) ->
  NoDup (map card_id (getMarketCards s ++ reservedCards player)) ->
  In card (getMarketCards s ++ reservedCards player) ->
  (canAffordCard s (player_id player) (card_id card) = true <->
   fold_right Z.add 0 (map (colorShortfall card player) GEM_COLORS)
   <= gem_get (gems player) gold).
Proof.
  intros Hps Hp Hcs Hc. apply canAffordCard_found.
  - apply (find_unique player_id (players s) player Hps Hp).
  - rewrite findCardForPlayer_listed.
    apply (find_unique card_id _ card Hcs Hc).
Qed.

(** C3. For a player found in the state and a card found in the market or in
    that player's reserved cards, the effective cost of each colour is the
    card's cost minus the player's bonus, floored at 0, and [canAffordCard]
    is true exactly when the player's gold is at least the sum over the five
    colours of [max 0 (max 0 (cost - bonus) - gems)]. *)
Theorem canAffordCard_iff_gold_covers (s : GameState) (pid cid : string)
  (player : Player) (card : DevelopmentCard) :
  getPlayerById s pid = Some player ->
  findCardForPlayer s player cid = Some card ->
  (exists eff, calculateEffectiveCost s pid cid = Some eff /\
     forall color, col_get eff color
       = Z.max 0 (col_get (cost card) color - col_get (bonuses player) color))
  /\ (canAffordCard s pid cid = true <->
      fold_right Z.add 0 (map (colorShortfall card player) GEM_COLORS)
      <= gem_get (gems player) gold).
Proof.
  intros Hp Hc. split.
  - apply (effectiveCost_get s pid cid player card Hp Hc).
  - apply (canAffordCard_found s pid cid player card Hp Hc).
Qed.

Lemma canAffordCard_iff_gold_covers_witness :
  canAffordCard purchaseScenario "p1" "c_e3" = true <->
  fold_right Z.add 0 (map (colorShortfall cardEmerald3 alice) GEM_COLORS)
  <= gem_get (gems alice) gold.
Proof.
  apply (canAffordCard_iff_gold_covers purchaseScenario "p1" "c_e3" alice
           cardEmerald3); reflexivity.
Defined.

Lemma rawShortfall_get (eff : ColoredGemCollection) (player : Player)
  (color : GemColor) :
  col_get (fold_left (shortfallStep eff player) GEM_COLORS emptyColored) color
  = Z.max 0 (col_get eff color - gem_get (gems player) color).
Proof.
  unfold GEM_COLORS, shortfallStep. cbn [fold_left].
  destruct (Z.ltb_spec 0 (col_get eff emerald - gem_get (gems player) emerald));
  destruct (Z.ltb_spec 0 (col_get eff diamond - gem_get (gems player) diamond));
  destruct (Z.ltb_spec 0 (col_get eff sapphire - gem_get (gems player) sapphire));
  destruct (Z.ltb_spec 0 (col_get eff onyx - gem_get (gems player) onyx));
  destruct (Z.ltb_spec 0 (col_get eff ruby - gem_get (gems player) ruby));
  destruct color; cbn in *; lia.
Qed.

(** What the gold loop of [getCardShortfall] keeps and reaches over a list of
    colours. *)
Lemma goldStep_fold (l : list GemColor) (sf : ColoredGemCollection) (g : Z) :
  nonnegColored sf -> 0 <= g ->
  let r := fold_left goldStep l (sf, g) in
  nonnegColored (fst r) /\ 0 <= snd r
  /\ coloredSum (fst r) - snd r = coloredSum sf - g
  /\ (snd r = 0 \/ forall c, In c l -> col_get (fst r) c = 0)
  /\ (forall c, col_get sf c = 0 -> col_get (fst r) c = 0)
  /\ (g = 0 -> snd r = 0).
Proof.
  revert sf g. induction l as [|c l IH]; intros sf g Hsf Hg; cbn.
  - repeat split; auto; try lia. right. intros ? [].
  - set (step := goldStep (sf, g) c).
    assert (Hstep : nonnegColored (fst step) /\ 0 <= snd step
                    /\ coloredSum (fst step) - snd step = coloredSum sf - g
                    /\ (snd step = 0 \/ col_get (fst step) c = 0)
                    /\ (forall c', col_get sf c' = 0 -> col_get (fst step) c' = 0)
                    /\ (g = 0 -> snd step = 0)).
    { subst step. unfold goldStep. cbn [fst snd].
      pose proof (Hsf c) as Hc.
      destruct (Z.ltb_spec 0 g); destruct (Z.ltb_spec 0 (col_get sf c));
        cbn [andb fst snd]; try (repeat split; auto; lia).
      repeat split.
      - intro c'. rewrite col_get_set. destruct (GemColor_eqb c c'); [lia|apply Hsf].
      - lia.
      - rewrite coloredSum_set. lia.
      - rewrite col_get_set.
        replace (GemColor_eqb c c) with true by (destruct c; reflexivity). lia.
      - intros c' Hz. rewrite col_get_set.
        destruct (GemColor_eqb c c') eqn:E; [|exact Hz].
        assert (c = c') by (destruct c, c'; cbn in E; congruence). subst. lia.
      - lia. }
    destruct Hstep as (S1 & S2 & S3 & S4 & S5 & S6).
    destruct step as [sf1 g1] eqn:Es. cbn [fst snd] in *.
    specialize (IH sf1 g1 S1 S2). cbn zeta in IH.
    destruct IH as (I1 & I2 & I3 & I4 & I5 & I6).
    split; [exact I1|]. split; [exact I2|]. split; [lia|].
    split; [|split].
    + destruct I4 as [I4|I4]; [left; exact I4|].
      destruct S4 as [S4|S4]; [left; auto|].
      right. intros c' [E|Hin]; [subst; auto|auto].
    + intros c' Hz. apply I5, S5, Hz.
    + intro Hz. apply I6. apply S6. exact Hz.
Qed.

(** C4, counterexample: for a player id that names no player the shortfall is
    all zero, so it sums to 0, although [canAffordCard] is false. *)
Lemma afford_shortfall_duality_fails_for_unknown_player :
  ~ (forall (s : GameState) (pid cid : string),
       canAffordCard s pid cid = true <->
       coloredSum (getCardShortfall s pid cid) = 0).
Proof.
  intro H. specialize (H purchaseScenario "nobody" "c_e3").
  destruct H as [_ H]. specialize (H eq_refl). discriminate H.
Qed.

(** C4, amended. For a player found in the state who holds no negative amount
    of gold, and a card found in the market or in that player's reserved
    cards, [canAffordCard] is true exactly when the five entries of
    [getCardShortfall] sum to 0. *)
Theorem afford_shortfall_duality (s : GameState) (pid cid : string)
  (player : Player) (card : DevelopmentCard) :
  getPlayerById s pid = Some player ->
  findCardForPlayer s player cid = Some card ->
  0 <= gem_get (gems player) gold ->
  (canAffordCard s pid cid = true <->
   coloredSum (getCardShortfall s pid cid) = 0).
Proof.
  intros Hp Hc Hgold.
  destruct (effectiveCost_get s pid cid player card Hp Hc) as (eff & He & _).
  unfold canAffordCard, getCardShortfall. rewrite Hp, He.
  remember (fold_left (shortfallStep eff player) GEM_COLORS emptyColored)
    as raw eqn:Eraw.
  assert (Hraw : nonnegColored raw).
  { intro c. rewrite Eraw, rawShortfall_get. lia. }
  assert (Hsum : coloredSum raw = goldNeededFor eff player).
  { rewrite goldNeededFor_sum, coloredSum_get, Eraw.
    f_equal. apply map_ext. intro c. apply rawShortfall_get. }
  clear Eraw.
  pose proof (goldStep_fold GEM_COLORS raw _ Hraw Hgold) as G.
  remember (fold_left goldStep GEM_COLORS (raw, gem_get (gems player) gold))
    as r eqn:Er.
  clear Er. destruct G as (G1 & G2 & G3 & G4 & _ & _).
  rewrite Z.leb_le, <- Hsum.
  assert (Hnn : 0 <= coloredSum (fst r)).
  { rewrite coloredSum_get. unfold GEM_COLORS, map, fold_right.
    pose proof (G1 emerald); pose proof (G1 diamond); pose proof (G1 sapphire);
      pose proof (G1 onyx); pose proof (G1 ruby). lia. }
  split; intro H.
  - destruct G4 as [G4|G4]; [lia|].
    rewrite coloredSum_get. unfold GEM_COLORS at 1. unfold map, fold_right.
    rewrite !G4; [lia| | | | |]; unfold GEM_COLORS, In; tauto.
  - lia.
Qed.

Lemma afford_shortfall_duality_witness :
  canAffordCard purchaseScenario "p1" "c_e3" = true <->
  coloredSum (getCardShortfall purchaseScenario "p1" "c_e3") = 0.
Proof.
  apply (afford_shortfall_duality purchaseScenario "p1" "c_e3" alice
           cardEmerald3); [reflexivity | reflexivity | cbn; lia].
Defined.

(* ======================================================================= *)
(** * Winner determination *)
(* ======================================================================= *)

Lemma fold_left_max_spec (r : list Z) (x : Z) :
  (fold_left Z.max r x = x \/ In (fold_left Z.max r x) r)
  /\ x <= fold_left Z.max r x
  /\ forall y, In y r -> y <= fold_left Z.max r x.
Proof.
  revert x. induction r as [|a r IH]; intro x; cbn.
  - repeat split; auto; try lia; intros y [].
  - destruct (IH (Z.max x a)) as (H1 & H2 & H3). repeat split.
    + destruct H1 as [H1|H1]; [|auto].
      rewrite H1. destruct (Z.max_spec x a) as [[_ E]|[_ E]]; rewrite E; auto.
    + lia.
    + intros y [E|Hin]; [subst; lia|auto].
Qed.

Lemma fold_left_min_spec (r : list Z) (x : Z) :
  (fold_left Z.min r x = x \/ In (fold_left Z.min r x) r)
  /\ fold_left Z.min r x <= x
  /\ forall y, In y r -> fold_left Z.min r x <= y.
Proof.
  revert x. induction r as [|a r IH]; intro x; cbn.
  - repeat split; auto; try lia; intros y [].
  - destruct (IH (Z.min x a)) as (H1 & H2 & H3). repeat split.
    + destruct H1 as [H1|H1]; [|auto].
      rewrite H1. destruct (Z.min_spec x a) as [[_ E]|[_ E]]; rewrite E; auto.
    + lia.
    + intros y [E|Hin]; [subst; lia|auto].
Qed.

Lemma Math_max_spec (l : list Z) (m : Z) :
  Math_max l = Some m -> In m l /\ forall x, In x l -> x <= m.
Proof.
  destruct l as [|x r]; cbn; [discriminate|]. intro H. inversion H; subst.
  destruct (fold_left_max_spec r x) as (H1 & H2 & H3). split.
  - destruct H1 as [E|Hin]; [left; auto|right; auto].
  - intros y [E|Hin]; [subst; auto|auto].
Qed.

Lemma Math_min_spec (l : list Z) (m : Z) :
  Math_min l = Some m -> In m l /\ forall x, In x l -> m <= x.
Proof.
  destruct l as [|x r]; cbn; [discriminate|]. intro H. inversion H; subst.
  destruct (fold_left_min_spec r x) as (H1 & H2 & H3). split.
  - destruct H1 as [E|Hin]; [left; auto|right; auto].
  - intros y [E|Hin]; [subst; auto|auto].
Qed.

(** Being equal to the maximum of a key is being above every key. *)
Lemma eqb_max_forallb {A : Type} (key : A -> Z) (l : list A) (m : Z) (p : A) :
  Math_max (map key l) = Some m -> In p l ->
  (key p =? m) = forallb (fun q => key q <=? key p) l.
Proof.
  intros Hm Hp. apply Math_max_spec in Hm. destruct Hm as [Hin Hub].
  apply Bool.eq_iff_eq_true. rewrite Z.eqb_eq, forallb_forall. split.
  - intros E q Hq. apply Z.leb_le. rewrite E. apply Hub, in_map, Hq.
  - intro H. apply in_map_iff in Hin. destruct Hin as (q & Eq & Hq).
    specialize (H q Hq). apply Z.leb_le in H.
    pose proof (Hub (key p) (in_map key l p Hp)). lia.
Qed.

Lemma eqb_min_forallb {A : Type} (key : A -> Z) (l : list A) (m : Z) (p : A) :
  Math_min (map key l) = Some m -> In p l ->
  (key p =? m) = forallb (fun q => key p <=? key q) l.
Proof.
  intros Hm Hp. apply Math_min_spec in Hm. destruct Hm as [Hin Hlb].
  apply Bool.eq_iff_eq_true. rewrite Z.eqb_eq, forallb_forall. split.
  - intros E q Hq. apply Z.leb_le. rewrite E. apply Hlb, in_map, Hq.
  - intro H. apply in_map_iff in Hin. destruct Hin as (q & Eq & Hq).
    specialize (H q Hq). apply Z.leb_le in H.
    pose proof (Hlb (key p) (in_map key l p Hp)). lia.
Qed.

Lemma filter_twice {A : Type} (f g : A -> bool) (l : list A) :
  filter g (filter f l) = filter (fun x => f x && g x) l.
Proof.
  induction l as [|a l IH]; cbn; [reflexivity|].
  destruct (f a); cbn; [destruct (g a); congruence|exact IH].
Qed.

(** The candidates of [determineWinners] are the players of highest
    prestige, and there is at least one. *)
Lemma candidates_hasMaxPrestige (ps : list Player) :
  ps <> [] ->
  exists m, Math_max (map prestigePoints ps) = Some m
    /\ filter (fun p => equalsBound (prestigePoints p) (Some m)) ps
       = filter (hasMaxPrestige ps) ps
    /\ filter (hasMaxPrestige ps) ps <> [].
Proof.
  intro Hne. destruct ps as [|p0 r]; [congruence|].
  destruct (Math_max (map prestigePoints (p0 :: r))) as [m|] eqn:Hm;
    [|discriminate].
  exists m. split; [reflexivity|].
  assert (E : filter (fun p => equalsBound (prestigePoints p) (Some m)) (p0 :: r)
              = filter (hasMaxPrestige (p0 :: r)) (p0 :: r)).
  { apply filter_ext_in. intros p Hp. cbn [equalsBound].
    apply (eqb_max_forallb prestigePoints (p0 :: r) m p Hm Hp). }
  split; [exact E|].
  rewrite <- E. pose proof (Math_max_spec _ _ Hm) as [Hin _].
  apply in_map_iff in Hin. destruct Hin as (q & Eq & Hq).
  intro Hnil.
  assert (Hq' : In q (filter (fun p => equalsBound (prestigePoints p) (Some m))
                        (p0 :: r))).
  { apply filter_In. split; [exact Hq|]. cbn. apply Z.eqb_eq. exact Eq. }
  rewrite Hnil in Hq'. destruct Hq'.
Qed.

Lemma determineWinners_filter (s : GameState) :
  players s <> [] ->
  determineWinners s = map player_id (filter (isWinner (players s)) (players s)).
Proof.
  intro Hne. unfold determineWinners.
  destruct (candidates_hasMaxPrestige _ Hne) as (m & Hm & Hc & Hcne).
  destruct (players s) as [|p0 r] eqn:Eps; [congruence|].
  rewrite Hm, Hc.
  rewrite <- Eps in *. clear Eps p0 r.
  remember (players s) as ps eqn:Eps. clear Eps.
  remember (filter (hasMaxPrestige ps) ps) as cands eqn:Ec.
  assert (Hmin : exists k, Math_min (map cardCount cands) = Some k).
  { destruct cands as [|c cs]; [congruence|]. cbn. eauto. }
  destruct Hmin as (k & Hk).
  assert (Hgen : filter (fun p => equalsBound (cardCount p)
                                    (Math_min (map cardCount cands))) cands
                 = filter (isWinner ps) ps).
  { transitivity
      (filter (fun p => forallb (fun q => cardCount p <=? cardCount q) cands)
         cands).
    - apply filter_ext_in. intros p Hp. rewrite Hk. cbn [equalsBound].
      apply (eqb_min_forallb cardCount cands k p Hk Hp).
    - rewrite Ec. rewrite filter_twice. reflexivity. }
  rewrite <- Hgen.
  destruct cands as [|c [|c' cs]]; [congruence| |reflexivity].
  cbn. rewrite Z.eqb_refl. reflexivity.
Qed.

Lemma isWinner_iff (ps : list Player) (p : Player) :
  isWinner ps p = true <->
  (forall q, In q ps -> prestigePoints q <= prestigePoints p)
  /\ (forall q, In q ps ->
        (forall r, In r ps -> prestigePoints r <= prestigePoints q) ->
        (List.length (purchasedCards p) <= List.length (purchasedCards q))%nat).
Proof.
  unfold isWinner, hasMaxPrestige, cardCount.
  rewrite andb_true_iff, !forallb_forall. split.
  - intros [H1 H2]. split.
    + intros q Hq. apply Z.leb_le, H1, Hq.
    + intros q Hq Hmax. specialize (H2 q).
      rewrite filter_In, forallb_forall in H2.
      assert (H : (Z.of_nat (List.length (purchasedCards p))
                   <=? Z.of_nat (List.length (purchasedCards q))) = true).
      { apply H2. split; [exact Hq|]. intros r Hr. apply Z.leb_le, Hmax, Hr. }
      apply Z.leb_le in H. lia.
  - intros [H1 H2]. split.
    + intros q Hq. apply Z.leb_le, H1, Hq.
    + intros q Hq. apply filter_In in Hq. destruct Hq as [Hq Hmax].
      rewrite forallb_forall in Hmax. apply Z.leb_le.
      assert (List.length (purchasedCards p) <= List.length (purchasedCards q))%nat.
      { apply H2; [exact Hq|]. intros r Hr. apply Z.leb_le, Hmax, Hr. }
      lia.
Qed.

Lemma determineWinners_nonempty (s : GameState) :
  players s <> [] -> determineWinners s <> [].
Proof.
  intro Hne. rewrite determineWinners_filter by exact Hne.
  destruct (candidates_hasMaxPrestige _ Hne) as (m & _ & _ & Hc).
  remember (players s) as ps eqn:Eps. clear Eps.
  remember (filter (hasMaxPrestige ps) ps) as cands eqn:Ec.
  assert (Hmin : exists k, Math_min (map cardCount cands) = Some k).
  { destruct cands as [|c cs]; [congruence|]. cbn. eauto. }
  destruct Hmin as (k & Hk).
  destruct (Math_min_spec _ _ Hk) as [Hin _].
  apply in_map_iff in Hin. destruct Hin as (q & Eq & Hq).
  assert (Hw : In q (filter (isWinner ps) ps)).
  { apply filter_In. rewrite Ec in Hq. apply filter_In in Hq as Hq'.
    destruct Hq' as [Hqps Hmax]. split; [exact Hqps|].
    unfold isWinner. rewrite Hmax. cbn [andb]. rewrite <- Ec.
    rewrite <- (eqb_min_forallb cardCount cands k q Hk).
    - apply Z.eqb_eq, Eq.
    - rewrite Ec. exact Hq. }
  intro Hnil. apply map_eq_nil in Hnil. rewrite Hnil in Hw. destruct Hw.
Qed.

(** C8. For a state with at least one player, [determineWinners] returns the
    ids, in player order, of exactly the players that have the maximum
    prestige and, among those of maximum prestige, the minimum number of
    purchased cards; every player tied on both is in the result. *)
Theorem determineWinners_exact (s : GameState) :
  players s <> [] ->
  determineWinners s = map player_id (filter (isWinner (players s)) (players s))
  /\ forall p, In p (players s) ->
       (isWinner (players s) p = true <->
        (forall q, In q (players s) -> prestigePoints q <= prestigePoints p)
        /\ (forall q, In q (players s) ->
              (forall r, In r (players s) ->
                 prestigePoints r <= prestigePoints q) ->
              (List.length (purchasedCards p)
               <= List.length (purchasedCards q))%nat)).
Proof.
  intro Hne. split.
  - apply determineWinners_filter, Hne.
  - intros p _. apply isWinner_iff.
Qed.

Lemma determineWinners_exact_witness :
  determineWinners tiedTable = ["b"; "c"]
  /\ determineWinners tiedTable
     = map player_id (filter (isWinner (players tiedTable)) (players tiedTable)).
Proof.
  split; [reflexivity|].
  apply (determineWinners_exact tiedTable). cbn. discriminate.
Defined.

(* ======================================================================= *)
(** * Turn advance *)
(* ======================================================================= *)

Lemma checkGameEndTrigger_fields (s : GameState) :
  players (checkGameEndTrigger s) = players s
  /\ currentPlayerIndex (checkGameEndTrigger s) = currentPlayerIndex s
  /\ round (checkGameEndTrigger s) = round s
  /\ bank (checkGameEndTrigger s) = bank s
  /\ nobles (checkGameEndTrigger s) = nobles s
  /\ pendingGemDiscard (checkGameEndTrigger s) = pendingGemDiscard s
  /\ pendingNobleSelection (checkGameEndTrigger s) = pendingNobleSelection s.
Proof.
  unfold checkGameEndTrigger.
  destruct (phase s);
    try destruct (find (fun p => GAME_CONSTANTS.WINNING_POINTS <=? prestigePoints p) (players s));
    cbn; auto 10.
Qed.

Lemma checkGameEndTrigger_phase (s : GameState) :
  isGameInProgress s = true ->
  phase (checkGameEndTrigger s) = playing
  \/ phase (checkGameEndTrigger s) = final_round.
Proof.
  unfold isGameInProgress, checkGameEndTrigger.
  destruct (phase s) eqn:E; try discriminate; intros _.
  - destruct (find (fun p => GAME_CONSTANTS.WINNING_POINTS <=? prestigePoints p) (players s));
      cbn; auto.
  - auto.
Qed.

Lemma advanceTurn_fields (s : GameState) :
  players (advanceTurn s) = players s
  /\ bank (advanceTurn s) = bank s
  /\ nobles (advanceTurn s) = nobles s
  /\ pendingGemDiscard (advanceTurn s) = pendingGemDiscard s
  /\ pendingNobleSelection (advanceTurn s) = pendingNobleSelection s.
Proof.
  unfold advanceTurn, checkGameEnd.
  destruct (phase s) eqn:E; cbn; rewrite ?E;
    try destruct (Z.rem (currentPlayerIndex s + 1)
                    (Z.of_nat (List.length (players s))) =? 0);
    cbn; rewrite ?E; cbn; auto 10.
Qed.

Lemma advanceTurn_index (s : GameState) :
  phase s <> ended ->
  currentPlayerIndex (advanceTurn s)
  = Z.rem (currentPlayerIndex s + 1) (Z.of_nat (List.length (players s))).
Proof.
  intro H. unfold advanceTurn, checkGameEnd.
  destruct (phase s) eqn:E; [| | |congruence]; cbn; rewrite ?E;
    destruct (Z.rem (currentPlayerIndex s + 1)
                (Z.of_nat (List.length (players s))) =? 0);
    cbn; rewrite ?E; reflexivity.
Qed.

(** C7. When [advanceTurn] runs in a phase other than ['ended'] (the only
    case in which it advances; the end-of-turn pipeline of a game in progress
    always calls it so, on the state [checkGameEndTrigger] returns, with the
    same players, index and round), on a state with players and a current
    index that is not negative:
    the new index is (previous + 1) mod the number of players; the round is
    the previous round plus one when the new index is 0 and unchanged
    otherwise; and when the index wraps to 0 in phase ['final_round'] the
    result has phase ['ended'] and its winners are those [determineWinners]
    computes, at least one. *)
Theorem advanceTurn_next_player (s : GameState) :
  phase s <> ended ->
  players s <> [] ->
  0 <= currentPlayerIndex s ->
  currentPlayerIndex (advanceTurn s)
  = (currentPlayerIndex s + 1) mod Z.of_nat (List.length (players s))
  /\ round (advanceTurn s)
     = (if currentPlayerIndex (advanceTurn s) =? 0 then round s + 1 else round s)
  /\ (currentPlayerIndex (advanceTurn s) = 0 -> phase s = final_round ->
      phase (advanceTurn s) = ended
      /\ winners (advanceTurn s) = determineWinners s
      /\ winners (advanceTurn s) <> [])
  /\ (isGameInProgress s = true ->
      checkGameEndAndAdvance s = advanceTurn (checkGameEndTrigger s)
      /\ phase (checkGameEndTrigger s) <> ended
      /\ players (checkGameEndTrigger s) = players s
      /\ currentPlayerIndex (checkGameEndTrigger s) = currentPlayerIndex s
      /\ round (checkGameEndTrigger s) = round s).
Proof.
  intros Hphase Hne Hidx.
  assert (Hlen : 0 < Z.of_nat (List.length (players s))).
  { destruct (players s); [congruence|]. cbn [List.length]. lia. }
  rewrite advanceTurn_index by exact Hphase.
  rewrite Z.rem_mod_nonneg by lia.
  split; [reflexivity|].
  split; [|split].
  - unfold advanceTurn, checkGameEnd.
    rewrite Z.rem_mod_nonneg by lia.
    destruct (phase s) eqn:E; [| | |congruence]; cbn; rewrite ?E;
      destruct ((currentPlayerIndex s + 1)
                mod Z.of_nat (List.length (players s)) =? 0);
      cbn; rewrite ?E; reflexivity.
  - intros Hz Hf.
    pose proof (determineWinners_nonempty s Hne) as Hw.
    unfold advanceTurn, checkGameEnd.
    rewrite Z.rem_mod_nonneg by lia.
    rewrite Hf. cbn. rewrite Hz. cbn. rewrite Hf. cbn.
    repeat split; auto.
  - intro Hprog. split; [reflexivity|].
    destruct (checkGameEndTrigger_fields s) as (T1 & T2 & T3 & _).
    split; [|auto].
    destruct (checkGameEndTrigger_phase s Hprog) as [E|E]; rewrite E; discriminate.
Qed.

Lemma advanceTurn_next_player_witness :
  currentPlayerIndex (advanceTurn tiedTable) = 0
  /\ round (advanceTurn tiedTable) = 8
  /\ phase (advanceTurn tiedTable) = ended
  /\ winners (advanceTurn tiedTable) = ["b"; "c"]
  /\ currentPlayerIndex (advanceTurn tiedTable)
     = (currentPlayerIndex tiedTable + 1)
       mod Z.of_nat (List.length (players tiedTable)).
Proof.
  repeat (split; [reflexivity|]).
  apply (advanceTurn_next_player tiedTable);
    [discriminate | discriminate | cbn; lia].
Defined.

(* ======================================================================= *)
(** * Game creation *)
(* ======================================================================= *)

(** C9. [createGame] throws exactly when the number of player infos differs
    from [config.playerCount]; otherwise it returns a state whose bank holds
    4, 5 or 7 of each coloured gem for 2, 3 or 4 players and 5 gold, in phase
    ['playing'], round 1, current player index 0, with neither
    [pendingGemDiscard] nor [pendingNobleSelection] set. *)
Theorem createGame_initial_state (config : GameConfig)
  (playerInfos : list (string * string)) (rand : RandomSource)
  (freshId : string) :
  ((exists e, createGame config playerInfos rand freshId = Throw e) <->
   Z.of_nat (List.length playerInfos) <> playerCount_value (playerCount config))
  /\ (Z.of_nat (List.length playerInfos) = playerCount_value (playerCount config) ->
      exists s, createGame config playerInfos rand freshId = Ret s
        /\ bank s = match playerCount config with
                    | Two => mkGems 4 4 4 4 4 5
                    | Three => mkGems 5 5 5 5 5 5
                    | Four => mkGems 7 7 7 7 7 5
                    end
        /\ phase s = playing
        /\ round s = 1
        /\ currentPlayerIndex s = 0
        /\ pendingGemDiscard s = None
        /\ pendingNobleSelection s = None).
Proof.
  unfold createGame.
  destruct (Z.eqb_spec (Z.of_nat (List.length playerInfos))
              (playerCount_value (playerCount config))) as [E|E]; cbn [negb].
  - split.
    + split; [intros [e He]; discriminate He | intro H; congruence].
    + intros _. eexists. split; [reflexivity|]. cbn [bank phase round
        currentPlayerIndex pendingGemDiscard pendingNobleSelection].
      split; [destruct (playerCount config); reflexivity|]. auto.
  - split.
    + split; [intros _; exact E | intros _; eexists; reflexivity].
    + intro H. congruence.
Qed.

Lemma createGame_initial_state_witness :
  exists s,
    createGame (mkConfig Two) [("p1", "Alice"); ("p2", "Bob")] firstIndex "game_1"
    = Ret s
    /\ bank s = mkGems 4 4 4 4 4 5
    /\ phase s = playing /\ round s = 1 /\ currentPlayerIndex s = 0
    /\ pendingGemDiscard s = None /\ pendingNobleSelection s = None.
Proof.
  apply (createGame_initial_state (mkConfig Two)
           [("p1", "Alice"); ("p2", "Bob")] firstIndex "game_1").
  reflexivity.
Defined.

(* ======================================================================= *)
(** * Token conservation *)
(* ======================================================================= *)

Lemma playersGems_withPlayer (g : GemType) (pid : string)
  (f : Player -> Player) (ps : list Player) (p : Player) :
  find (fun q => player_id q =? pid)%string ps = Some p ->
  playersGems g (withPlayer pid f ps)
  = playersGems g ps - gem_get (gems p) g + gem_get (gems (f p)) g.
Proof.
  unfold playersGems. induction ps as [|q ps IH]; cbn; [discriminate|].
  destruct (player_id q =? pid)%string.
  - intro H. inversion H; subst. cbn. lia.
  - intro H. cbn. rewrite (IH H). lia.
Qed.

Lemma gemTotal_mutatePlayer (g : GemType) (pid : string) (f : Player -> Player)
  (s : GameState) (p : Player) :
  getPlayerById s pid = Some p ->
  gemTotal g (mutatePlayer pid f s)
  = gemTotal g s - gem_get (gems p) g + gem_get (gems (f p)) g.
Proof.
  intro E. unfold gemTotal.
  change (players (mutatePlayer pid f s)) with (withPlayer pid f (players s)).
  change (bank (mutatePlayer pid f s)) with (bank s).
  rewrite (playersGems_withPlayer g pid f (players s) p E). lia.
Qed.

Lemma gemTotal_set_bank (g : GemType) (b : GemCollection) (s : GameState) :
  gemTotal g (set_bank b s) = gemTotal g s - gem_get (bank s) g + gem_get b g.
Proof. unfold gemTotal. cbn [bank players set_bank]. lia. Qed.

(** The steps of the handlers, for a fixed acting player. *)
Section Conservation.

Variable pid : string.

Lemma conserving_refl (s : GameState) : conserving pid s s.
Proof. intro H. auto. Qed.

Lemma conserving_trans (s1 s2 s3 : GameState) :
  conserving pid s1 s2 -> conserving pid s2 s3 -> conserving pid s1 s3.
Proof.
  intros H12 H23 H1. destruct (H12 H1) as [H2 E12].
  destruct (H23 H2) as [H3 E23]. split; [exact H3|].
  intro g. rewrite E23. apply E12.
Qed.

(** A step that leaves the bank and the players alone. *)
Lemma conserving_same (s s' : GameState) :
  players s' = players s -> bank s' = bank s -> conserving pid s s'.
Proof.
  intros Hp Hb H. unfold getPlayerById, gemTotal in *. rewrite Hp, Hb. auto.
Qed.

(** A mutation of the player that leaves the id and the gems alone. *)
Lemma conserving_mutatePlayer (f : Player -> Player)
  (s : GameState) :
  (forall p, player_id (f p) = player_id p) ->
  (forall p, gems (f p) = gems p) ->
  conserving pid s (mutatePlayer pid f s).
Proof.
  intros Hid Hg H. rewrite getPlayerById_mutatePlayer by exact Hid.
  destruct (getPlayerById s pid) as [p|] eqn:E; [|congruence].
  split; [cbn; discriminate|]. intro g.
  rewrite (gemTotal_mutatePlayer g pid f s p E), Hg. lia.
Qed.

Lemma conserving_bankToPlayer (gem : GemType) (n : Z)
  (s : GameState) : conserving pid s (bankToPlayer pid gem n s).
Proof.
  intro H. unfold bankToPlayer.
  rewrite getPlayerById_mutatePlayer by reflexivity.
  replace (getPlayerById (set_bank (gem_add (bank s) gem (- n)) s) pid)
    with (getPlayerById s pid) by reflexivity.
  destruct (getPlayerById s pid) as [p|] eqn:E; [|congruence].
  split; [cbn; discriminate|]. intro g.
  rewrite (gemTotal_mutatePlayer g pid _ (set_bank (gem_add (bank s) gem (- n)) s) p)
    by exact E.
  rewrite gemTotal_set_bank. cbn [gems set_gems].
  rewrite !gem_get_add. destruct (GemType_eqb gem g); lia.
Qed.

Lemma conserving_playerToBank (gem : GemType) (n : Z)
  (s : GameState) : conserving pid s (playerToBank pid gem n s).
Proof.
  intro H. unfold playerToBank.
  replace (getPlayerById (set_bank _ _) pid)
    with (getPlayerById
            (mutatePlayer pid (fun p => set_gems (gem_add (gems p) gem (- n)) p) s)
            pid) by reflexivity.
  rewrite getPlayerById_mutatePlayer by reflexivity.
  destruct (getPlayerById s pid) as [p|] eqn:E; [|congruence].
  split; [cbn; discriminate|]. intro g.
  rewrite gemTotal_set_bank.
  change (bank (mutatePlayer pid
                  (fun p => set_gems (gem_add (gems p) gem (- n)) p) s))
    with (bank s).
  rewrite (gemTotal_mutatePlayer g pid _ s p) by exact E.
  cbn [gems set_gems].
  rewrite !gem_get_add. destruct (GemType_eqb gem g); lia.
Qed.

Lemma conserving_fold {A : Type}
  (step : GameState -> A -> GameState) (l : list A) (s : GameState) :
  (forall st a, conserving pid st (step st a)) ->
  conserving pid s (fold_left step l s).
Proof.
  intro Hstep. revert s. induction l as [|a l IH]; intro s; cbn.
  - apply conserving_refl.
  - eapply conserving_trans; [apply Hstep|apply IH].
Qed.

End Conservation.

Create HintDb conserve.

#[export] Hint Resolve conserving_refl conserving_bankToPlayer
  conserving_playerToBank : conserve.

Lemma refillMarketSlot_same (s : GameState) (tier : CardTier) :
  players (refillMarketSlot s tier) = players s
  /\ bank (refillMarketSlot s tier) = bank s
  /\ nobles (refillMarketSlot s tier) = nobles s
  /\ currentPlayerIndex (refillMarketSlot s tier) = currentPlayerIndex s
  /\ round (refillMarketSlot s tier) = round s
  /\ pendingNobleSelection (refillMarketSlot s tier) = pendingNobleSelection s
  /\ phase (refillMarketSlot s tier) = phase s.
Proof.
  unfold refillMarketSlot.
  destruct (getDeckByTier s tier);
    [|destruct (findIndex isNull (getMarketByTier s tier))];
    destruct tier; cbn; auto 10.
Qed.

Lemma removeCardFromMarket_same (s : GameState) (cardId : string) :
  players (snd (removeCardFromMarket s cardId)) = players s
  /\ bank (snd (removeCardFromMarket s cardId)) = bank s
  /\ nobles (snd (removeCardFromMarket s cardId)) = nobles s
  /\ currentPlayerIndex (snd (removeCardFromMarket s cardId)) = currentPlayerIndex s
  /\ round (snd (removeCardFromMarket s cardId)) = round s
  /\ pendingNobleSelection (snd (removeCardFromMarket s cardId))
     = pendingNobleSelection s
  /\ phase (snd (removeCardFromMarket s cardId)) = phase s.
Proof.
  unfold removeCardFromMarket.
  destruct (removeFromSlots cardId (market_tier1 (market s))) as [[c1 l1]|];
    [cbn; auto 10|].
  destruct (removeFromSlots cardId (market_tier2 (market s))) as [[c2 l2]|];
    [cbn; auto 10|].
  destruct (removeFromSlots cardId (market_tier3 (market s))) as [[c3 l3]|];
    cbn; auto 10.
Qed.

Lemma removeFromSlots_find (cardId : string)
  (slots : list (option DevelopmentCard)) :
  option_map fst (removeFromSlots cardId slots) = findInSlots cardId slots.
Proof.
  unfold removeFromSlots, findInSlots.
  destruct (findIndex (slotHasId cardId) slots) as [i|] eqn:E.
  - destruct (findIndex_find _ _ _ E) as (x & Hn & Hf & Hx).
    rewrite Hn, Hf. destruct x as [c|]; [reflexivity|discriminate Hx].
  - apply findIndex_None in E. rewrite E. reflexivity.
Qed.

Lemma removeCardFromMarket_find (s : GameState) (cardId : string) :
  fst (removeCardFromMarket s cardId) = findCardInMarket s cardId.
Proof.
  unfold removeCardFromMarket, findCardInMarket.
  rewrite <- !removeFromSlots_find.
  destruct (removeFromSlots cardId (market_tier1 (market s))) as [[c1 l1]|];
    [reflexivity|].
  destruct (removeFromSlots cardId (market_tier2 (market s))) as [[c2 l2]|];
    [reflexivity|].
  destruct (removeFromSlots cardId (market_tier3 (market s))) as [[c3 l3]|];
    reflexivity.
Qed.

Lemma paymentStep_gold (eff : ColoredGemCollection) (player : Player)
  (l : list GemColor) (acc : ColoredGemCollection * Z) :
  snd (fold_left (paymentStep eff player) l acc)
  = snd acc
    + fold_right Z.add 0
        (map (fun c => Z.max 0 (col_get eff c - gem_get (gems player) c)) l).
Proof.
  revert acc. induction l as [|c l IH]; intro acc; cbn [fold_left map fold_right];
    [lia|].
  rewrite IH. unfold paymentStep.
  destruct (Z.leb_spec (col_get eff c) (gem_get (gems player) c));
    cbn [snd]; lia.
Qed.

Lemma canAffordCard_payment (s : GameState) (pid cid : string) :
  canAffordCard s pid cid = true ->
  exists payment, calculatePayment s pid cid = Some payment.
Proof.
  unfold canAffordCard, calculatePayment.
  destruct (getPlayerById s pid) as [player|]; [|discriminate].
  destruct (calculateEffectiveCost s pid cid) as [eff|]; [|discriminate].
  rewrite goldNeededFor_sum, paymentStep_gold. cbn [snd]. intro H.
  apply Z.leb_le in H.
  destruct (Z.ltb_spec (gem_get (gems player) gold)
              (0 + fold_right Z.add 0
                     (map (fun c => Z.max 0 (col_get eff c - gem_get (gems player) c))
                        GEM_COLORS))); [lia|eauto].
Qed.

Lemma gemTotal_same (s s' : GameState) :
  bank s' = bank s -> map gems (players s') = map gems (players s) ->
  forall g, gemTotal g s' = gemTotal g s.
Proof.
  intros Hb Hp g. unfold gemTotal, playersGems. rewrite Hb. f_equal.
  rewrite <- !(map_map gems (fun c => gem_get c g)), Hp. reflexivity.
Qed.

Lemma checkGameEndAndAdvance_same (s : GameState) :
  players (checkGameEndAndAdvance s) = players s
  /\ bank (checkGameEndAndAdvance s) = bank s
  /\ nobles (checkGameEndAndAdvance s) = nobles s
  /\ pendingGemDiscard (checkGameEndAndAdvance s) = pendingGemDiscard s
  /\ pendingNobleSelection (checkGameEndAndAdvance s) = pendingNobleSelection s.
Proof.
  unfold checkGameEndAndAdvance.
  destruct (advanceTurn_fields (checkGameEndTrigger s)) as (A1 & A2 & A3 & A4 & A5).
  destruct (checkGameEndTrigger_fields s) as (T1 & _ & _ & T2 & T3 & T4 & T5).
  rewrite A1, A2, A3, A4, A5. auto.
Qed.

(** The noble a unique eligible id leads to: the first noble of the pool
    with that id. *)
Lemma eligible_noble_found (s : GameState) (player : Player) (nobleId : string) :
  In nobleId (map noble_id (filter (meetsRequirements player) (nobles s))) ->
  exists i noble,
    findIndex (fun n => noble_id n =? nobleId)%string (nobles s) = Some i
    /\ nth_error (nobles s) i = Some noble
    /\ noble_id noble = nobleId.
Proof.
  intro Hin. apply in_map_iff in Hin. destruct Hin as (n & Hid & Hn).
  apply filter_In in Hn. destruct Hn as [Hn _].
  destruct (find (fun n => noble_id n =? nobleId)%string (nobles s)) as [n'|] eqn:F.
  - destruct (find_findIndex _ _ _ F) as (i & Hi & Hnth).
    exists i, n'. apply find_some in F. destruct F as [_ F].
    apply String.eqb_eq in F. auto.
  - eapply find_none in F; [|exact Hn]. cbn in F.
    apply String.eqb_neq in F. congruence.
Qed.

(** The three outcomes of the noble check, for a player of the state. *)
Lemma checkNobleAndAdvance_cases (s : GameState) (pid : string) (player : Player) :
  getPlayerById s pid = Some player ->
  match filter (meetsRequirements player) (nobles s) with
  | [] => checkNobleAndAdvance s pid = Ret (checkGameEndAndAdvance s)
  | [n] =>
    exists i noble,
      findIndex (fun x => noble_id x =? noble_id n)%string (nobles s) = Some i
      /\ nth_error (nobles s) i = Some noble
      /\ noble_id noble = noble_id n
      /\ checkNobleAndAdvance s pid
         = Ret (checkGameEndAndAdvance
                  (mutatePlayer pid (receiveNoble noble)
                     (set_nobles (removeAt i (nobles s)) s)))
  | _ :: _ :: _ =>
    checkNobleAndAdvance s pid = Ret (set_pendingNobleSelection (Some pid) s)
  end.
Proof.
  intro Hp. unfold checkNobleAndAdvance, getEligibleNobles. rewrite Hp.
  destruct (filter (meetsRequirements player) (nobles s)) as [|n [|n2 r]] eqn:F;
    cbn [map]; [reflexivity| |reflexivity].
  destruct (eligible_noble_found s player (noble_id n)) as (i & noble & Hi & Hn & Hid).
  { rewrite F. cbn. auto. }
  exists i, noble. rewrite Hi. cbn [spliceOne fst snd]. rewrite Hn.
  change (getPlayerById (set_nobles (removeAt i (nobles s)) s) pid)
    with (getPlayerById s pid).
  rewrite Hp. auto.
Qed.

Lemma checkNobleAndAdvance_total (s : GameState) (pid : string) :
  getPlayerById s pid <> None ->
  exists s', checkNobleAndAdvance s pid = Ret s'
    /\ bank s' = bank s
    /\ map gems (players s') = map gems (players s).
Proof.
  intro H. destruct (getPlayerById s pid) as [player|] eqn:Hp; [|congruence].
  pose proof (checkNobleAndAdvance_cases s pid player Hp) as C.
  destruct (filter (meetsRequirements player) (nobles s)) as [|n [|n2 r]].
  - eexists. split; [exact C|].
    destruct (checkGameEndAndAdvance_same s) as (E1 & E2 & _).
    rewrite E1, E2. auto.
  - destruct C as (i & noble & _ & _ & _ & C).
    eexists. split; [exact C|].
    match goal with |- context [checkGameEndAndAdvance ?t] =>
      destruct (checkGameEndAndAdvance_same t) as (E1 & E2 & _) end.
    rewrite E1, E2. split; [reflexivity|].
    change (players (mutatePlayer pid (receiveNoble noble)
                       (set_nobles (removeAt i (nobles s)) s)))
      with (withPlayer pid (receiveNoble noble) (players s)).
    apply map_withPlayer. reflexivity.
  - eexists. split; [exact C|]. auto.
Qed.

Lemma finishTurn_total (s : GameState) (pid : string) :
  getPlayerById s pid <> None ->
  exists s', finishTurn s pid = Ret s'
    /\ bank s' = bank s
    /\ map gems (players s') = map gems (players s).
Proof.
  intro H. unfold finishTurn.
  destruct (getPlayerById s pid) as [player|] eqn:Hp; [|congruence].
  destruct (GAME_CONSTANTS.MAX_GEMS <? playerTotalGems player).
  - eexists. split; [reflexivity|]. auto.
  - apply checkNobleAndAdvance_total. congruence.
Qed.

(** An effect that conserves, followed by the end-of-turn pipeline. *)
Lemma effect_then_finishTurn (s : GameState) (pid : string) (s1 : GameState) :
  getPlayerById s pid <> None ->
  conserving pid s s1 ->
  exists s', finishTurn s1 pid = Ret s' /\ forall g, gemTotal g s' = gemTotal g s.
Proof.
  intros Hp Hc. destruct (Hc Hp) as [Hp1 Htot].
  destruct (finishTurn_total s1 pid Hp1) as (s' & Hf & Hb & Hg).
  exists s'. split; [exact Hf|]. intro g.
  rewrite (gemTotal_same s1 s' Hb Hg). apply Htot.
Qed.

Lemma takeThreeGemsEffect_conserving (s : GameState) (pid : string)
  (takenGems : list GemType) :
  getPlayerById s pid <> None ->
  exists s1, takeThreeGemsEffect s pid takenGems = Ret s1 /\ conserving pid s s1.
Proof.
  intro H. unfold takeThreeGemsEffect, cloneGameState.
  destruct (getPlayerById s pid); [|congruence].
  eexists. split; [reflexivity|].
  apply conserving_fold. auto with conserve.
Qed.

Lemma takeTwoGemsEffect_conserving (s : GameState) (pid : string) (gem : GemType) :
  getPlayerById s pid <> None ->
  exists s1, takeTwoGemsEffect s pid gem = Ret s1 /\ conserving pid s s1.
Proof.
  intro H. unfold takeTwoGemsEffect, cloneGameState.
  destruct (getPlayerById s pid); [|congruence].
  eexists. split; [reflexivity|]. auto with conserve.
Qed.

Lemma takeReservedCard_same (s : GameState) (cardId : option string)
  (tier : CardTier) :
  players (snd (takeReservedCard s cardId tier)) = players s
  /\ bank (snd (takeReservedCard s cardId tier)) = bank s
  /\ nobles (snd (takeReservedCard s cardId tier)) = nobles s
  /\ currentPlayerIndex (snd (takeReservedCard s cardId tier)) = currentPlayerIndex s
  /\ round (snd (takeReservedCard s cardId tier)) = round s
  /\ pendingNobleSelection (snd (takeReservedCard s cardId tier))
     = pendingNobleSelection s
  /\ phase (snd (takeReservedCard s cardId tier)) = phase s.
Proof.
  unfold takeReservedCard. destruct cardId as [cid|].
  - pose proof (removeCardFromMarket_same s cid) as R.
    destruct (removeCardFromMarket s cid) as [[card|] st]; cbn [snd] in *;
      [|exact R].
    destruct R as (R1 & R2 & R3 & R4 & R5 & R6 & R7).
    destruct (refillMarketSlot_same st (card_tier card))
      as (F1 & F2 & F3 & F4 & F5 & F6 & F7).
    rewrite F1, F2, F3, F4, F5, F6, F7. auto 10.
  - destruct (getDeckByTier s tier); [cbn; auto 10|].
    destruct tier; cbn; auto 10.
Qed.

Lemma reserveCardEffect_conserving (s : GameState) (pid : string)
  (cardId : option string) (tier : CardTier) :
  getPlayerById s pid <> None ->
  exists s1, reserveCardEffect s pid cardId tier = Ret s1 /\ conserving pid s s1.
Proof.
  intro H. unfold reserveCardEffect, cloneGameState.
  destruct (getPlayerById s pid); [|congruence].
  eexists. split; [reflexivity|].
  destruct (takeReservedCard_same s cardId tier) as (T1 & T2 & _).
  set (taken := takeReservedCard s cardId tier) in *.
  set (st := match fst taken with
             | Some card =>
               mutatePlayer pid
                 (fun p => set_reservedCards (reservedCards p ++ [card]) p)
                 (snd taken)
             | None => snd taken
             end).
  assert (Hst : conserving pid s st).
  { eapply conserving_trans; [apply (conserving_same pid s (snd taken) T1 T2)|].
    subst st. destruct (fst taken).
    - apply conserving_mutatePlayer; reflexivity.
    - apply conserving_refl. }
  destruct (0 <? gem_get (bank st) gold); [|exact Hst].
  eapply conserving_trans; [exact Hst|apply conserving_bankToPlayer].
Qed.

Lemma payGems_conserving (pid : string) (payment : Payment) (s : GameState) :
  conserving pid s (payGems pid payment s).
Proof.
  unfold payGems.
  eapply conserving_trans; [|apply conserving_playerToBank].
  apply conserving_fold. auto with conserve.
Qed.

Lemma takePurchasedCard_conserving (s : GameState) (pid cid : string)
  (player : Player) (card : DevelopmentCard) :
  findCardForPlayer s player cid = Some card ->
  exists c fromReserved st,
    takePurchasedCard s pid cid player = Some (c, fromReserved, st)
    /\ conserving pid s st.
Proof.
  unfold findCardForPlayer, takePurchasedCard. intro H.
  pose proof (removeCardFromMarket_find s cid) as Hf.
  destruct (removeCardFromMarket_same s cid) as (R1 & R2 & _).
  destruct (removeCardFromMarket s cid) as [[c|] st]; cbn [fst snd] in *.
  - exists c, false, st. split; [reflexivity|].
    apply conserving_same; assumption.
  - rewrite <- Hf in H. cbn [orElse] in H.
    destruct (find_findIndex _ _ _ H) as (i & Hi & Hn).
    rewrite Hi, Hn. eexists _, _, _. split; [reflexivity|].
    eapply conserving_trans; [apply (conserving_same pid s st R1 R2)|].
    apply conserving_mutatePlayer; reflexivity.
Qed.

Lemma purchaseCardEffect_conserving (s : GameState) (pid cid : string)
  (player : Player) (card : DevelopmentCard) :
  getPlayerById s pid = Some player ->
  findCardForPlayer s player cid = Some card ->
  canAffordCard s pid cid = true ->
  exists s1, purchaseCardEffect s pid cid = Ret s1 /\ conserving pid s s1.
Proof.
  intros Hp Hc Ha. unfold purchaseCardEffect, cloneGameState.
  destruct (canAffordCard_payment s pid cid Ha) as (payment & Hpay).
  rewrite Hpay, Hp.
  destruct (takePurchasedCard_conserving s pid cid player card Hc)
    as (c & fromReserved & st & Ht & Hst).
  rewrite Ht.
  eexists. split; [reflexivity|].
  assert (Hrecv : conserving pid s
                    (mutatePlayer pid (receiveCard c) (payGems pid payment st))).
  { eapply conserving_trans; [exact Hst|].
    eapply conserving_trans; [apply payGems_conserving|].
    apply conserving_mutatePlayer; reflexivity. }
  destruct fromReserved; [exact Hrecv|].
  eapply conserving_trans; [exact Hrecv|].
  match goal with |- conserving _ ?a (refillMarketSlot ?a ?t) =>
    destruct (refillMarketSlot_same a t) as (F1 & F2 & _) end.
  apply conserving_same; assumption.
Qed.

Lemma discardEntries_conserving (pid : string)
  (entries : list (GemType * option Z)) (s : GameState) :
  getPlayerById s pid <> None ->
  exists s1, discardEntries pid entries s = Ret s1 /\ conserving pid s s1.
Proof.
  revert s. induction entries as [|[gem [count|]] rest IH]; intros s H;
    cbn [discardEntries].
  - exists s. split; [reflexivity|apply conserving_refl].
  - destruct (count <=? 0); [apply IH, H|].
    pose proof (conserving_playerToBank pid gem count s) as Hstep.
    destruct (Hstep H) as [H1 _].
    destruct (getPlayerById s pid) eqn:E; [|congruence].
    destruct (IH _ H1) as (s1 & Hs1 & Hc).
    exists s1. split; [exact Hs1|].
    eapply conserving_trans; [exact Hstep|exact Hc].
  - apply IH, H.
Qed.

Lemma discardGemsEffect_conserving (s : GameState) (pid : string)
  (discarded : list (GemType * option Z)) :
  getPlayerById s pid <> None ->
  exists s1, discardGemsEffect s pid discarded = Ret s1 /\ conserving pid s s1.
Proof.
  intro H. unfold discardGemsEffect, cloneGameState.
  destruct (discardEntries_conserving pid discarded s H) as (s1 & Hs1 & Hc).
  rewrite Hs1. cbn [bind]. eexists. split; [reflexivity|].
  eapply conserving_trans; [exact Hc|]. apply conserving_same; reflexivity.
Qed.

(** What an accepted action tells about the state. *)
Lemma validateAction_main_turn (s : GameState) (a : PlayerAction) :
  isMainAction a = true ->
  validateAction s a = Ret Valid ->
  isGameInProgress s = true /\ isPlayersTurn s (action_playerId a) = Ret true.
Proof.
  intro Hmain. unfold validateAction.
  destruct (isGameInProgress s); cbn [negb]; [|discriminate].
  destruct a as [pid gs|pid gem|pid cid tier|pid cid gu|pid nid|pid es];
    try discriminate Hmain; cbn [action_playerId];
    unfold validateTakeThreeGems, validateTakeTwoGems, validateReserveCard,
      validatePurchaseCard;
    destruct (isPlayersTurn s pid) as [[|]|e]; cbn [bind negb];
    intro H; try discriminate H; auto.
Qed.

Lemma validatePurchaseCard_inv (s : GameState) (pid cid : string) :
  validatePurchaseCard s pid cid = Ret Valid ->
  exists player card,
    getPlayerById s pid = Some player
    /\ findCardForPlayer s player cid = Some card
    /\ canAffordCard s pid cid = true.
Proof.
  unfold validatePurchaseCard.
  destruct (isPlayersTurn s pid) as [[|]|e]; cbn [bind negb]; try discriminate.
  destruct (getPlayerById s pid) as [player|]; [|discriminate].
  destruct (findCardForPlayer s player cid) as [card|] eqn:Hc; [|discriminate].
  destruct (canAffordCard s pid cid); cbn [negb]; [|discriminate].
  intros _. eauto.
Qed.

Lemma validateSelectNoble_inv (s : GameState) (pid nid : string) :
  validateSelectNoble s pid nid = Ret Valid ->
  exists player noble,
    getPlayerById s pid = Some player
    /\ find (fun n => noble_id n =? nid)%string (nobles s) = Some noble
    /\ meetsRequirements player noble = true.
Proof.
  unfold validateSelectNoble.
  destruct (getPlayerById s pid) as [player|]; [|discriminate].
  destruct (find (fun n => noble_id n =? nid)%string (nobles s)) as [noble|];
    [|discriminate].
  destruct (existsb _ GEM_COLORS) eqn:E; [discriminate|].
  intros _. exists player, noble. repeat split.
  unfold meetsRequirements. apply forallb_forall. intros c Hc.
  destruct (col_get (bonuses player) c <? col_get (requirements noble) c) eqn:L;
    [|reflexivity].
  assert (X : existsb (fun color => col_get (bonuses player) color
                                    <? col_get (requirements noble) color)
                GEM_COLORS = true)
    by (apply existsb_exists; eauto).
  congruence.
Qed.

Lemma validateDiscardGems_inv (s : GameState) (pid : string)
  (discarded : list (GemType * option Z)) :
  validateDiscardGems s pid discarded = Ret Valid ->
  exists player, getPlayerById s pid = Some player
    /\ GAME_CONSTANTS.MAX_GEMS < playerTotalGems player.
Proof.
  unfold validateDiscardGems, getTotalGems.
  destruct (getPlayerById s pid) as [player|]; [|discriminate].
  destruct (Z.leb_spec (playerTotalGems player) GAME_CONSTANTS.MAX_GEMS); [discriminate|].
  intros _. eauto.
Qed.

(** The award of [applySelectNoble] for an accepted selection. *)
Lemma applySelectNoble_accepted (s : GameState) (pid nid : string)
  (player : Player) (noble : Noble) :
  getPlayerById s pid = Some player ->
  find (fun n => noble_id n =? nid)%string (nobles s) = Some noble ->
  exists i,
    findIndex (fun n => noble_id n =? nid)%string (nobles s) = Some i
    /\ nth_error (nobles s) i = Some noble
    /\ applySelectNoble s pid nid
       = Ret (checkGameEndAndAdvance
                (set_pendingNobleSelection None
                   (mutatePlayer pid (receiveNoble noble)
                      (set_nobles (removeAt i (nobles s)) s)))).
Proof.
  intros Hp Hn. destruct (find_findIndex _ _ _ Hn) as (i & Hi & Hnth).
  exists i. repeat split; auto.
  unfold applySelectNoble, cloneGameState. rewrite Hi.
  cbn [spliceOne fst snd]. rewrite Hnth.
  change (getPlayerById (set_nobles (removeAt i (nobles s)) s) pid)
    with (getPlayerById s pid).
  rewrite Hp. reflexivity.
Qed.

(** C1. For every state and every action [validateAction] accepts,
    [applyAction] returns a state, and in it the bank's count plus the counts
    held by all players is, for each of the six gem types, what it was before
    the action: whatever leaves the bank or a player arrives on the other
    side in the same transition. *)
Theorem applyAction_conserves_tokens (s : GameState) (a : PlayerAction) :
  validateAction s a = Ret Valid ->
  exists s', applyAction s a = Ret s'
    /\ forall g, gemTotal g s' = gemTotal g s.
Proof.
  intro Hv. unfold applyAction. rewrite Hv. cbn [bind].
  destruct (isMainAction a) eqn:Hmain.
  - destruct (validateAction_main_turn s a Hmain Hv) as [_ Hturn].
    destruct (isPlayersTurn_player s _ Hturn) as (p & Hp).
    assert (Hsome : getPlayerById s (action_playerId a) <> None) by congruence.
    destruct a as [pid gs|pid gem|pid cid tier|pid cid gu|pid nid|pid es];
      try discriminate Hmain; cbn [action_playerId applyActionUnsafe] in *.
    + destruct (takeThreeGemsEffect_conserving s pid gs Hsome) as (s1 & E & C).
      unfold applyTakeThreeGems. rewrite E. cbn [bind].
      apply (effect_then_finishTurn s pid s1 Hsome C).
    + destruct (takeTwoGemsEffect_conserving s pid gem Hsome) as (s1 & E & C).
      unfold applyTakeTwoGems. rewrite E. cbn [bind].
      apply (effect_then_finishTurn s pid s1 Hsome C).
    + destruct (reserveCardEffect_conserving s pid cid tier Hsome) as (s1 & E & C).
      unfold applyReserveCard. rewrite E. cbn [bind].
      apply (effect_then_finishTurn s pid s1 Hsome C).
    + unfold validateAction in Hv.
      destruct (isGameInProgress s); cbn [negb] in Hv; [|discriminate].
      destruct (validatePurchaseCard_inv s pid cid Hv)
        as (player & card & Hpl & Hc & Ha).
      destruct (purchaseCardEffect_conserving s pid cid player card Hpl Hc Ha) as (s1 & E & C).
      unfold applyPurchaseCard. rewrite E. cbn [bind].
      apply (effect_then_finishTurn s pid s1 Hsome C).
  - unfold validateAction in Hv.
    destruct (isGameInProgress s); cbn [negb] in Hv; [|discriminate].
    destruct a as [pid gs|pid gem|pid cid tier|pid cid gu|pid nid|pid es];
      try discriminate Hmain; cbn [applyActionUnsafe].
    + destruct (validateSelectNoble_inv s pid nid Hv)
        as (player & noble & Hp & Hn & _).
      destruct (applySelectNoble_accepted s pid nid player noble Hp Hn) as (i & _ & _ & E).
      rewrite E. eexists. split; [reflexivity|].
      apply gemTotal_same;
        match goal with |- context [checkGameEndAndAdvance ?t] =>
          destruct (checkGameEndAndAdvance_same t) as (E1 & E2 & _) end.
      * rewrite E2. reflexivity.
      * rewrite E1.
        change (players (set_pendingNobleSelection None
                           (mutatePlayer pid (receiveNoble noble)
                              (set_nobles (removeAt i (nobles s)) s))))
          with (withPlayer pid (receiveNoble noble) (players s)).
        apply map_withPlayer. reflexivity.
    + destruct (validateDiscardGems_inv s pid es Hv) as (player & Hp & _).
      assert (Hsome : getPlayerById s pid <> None) by congruence.
      destruct (discardGemsEffect_conserving s pid es Hsome) as (s1 & E & C).
      unfold applyDiscardGems. rewrite E. cbn [bind].
      destruct (C Hsome) as [Hp1 Htot].
      destruct (checkNobleAndAdvance_total s1 pid Hp1) as (s' & Hf & Hb & Hg).
      exists s'. split; [exact Hf|]. intro g.
      rewrite (gemTotal_same s1 s' Hb Hg). apply Htot.
Qed.

Lemma applyAction_conserves_tokens_witness :
  exists s',
    applyAction purchaseScenario (PURCHASE_CARD "p1" "c_e3" None) = Ret s'
    /\ forall g, gemTotal g s' = gemTotal g purchaseScenario.
Proof.
  apply (applyAction_conserves_tokens purchaseScenario
           (PURCHASE_CARD "p1" "c_e3" None)).
  reflexivity.
Defined.

(* ======================================================================= *)
(** * The end-of-turn pipeline *)
(* ======================================================================= *)

Lemma turnFrame_refl (s : GameState) : turnFrame s s.
Proof. unfold turnFrame. auto 10. Qed.

Lemma turnFrame_trans (s1 s2 s3 : GameState) :
  turnFrame s1 s2 -> turnFrame s2 s3 -> turnFrame s1 s3.
Proof.
  unfold turnFrame. intros (A1 & A2 & A3 & A4 & A5 & A6) (B1 & B2 & B3 & B4 & B5 & B6).
  repeat split; congruence.
Qed.

Lemma turnFrame_same (s s' : GameState) :
  players s' = players s -> currentPlayerIndex s' = currentPlayerIndex s ->
  round s' = round s -> phase s' = phase s -> nobles s' = nobles s ->
  pendingNobleSelection s' = pendingNobleSelection s -> turnFrame s s'.
Proof. unfold turnFrame. intros Hp; intros. rewrite Hp. auto 10. Qed.

Lemma turnFrame_mutatePlayer (pid : string) (f : Player -> Player)
  (s : GameState) :
  (forall p, player_nobles (f p) = player_nobles p) ->
  turnFrame s (mutatePlayer pid f s).
Proof.
  intro H. unfold turnFrame. repeat split.
  change (players (mutatePlayer pid f s)) with (withPlayer pid f (players s)).
  apply map_withPlayer, H.
Qed.

Lemma turnFrame_bankToPlayer (pid : string) (gem : GemType) (n : Z)
  (s : GameState) : turnFrame s (bankToPlayer pid gem n s).
Proof.
  unfold bankToPlayer.
  eapply turnFrame_trans; [|apply turnFrame_mutatePlayer; reflexivity].
  apply turnFrame_same; reflexivity.
Qed.

Lemma turnFrame_playerToBank (pid : string) (gem : GemType) (n : Z)
  (s : GameState) : turnFrame s (playerToBank pid gem n s).
Proof.
  unfold playerToBank.
  eapply turnFrame_trans; [|apply turnFrame_same; reflexivity].
  apply turnFrame_mutatePlayer. reflexivity.
Qed.

Lemma turnFrame_fold {A : Type} (step : GameState -> A -> GameState)
  (l : list A) (s : GameState) :
  (forall st a, turnFrame st (step st a)) -> turnFrame s (fold_left step l s).
Proof.
  intro Hstep. revert s. induction l as [|a l IH]; intro s; cbn.
  - apply turnFrame_refl.
  - eapply turnFrame_trans; [apply Hstep|apply IH].
Qed.

Lemma turnFrame_refill (s : GameState) (tier : CardTier) :
  turnFrame s (refillMarketSlot s tier).
Proof.
  destruct (refillMarketSlot_same s tier) as (F1 & F2 & F3 & F4 & F5 & F6 & F7).
  apply turnFrame_same; assumption.
Qed.

Lemma turnFrame_removeCard (s : GameState) (cid : string) :
  turnFrame s (snd (removeCardFromMarket s cid)).
Proof.
  destruct (removeCardFromMarket_same s cid) as (F1 & F2 & F3 & F4 & F5 & F6 & F7).
  apply turnFrame_same; assumption.
Qed.

Lemma turnFrame_discardEntries (pid : string)
  (entries : list (GemType * option Z)) (s s1 : GameState) :
  discardEntries pid entries s = Ret s1 -> turnFrame s s1.
Proof.
  revert s. induction entries as [|[gem [count|]] rest IH]; intros s;
    cbn [discardEntries].
  - intro H. inversion H. apply turnFrame_refl.
  - destruct (count <=? 0); [apply IH|].
    destruct (getPlayerById s pid); [|discriminate].
    intro H. eapply turnFrame_trans; [apply turnFrame_playerToBank|].
    apply IH, H.
  - apply IH.
Qed.

(** The economic effect of a main action or of a discard keeps the frame. *)
Lemma actionEffect_turnFrame (s : GameState) (a : PlayerAction) (s1 : GameState) :
  actionEffect s a = Ret s1 -> turnFrame s s1.
Proof.
  destruct a as [pid gs|pid gem|pid cid tier|pid cid gu|pid nid|pid es];
    cbn [actionEffect].
  - unfold takeThreeGemsEffect, cloneGameState.
    destruct (getPlayerById s pid); [|discriminate].
    intro H. inversion H. apply turnFrame_fold.
    intros st g. apply turnFrame_bankToPlayer.
  - unfold takeTwoGemsEffect, cloneGameState.
    destruct (getPlayerById s pid); [|discriminate].
    intro H. inversion H. apply turnFrame_bankToPlayer.
  - unfold reserveCardEffect, cloneGameState.
    destruct (getPlayerById s pid); [|discriminate].
    intro H. inversion H as [H1]. clear H H1.
    destruct (takeReservedCard_same s cid tier) as (T1 & T2 & T3 & T4 & T5 & T6 & T7).
    set (taken := takeReservedCard s cid tier) in *.
    assert (Hst : turnFrame s
                    match fst taken with
                    | Some card =>
                      mutatePlayer pid
                        (fun p => set_reservedCards (reservedCards p ++ [card]) p)
                        (snd taken)
                    | None => snd taken
                    end).
    { eapply turnFrame_trans; [apply (turnFrame_same s (snd taken)); assumption|].
      destruct (fst taken).
      - apply turnFrame_mutatePlayer. reflexivity.
      - apply turnFrame_refl. }
    match goal with |- context [if ?c then _ else _] => destruct c end;
      [|exact Hst].
    eapply turnFrame_trans; [exact Hst|apply turnFrame_bankToPlayer].
  - unfold purchaseCardEffect, cloneGameState.
    destruct (calculatePayment s pid cid) as [payment|]; [|discriminate].
    destruct (getPlayerById s pid) as [player|]; [|discriminate].
    unfold takePurchasedCard.
    pose proof (turnFrame_removeCard s cid) as R.
    destruct (removeCardFromMarket s cid) as [[c|] st]; cbn [snd] in R.
    + intro H. inversion H as [H1]. clear H H1.
      eapply turnFrame_trans; [exact R|].
      eapply turnFrame_trans; [|apply turnFrame_refill].
      eapply turnFrame_trans;
        [|apply turnFrame_mutatePlayer; reflexivity].
      unfold payGems.
      eapply turnFrame_trans; [|apply turnFrame_playerToBank].
      apply turnFrame_fold. intros st0 color. apply turnFrame_playerToBank.
    + destruct (findIndex _ (reservedCards player)) as [i|]; [|discriminate].
      destruct (nth_error (reservedCards player) i) as [c|]; [|discriminate].
      intro H. inversion H as [H1]. clear H H1.
      eapply turnFrame_trans; [exact R|].
      eapply turnFrame_trans;
        [|apply turnFrame_mutatePlayer; reflexivity].
      unfold payGems.
      eapply turnFrame_trans; [|apply turnFrame_playerToBank].
      eapply turnFrame_trans;
        [|apply turnFrame_fold; intros st0 color; apply turnFrame_playerToBank].
      apply turnFrame_mutatePlayer. reflexivity.
  - intro H. inversion H. apply turnFrame_refl.
  - unfold discardGemsEffect, cloneGameState.
    destruct (discardEntries pid es s) as [st|] eqn:E; [|discriminate].
    cbn [bind]. intro H. inversion H.
    eapply turnFrame_trans; [apply (turnFrame_discardEntries pid es s st E)|].
    apply turnFrame_same; reflexivity.
Qed.

(** A handler is its effect followed by its tail of the pipeline. *)
Lemma applyActionUnsafe_main (s : GameState) (a : PlayerAction) :
  isMainAction a = true ->
  applyActionUnsafe s a
  = (newState <- actionEffect s a ;; finishTurn newState (action_playerId a)).
Proof. destruct a; try discriminate; reflexivity. Qed.

Lemma applyActionUnsafe_discard (s : GameState) (pid : string)
  (es : list (GemType * option Z)) :
  applyActionUnsafe s (DISCARD_GEMS pid es)
  = (newState <- actionEffect s (DISCARD_GEMS pid es) ;;
     checkNobleAndAdvance newState pid).
Proof. reflexivity. Qed.

(** C5, counterexample: "p1" buys a card that makes two nobles eligible, so a
    noble selection is pending for "p1"; "p1" then takes three gems, which is
    accepted and leaves "p1" with 12 gems.  The returned state has the
    discard pending and the noble selection still set. *)
Lemma over_limit_can_leave_noble_selection_set :
  applyAction twoNoblesAhead (PURCHASE_CARD "p1" "t1_o06" None)
  = Ret awaitingSelection
  /\ validateAction awaitingSelection
       (TAKE_THREE_GEMS "p1" [colored emerald; colored onyx; colored ruby])
     = Ret Valid
  /\ (exists s1 p1,
        actionEffect awaitingSelection
          (TAKE_THREE_GEMS "p1" [colored emerald; colored onyx; colored ruby])
        = Ret s1
        /\ getPlayerById s1 "p1" = Some p1
        /\ playerTotalGems p1 = 12)
  /\ applyAction awaitingSelection
       (TAKE_THREE_GEMS "p1" [colored emerald; colored onyx; colored ruby])
     = Ret awaitingDiscard
  /\ pendingGemDiscard awaitingDiscard = Some "p1"
  /\ pendingNobleSelection awaitingDiscard <> None.
Proof.
  split; [vm_compute; reflexivity|]. split; [vm_compute; reflexivity|].
  split.
  { eexists. eexists. split; [vm_compute; reflexivity|].
    split; vm_compute; reflexivity. }
  split; [vm_compute; reflexivity|]. split; [vm_compute; reflexivity|].
  vm_compute. discriminate.
Qed.

(** The early return of [finishTurn]: the state after the effect with the
    discard pending, everything of the turn frame as before the action. *)
Lemma over_limit_frame (s : GameState) (a : PlayerAction)
  (s1 : GameState) (p1 : Player) :
  isMainAction a = true ->
  validateAction s a = Ret Valid ->
  actionEffect s a = Ret s1 ->
  getPlayerById s1 (action_playerId a) = Some p1 ->
  GAME_CONSTANTS.MAX_GEMS < playerTotalGems p1 ->
  applyAction s a = Ret (set_pendingGemDiscard (Some (action_playerId a)) s1)
  /\ turnFrame s (set_pendingGemDiscard (Some (action_playerId a)) s1).
Proof.
  intros Hmain Hv He Hp Hgt. split.
  - unfold applyAction. rewrite Hv. cbn [bind].
    rewrite (applyActionUnsafe_main s a Hmain), He. cbn [bind].
    unfold finishTurn. rewrite Hp.
    destruct (Z.ltb_spec GAME_CONSTANTS.MAX_GEMS (playerTotalGems p1));
      [reflexivity|lia].
  - apply (actionEffect_turnFrame s a s1 He).
Qed.

(** C5, amended. When the economic effect of an accepted main action, applied
    to a state in which no noble selection is pending, leaves the acting
    player with more than 10 gems, [applyAction] returns the state after that
    effect with [pendingGemDiscard] set to the player's id: the current
    player index and the round are those before the action, the nobles of the
    pool and of every player are those before the action, and
    [pendingNobleSelection] is not set. *)
Theorem over_limit_sets_pending_discard (s : GameState) (a : PlayerAction)
  (s1 : GameState) (p1 : Player) :
  isMainAction a = true ->
  validateAction s a = Ret Valid ->
  pendingNobleSelection s = None ->
  actionEffect s a = Ret s1 ->
  getPlayerById s1 (action_playerId a) = Some p1 ->
  GAME_CONSTANTS.MAX_GEMS < playerTotalGems p1 ->
  exists s2, applyAction s a = Ret s2
    /\ s2 = set_pendingGemDiscard (Some (action_playerId a)) s1
    /\ pendingGemDiscard s2 = Some (action_playerId a)
    /\ currentPlayerIndex s2 = currentPlayerIndex s
    /\ round s2 = round s
    /\ nobles s2 = nobles s
    /\ map player_nobles (players s2) = map player_nobles (players s)
    /\ pendingNobleSelection s2 = None.
Proof.
  intros Hmain Hv Hnone He Hp Hgt.
  destruct (over_limit_frame s a s1 p1 Hmain Hv He Hp Hgt)
    as (Happ & F1 & F2 & F3 & F4 & F5 & F6).
  exists (set_pendingGemDiscard (Some (action_playerId a)) s1).
  split; [exact Happ|]. split; [reflexivity|]. split; [reflexivity|].
  rewrite <- Hnone. auto 10.
Qed.

Lemma over_limit_sets_pending_discard_witness :
  exists s2,
    applyAction nineGems
      (TAKE_THREE_GEMS "p1" [colored emerald; colored diamond; colored sapphire])
    = Ret s2
    /\ pendingGemDiscard s2 = Some "p1"
    /\ currentPlayerIndex s2 = currentPlayerIndex nineGems
    /\ round s2 = round nineGems
    /\ pendingNobleSelection s2 = None.
Proof.
  destruct (over_limit_sets_pending_discard nineGems
              (TAKE_THREE_GEMS "p1"
                 [colored emerald; colored diamond; colored sapphire])
              (stateOf (actionEffect nineGems
                 (TAKE_THREE_GEMS "p1"
                    [colored emerald; colored diamond; colored sapphire])))
              (mkPlayer "p1" "Frank" (mkGems 3 3 3 2 1 0)
                 createEmptyColoredGemCollection [] [] [] 0))
    as (s2 & H1 & _ & H3 & H4 & H5 & _ & _ & H8);
    [vm_compute; reflexivity | vm_compute; reflexivity | vm_compute; reflexivity
    | vm_compute; reflexivity | vm_compute; reflexivity
    | vm_compute; reflexivity |].
  exists s2. auto.
Defined.

(** No validator reads the two pending flags. *)
Lemma validateAction_ignores_pending (s : GameState) (a : PlayerAction)
  (discard selection : option string) :
  validateAction
    (set_pendingGemDiscard discard (set_pendingNobleSelection selection s)) a
  = validateAction s a.
Proof. destruct a; reflexivity. Qed.

(** C2, the code at the failing input: "p1" holds 9 gems and takes three, so
    [applyAction] returns a state where "p1" holds 12 gems and
    [pendingGemDiscard] names "p1"; a further TAKE_THREE_GEMS by "p1" in
    that state is accepted.  So is a main action by "p1" in the state where
    [pendingNobleSelection] names "p1". *)
Theorem main_action_accepted_while_pending :
  applyAction nineGems
    (TAKE_THREE_GEMS "p1" [colored emerald; colored diamond; colored sapphire])
  = Ret overLimit
  /\ pendingGemDiscard overLimit = Some "p1"
  /\ getTotalGems overLimit "p1" = 12
  /\ validateAction overLimit (TAKE_THREE_GEMS "p1" [colored onyx]) = Ret Valid
  /\ pendingNobleSelection awaitingSelection = Some "p1"
  /\ validateAction awaitingSelection
       (TAKE_THREE_GEMS "p1" [colored emerald; colored onyx; colored ruby])
     = Ret Valid.
Proof. evaluate. Qed.

(* ======================================================================= *)
(** * Noble selection *)
(* ======================================================================= *)

(** C10. In a state whose phase is ['playing'] or ['final_round'], for a
    player of the state and a noble of the pool (the one its id finds) whose
    requirements the player's bonuses meet, SELECT_NOBLE is accepted whatever
    [pendingNobleSelection] holds and whoever the current player is; applying
    it takes that noble out of the pool, appends it to the player's nobles,
    adds its prestige to the player, clears [pendingNobleSelection] and moves
    [currentPlayerIndex] to the next player. *)
Theorem selectNoble_accepted_without_turn (s : GameState) (pid nid : string)
  (player : Player) (noble : Noble) :
  isGameInProgress s = true ->
  getPlayerById s pid = Some player ->
  find (fun n => noble_id n =? nid)%string (nobles s) = Some noble ->
  meetsRequirements player noble = true ->
  validateAction s (SELECT_NOBLE pid nid) = Ret Valid
  /\ exists l1 l2 s' player',
       applyAction s (SELECT_NOBLE pid nid) = Ret s'
       /\ nobles s = l1 ++ noble :: l2
       /\ nobles s' = l1 ++ l2
       /\ getPlayerById s' pid = Some player'
       /\ player_nobles player' = player_nobles player ++ [noble]
       /\ prestigePoints player'
          = prestigePoints player + noble_prestigePoints noble
       /\ pendingNobleSelection s' = None
       /\ currentPlayerIndex s'
          = Z.rem (currentPlayerIndex s + 1) (Z.of_nat (List.length (players s))).
Proof.
  intros Hprog Hp Hn Hmeet.
  assert (Hv : validateAction s (SELECT_NOBLE pid nid) = Ret Valid).
  { unfold validateAction. rewrite Hprog. cbn [negb].
    unfold validateSelectNoble. rewrite Hp, Hn.
    destruct (existsb _ GEM_COLORS) eqn:E; [|reflexivity].
    apply existsb_exists in E. destruct E as (c & Hc & Hlt).
    unfold meetsRequirements in Hmeet. rewrite forallb_forall in Hmeet.
    specialize (Hmeet c Hc). rewrite Hlt in Hmeet. discriminate Hmeet. }
  split; [exact Hv|].
  destruct (applySelectNoble_accepted s pid nid player noble Hp Hn)
    as (i & Hi & Hnth & Happ).
  destruct (removeAt_split (nobles s) i noble Hnth) as (l1 & l2 & E1 & E2 & _).
  set (awarded := set_pendingNobleSelection None
                    (mutatePlayer pid (receiveNoble noble)
                       (set_nobles (removeAt i (nobles s)) s))) in *.
  exists l1, l2, (checkGameEndAndAdvance awarded), (receiveNoble noble player).
  destruct (checkGameEndAndAdvance_same awarded) as (C1 & C2 & C3 & C4 & C5).
  split; [unfold applyAction; rewrite Hv; exact Happ|].
  split; [exact E1|].
  split; [rewrite C3; exact E2|].
  split.
  { unfold getPlayerById. rewrite C1.
    change (players awarded) with (withPlayer pid (receiveNoble noble) (players s)).
    rewrite find_withPlayer by reflexivity.
    unfold getPlayerById in Hp. rewrite Hp. reflexivity. }
  split; [reflexivity|]. split; [reflexivity|].
  split; [rewrite C5; reflexivity|].
  unfold checkGameEndAndAdvance.
  assert (Hprog' : isGameInProgress awarded = true) by exact Hprog.
  rewrite advanceTurn_index.
  - destruct (checkGameEndTrigger_fields awarded) as (T1 & T2 & _).
    rewrite T1, T2.
    change (players awarded) with (withPlayer pid (receiveNoble noble) (players s)).
    rewrite length_withPlayer. reflexivity.
  - destruct (checkGameEndTrigger_phase awarded Hprog') as [E|E]; rewrite E;
      discriminate.
Qed.

Lemma selectNoble_accepted_without_turn_witness :
  isPlayersTurn idleNoble "p2" = Ret false
  /\ pendingNobleSelection idleNoble = None
  /\ currentPlayerIndex
       (stateOf (applyAction idleNoble (SELECT_NOBLE "p2" "noble_07"))) = 1
  /\ validateAction idleNoble (SELECT_NOBLE "p2" "noble_07") = Ret Valid.
Proof.
  split; [vm_compute; reflexivity|]. split; [reflexivity|].
  split; [vm_compute; reflexivity|].
  apply (selectNoble_accepted_without_turn idleNoble "p2" "noble_07" erin noble07);
    vm_compute; reflexivity.
Defined.

(** ** The nobles pool of a reachable state *)

Lemma nth_error_replaceAt_other {A : Type} (l : list A) (i j : nat) (v : A) :
  i <> j -> nth_error (replaceAt j v l) i = nth_error l i.
Proof.
  revert i j. induction l as [|a l IH]; intros [|i] [|j] H; cbn;
    try reflexivity; try congruence.
  apply IH. congruence.
Qed.

Lemma replaceAt_same {A : Type} (l : list A) (i : nat) (x : A) :
  nth_error l i = Some x -> replaceAt i x l = l.
Proof.
  revert i. induction l as [|a l IH]; intros [|i] H; cbn in *;
    try discriminate.
  - congruence.
  - rewrite IH; auto.
Qed.

Lemma removeAt_perm {A : Type} (l : list A) (i : nat) (x : A) :
  nth_error l i = Some x -> Permutation l (x :: removeAt i l).
Proof.
  intro H. destruct (removeAt_split l i x H) as (l1 & l2 & E1 & E2 & _).
  rewrite E2, E1. symmetry. apply Permutation_middle.
Qed.

Lemma replaceAt_perm {A : Type} (l : list A) (i : nat) (x v : A) :
  nth_error l i = Some x -> Permutation (replaceAt i v l) (v :: removeAt i l).
Proof.
  revert i. induction l as [|a l IH]; intros [|i] H; cbn in *;
    try discriminate.
  - reflexivity.
  - eapply Permutation_trans; [apply perm_skip, (IH i H)|apply perm_swap].
Qed.

Lemma swapAt_perm {A : Type} (i j : nat) (l : list A) :
  Permutation (swapAt i j l) l.
Proof.
  unfold swapAt.
  destruct (nth_error l i) as [x|] eqn:Hi; [|reflexivity].
  destruct (nth_error l j) as [y|] eqn:Hj; [|reflexivity].
  destruct (Nat.eq_dec i j) as [E|E].
  - subst j. assert (x = y) by congruence. subst y.
    rewrite (replaceAt_same l i x Hi). rewrite (replaceAt_same l i x Hi).
    reflexivity.
  - assert (Hi' : nth_error (replaceAt j x l) i = Some x)
      by (rewrite nth_error_replaceAt_other; auto).
    eapply Permutation_trans;
      [apply (replaceAt_perm (replaceAt j x l) i x y Hi')|].
    eapply Permutation_trans; [|symmetry; apply (removeAt_perm l j y Hj)].
    apply perm_skip.
    apply Permutation_cons_inv with (a := x).
    eapply Permutation_trans;
      [symmetry; apply (removeAt_perm (replaceAt j x l) i x Hi')|].
    apply (replaceAt_perm l j y x Hj).
Qed.

Lemma shuffleArray_perm {A : Type} (rand : RandomSource) (calls : nat)
  (array : list A) :
  Permutation (fst (shuffleArray rand calls array)) array.
Proof.
  unfold shuffleArray. generalize (List.length array - 1)%nat as i.
  intro i. revert calls array.
  induction i as [|i IH]; intros calls array; cbn [shuffleLoop fst].
  - reflexivity.
  - eapply Permutation_trans; [apply IH|apply swapAt_perm].
Qed.

Lemma NOBLES_wellFormed : noblesWellFormed NOBLES.
Proof.
  split.
  - cbn. repeat (constructor; [cbn; intuition discriminate|]). constructor.
  - intros n Hn. cbn in Hn.
    repeat (destruct Hn as [Hn|Hn]; [subst n; reflexivity|]). destruct Hn.
Qed.

Lemma removeAt_In {A : Type} (l : list A) (i : nat) (x : A) :
  In x (removeAt i l) -> In x l.
Proof.
  revert i. induction l as [|a l IH]; intros [|i]; cbn; auto.
  intros [E|H]; eauto.
Qed.

Lemma removeAt_NoDup {A B : Type} (f : A -> B) (l : list A) (i : nat) :
  NoDup (map f l) -> NoDup (map f (removeAt i l)).
Proof.
  revert i. induction l as [|a l IH]; intros [|i] H; cbn in *; auto;
    inversion H as [|? ? Hnotin Hnd]; subst; auto.
  constructor; [|apply IH, Hnd].
  intro Hin. apply Hnotin. apply in_map_iff in Hin.
  destruct Hin as (y & Ey & Hy). apply removeAt_In in Hy.
  rewrite <- Ey. apply in_map, Hy.
Qed.

Lemma removeAt_wellFormed (pool : list Noble) (i : nat) :
  noblesWellFormed pool -> noblesWellFormed (removeAt i pool).
Proof.
  intros [Hnd Hp]. split.
  - apply removeAt_NoDup, Hnd.
  - intros n Hn. apply Hp. eapply removeAt_In, Hn.
Qed.

Lemma createGame_noblesWellFormed (config : GameConfig)
  (playerInfos : list (string * string)) (rand : RandomSource)
  (freshId : string) (s : GameState) :
  createGame config playerInfos rand freshId = Ret s ->
  noblesWellFormed (nobles s).
Proof.
  unfold createGame.
  destruct (negb _); [discriminate|].
  set (ordered := randomizePlayerOrder _ _ _).
  set (shuffledDecks := createShuffledDecks _ _).
  set (dealt := createInitialMarket _).
  set (initialBank := createInitialBank _).
  remember (snd shuffledDecks) as calls eqn:Ecalls.
  remember (selectNobles (playerCount config) rand calls) as pool eqn:Epool.
  clearbody ordered dealt initialBank. clear Ecalls. clearbody shuffledDecks.
  intro H. injection H as E. rewrite <- E. cbn [nobles].
  rewrite Epool. unfold selectNobles. cbn [fst]. clear E Epool pool.
  pose proof (shuffleArray_perm rand calls getAllNobles) as P.
  destruct NOBLES_wellFormed as [Hnd Hp].
  set (shuffled := fst (shuffleArray rand calls getAllNobles)) in *.
  set (k := Z.to_nat (playerCount_value (playerCount config) + 1)).
  split.
  - rewrite <- firstn_map.
    apply (NoDup_app_remove_r _ (skipn k (map noble_id shuffled))).
    rewrite firstn_skipn.
    apply (Permutation_NoDup (l := map noble_id NOBLES)); [|exact Hnd].
    apply Permutation_map. symmetry. exact P.
  - intros n Hn. apply Hp.
    apply (Permutation_in n P).
    rewrite <- (firstn_skipn k shuffled). apply in_or_app. left. exact Hn.
Qed.

Lemma checkNobleAndAdvance_pool (s : GameState) (pid : string) (s' : GameState) :
  checkNobleAndAdvance s pid = Ret s' ->
  nobles s' = nobles s \/ exists i, nobles s' = removeAt i (nobles s).
Proof.
  unfold checkNobleAndAdvance.
  destruct (getEligibleNobles s pid) as [|nobleId [|n2 r]].
  - intro H. inversion H.
    destruct (checkGameEndAndAdvance_same s) as (_ & _ & C3 & _). auto.
  - match goal with |- context [spliceOne ?idx ?l] =>
      set (spliced := spliceOne idx l) end.
    assert (Hs : exists i, snd spliced = removeAt i (nobles s)).
    { subst spliced. unfold spliceOne.
      destruct (findIndex _ (nobles s)); cbn [snd]; eauto. }
    destruct Hs as (i & Hs).
    destruct (getPlayerById (set_nobles (snd spliced) s) pid); [|discriminate].
    destruct (fst spliced) as [noble|]; [|discriminate].
    intro H. inversion H.
    match goal with |- context [checkGameEndAndAdvance ?t] =>
      destruct (checkGameEndAndAdvance_same t) as (_ & _ & C3 & _) end.
    right. exists i. rewrite C3. exact Hs.
  - intro H. inversion H. auto.
Qed.

Lemma applyAction_pool (s : GameState) (a : PlayerAction) (s' : GameState) :
  applyAction s a = Ret s' ->
  nobles s' = nobles s \/ exists i, nobles s' = removeAt i (nobles s).
Proof.
  unfold applyAction.
  destruct (validateAction s a) as [[|code]|e]; cbn [bind]; try discriminate.
  destruct (isMainAction a) eqn:Hmain.
  - rewrite (applyActionUnsafe_main s a Hmain).
    destruct (actionEffect s a) as [s1|e] eqn:He; cbn [bind]; [|discriminate].
    destruct (actionEffect_turnFrame s a s1 He) as (_ & _ & _ & F4 & _).
    unfold finishTurn.
    destruct (getPlayerById s1 (action_playerId a)) as [p|]; [|discriminate].
    destruct (GAME_CONSTANTS.MAX_GEMS <? playerTotalGems p).
    + intro H. inversion H. cbn [nobles set_pendingGemDiscard]. auto.
    + intro H. apply checkNobleAndAdvance_pool in H. rewrite F4 in H. exact H.
  - destruct a as [pid gs|pid gem|pid cid tier|pid cid gu|pid nid|pid es];
      try discriminate Hmain.
    + cbn [applyActionUnsafe]. unfold applySelectNoble, cloneGameState.
      destruct (findIndex _ (nobles s)) as [i|]; [|discriminate].
      cbn [spliceOne fst snd].
      destruct (getPlayerById _ pid); [|discriminate].
      destruct (nth_error (nobles s) i) as [noble|]; [|discriminate].
      intro H. inversion H.
      match goal with |- context [checkGameEndAndAdvance ?t] =>
        destruct (checkGameEndAndAdvance_same t) as (_ & _ & C3 & _) end.
      right. exists i. rewrite C3. reflexivity.
    + rewrite applyActionUnsafe_discard.
      destruct (actionEffect s (DISCARD_GEMS pid es)) as [s1|e] eqn:He;
        cbn [bind]; [|discriminate].
      destruct (actionEffect_turnFrame s _ s1 He) as (_ & _ & _ & F4 & _).
      intro H. apply checkNobleAndAdvance_pool in H. rewrite F4 in H. exact H.
Qed.

(** Every state of a game has a well-formed nobles pool. *)
Lemma reachable_noblesWellFormed (s : GameState) :
  reachable s -> noblesWellFormed (nobles s).
Proof.
  induction 1 as [config infos rand freshId s Hc|s a s' Hr IH Ha].
  - eapply createGame_noblesWellFormed, Hc.
  - destruct (applyAction_pool s a s' Ha) as [E|(i & E)]; rewrite E.
    + exact IH.
    + apply removeAt_wellFormed, IH.
Qed.

Lemma NoDup_map_inj {A B : Type} (f : A -> B) (l : list A) (x y : A) :
  NoDup (map f l) -> In x l -> In y l -> f x = f y -> x = y.
Proof.
  induction l as [|a l IH]; cbn; [tauto|].
  intros Hnd Hx Hy E. inversion Hnd as [|? ? Hnotin Hnd']; subst.
  destruct Hx as [Hx|Hx], Hy as [Hy|Hy]; subst; auto.
  - exfalso. apply Hnotin. rewrite E. apply in_map, Hy.
  - exfalso. apply Hnotin. rewrite <- E. apply in_map, Hx.
Qed.

(** C6. After an accepted main action or discard whose effect leaves the
    acting player with at most 10 gems, in a state whose nobles have distinct
    ids and 3 prestige each (every state of a game has, see
    [reachable_noblesWellFormed]): if exactly one noble of the pool has its
    requirements met by the player's bonuses, the action returns the state in
    which that noble has left the pool and is appended to the player's nobles
    with 3 prestige added, [pendingNobleSelection] being left as it was, and
    the turn goes on; if more than one is eligible, the returned state is the
    one after the effect with [pendingNobleSelection] set to the player's id,
    so [currentPlayerIndex] is unchanged and no noble has moved; if none is
    eligible, the turn goes on from the state after the effect. *)
Theorem noble_check_after_action (s : GameState) (a : PlayerAction)
  (s1 : GameState) (p1 : Player) :
  isMainAction a || isDiscard a = true ->
  validateAction s a = Ret Valid ->
  actionEffect s a = Ret s1 ->
  getPlayerById s1 (action_playerId a) = Some p1 ->
  playerTotalGems p1 <= GAME_CONSTANTS.MAX_GEMS ->
  noblesWellFormed (nobles s) ->
  exists s2, applyAction s a = Ret s2 /\
    match filter (meetsRequirements p1) (nobles s1) with
    | [] => s2 = checkGameEndAndAdvance s1
    | [n] =>
      exists l1 l2 p2,
        nobles s1 = l1 ++ n :: l2
        /\ s2 = checkGameEndAndAdvance
                  (awardNoble (action_playerId a) n (l1 ++ l2) s1)
        /\ nobles s2 = l1 ++ l2
        /\ getPlayerById s2 (action_playerId a) = Some p2
        /\ player_nobles p2 = player_nobles p1 ++ [n]
        /\ prestigePoints p2 = prestigePoints p1 + 3
        /\ pendingNobleSelection s2 = pendingNobleSelection s
    | _ :: _ :: _ =>
      s2 = set_pendingNobleSelection (Some (action_playerId a)) s1
      /\ pendingNobleSelection s2 = Some (action_playerId a)
      /\ currentPlayerIndex s2 = currentPlayerIndex s
      /\ nobles s2 = nobles s1
    end.
Proof.
  intros Hkind Hv He Hp Hle Hwf.
  destruct (actionEffect_turnFrame s a s1 He) as (F1 & F2 & F3 & F4 & F5 & F6).
  rewrite <- F4 in Hwf. destruct Hwf as [Hnd Hthree].
  assert (Happ : applyAction s a = checkNobleAndAdvance s1 (action_playerId a)).
  { unfold applyAction. rewrite Hv. cbn [bind].
    destruct (isMainAction a) eqn:Hmain.
    - rewrite (applyActionUnsafe_main s a Hmain), He. cbn [bind].
      unfold finishTurn. rewrite Hp.
      destruct (Z.ltb_spec GAME_CONSTANTS.MAX_GEMS (playerTotalGems p1)); [lia|reflexivity].
    - destruct a; try discriminate.
      rewrite applyActionUnsafe_discard, He. reflexivity. }
  rewrite Happ.
  pose proof (checkNobleAndAdvance_cases s1 (action_playerId a) p1 Hp) as C.
  destruct (filter (meetsRequirements p1) (nobles s1)) as [|n [|n2 r]] eqn:F.
  - eexists. split; [exact C|reflexivity].
  - destruct C as (i & noble & Hi & Hnth & Hid & C).
    assert (Hn : In n (nobles s1)).
    { assert (X : In n (filter (meetsRequirements p1) (nobles s1)))
        by (rewrite F; cbn; auto).
      apply filter_In in X. tauto. }
    assert (noble = n).
    { apply (NoDup_map_inj noble_id (nobles s1)); auto.
      eapply nth_error_In; eauto. }
    subst noble.
    destruct (removeAt_split (nobles s1) i n Hnth) as (l1 & l2 & E1 & E2 & _).
    assert (Hstate : mutatePlayer (action_playerId a) (receiveNoble n)
                       (set_nobles (removeAt i (nobles s1)) s1)
                     = awardNoble (action_playerId a) n (l1 ++ l2) s1).
    { unfold awardNoble, receiveNoble. rewrite E2, (Hthree n Hn). reflexivity. }
    rewrite Hstate in C.
    eexists. split; [exact C|].
    exists l1, l2,
      (set_prestigePoints (prestigePoints p1 + 3)
         (set_player_nobles (player_nobles p1 ++ [n]) p1)).
    destruct (checkGameEndAndAdvance_same
                (awardNoble (action_playerId a) n (l1 ++ l2) s1))
      as (C1 & C2 & C3 & C4 & C5).
    split; [exact E1|]. split; [reflexivity|].
    split; [rewrite C3; reflexivity|].
    split.
    { unfold getPlayerById. rewrite C1. unfold awardNoble.
      match goal with |- context [mutatePlayer ?pid ?f ?st] =>
        change (players (mutatePlayer pid f st)) with (withPlayer pid f (players s1))
      end.
      rewrite find_withPlayer by reflexivity.
      unfold getPlayerById in Hp. rewrite Hp. reflexivity. }
    split; [reflexivity|]. split; [reflexivity|].
    rewrite C5. exact F5.
  - eexists. split; [exact C|]. repeat split; auto.
Qed.

Lemma noble_check_after_action_witness :
  nobles (stateOf (applyAction oneNobleAhead (PURCHASE_CARD "p1" "t1_o06" None)))
  = [noble07]
  /\ currentPlayerIndex
       (stateOf (applyAction oneNobleAhead (PURCHASE_CARD "p1" "t1_o06" None)))
     = 1
  /\ exists s2,
       applyAction oneNobleAhead (PURCHASE_CARD "p1" "t1_o06" None) = Ret s2.
Proof.
  split; [vm_compute; reflexivity|]. split; [vm_compute; reflexivity|].
  destruct (noble_check_after_action oneNobleAhead
              (PURCHASE_CARD "p1" "t1_o06" None)
              (stateOf (actionEffect oneNobleAhead
                          (PURCHASE_CARD "p1" "t1_o06" None)))
              (mkPlayer "p1" "Carol" (mkGems 3 3 3 0 0 0) (mkColored 0 4 0 4 4)
                 [] [onyxCard] [] 5))
    as (s2 & Happ & _).
  - reflexivity.
  - vm_compute. reflexivity.
  - vm_compute. reflexivity.
  - vm_compute. reflexivity.
  - vm_compute. discriminate.
  - split.
    + cbn. repeat (constructor; [cbn; intuition discriminate|]). constructor.
    + cbn. intros n [E|[E|[]]]; subst; reflexivity.
  - exists s2. exact Happ.
Defined.

(** The discard that resolves the pending discard of "p1" goes through the
    noble check: the two nobles are still eligible, so the selection stays
    pending and the turn does not move. *)
Example discard_then_noble_selection :
  validateAction awaitingDiscard resolvingDiscard = Ret Valid
  /\ pendingGemDiscard (stateOf (applyAction awaitingDiscard resolvingDiscard))
     = None
  /\ pendingNobleSelection (stateOf (applyAction awaitingDiscard resolvingDiscard))
     = Some "p1"
  /\ currentPlayerIndex (stateOf (applyAction awaitingDiscard resolvingDiscard))
     = 0
  /\ getTotalGems (stateOf (applyAction awaitingDiscard resolvingDiscard)) "p1"
     = 10.
Proof. evaluate. Qed.

(* ======================================================================= *)
(** * The scenarios of the specification *)
(* ======================================================================= *)

(** A 2-player game starts with bank [{4, 4, 4, 4, 4, gold: 5}]; the current
    player takes emerald, diamond and sapphire: the bank is left with
    [{3, 3, 3, 4, 4, gold: 5}], the player holds one of each, and the turn
    passes to index 1. *)
Example scenario_take_three :
  bank freshGame = mkGems 4 4 4 4 4 5
  /\ option_map player_id (getCurrentPlayer freshGame) = Some "p2"
  /\ applyAction freshGame
       (TAKE_THREE_GEMS "p2" [colored emerald; colored diamond; colored sapphire])
     = Ret (set_currentPlayerIndex 1
              (set_bank (mkGems 3 3 3 4 4 5)
                 (mutatePlayer "p2" (set_gems (mkGems 1 1 1 0 0 0)) freshGame))).
Proof. evaluate. Qed.

(** The player with bonuses [{emerald: 2}] and gems [{emerald: 1, gold: 1}]
    buys the card costing [{emerald: 3}]: the payment is one emerald and no
    gold, the card is purchased and the emerald bonus becomes 3. *)
Example scenario_purchase :
  calculatePayment purchaseScenario "p1" "c_e3"
  = Some (mkPayment (mkColored 1 0 0 0 0) 0)
  /\ option_map (fun p => (gems p, bonuses p, purchasedCards p))
       (getPlayerById
          (stateOf (applyAction purchaseScenario (PURCHASE_CARD "p1" "c_e3" None)))
          "p1")
     = Some (mkGems 0 0 0 0 0 1, mkColored 3 0 0 0 0, [cardEmerald3]).
Proof. evaluate. Qed.

(* ======================================================================= *)
(** * The repository's tests, on the model *)
(* ======================================================================= *)

(** applyReserveCard: the card moves from the market to the reserved cards,
    the slot is refilled from the deck, the player receives one gold. *)
Example test_reserve_from_market :
  map (option_map card_id) (market_tier1 (market freshGame))
  = [Some "t1_d02"; Some "t1_d03"; Some "t1_d04"; Some "t1_d05"]
  /\ map (option_map card_id)
       (market_tier1
          (market (stateOf (applyAction freshGame
                              (RESERVE_CARD "p2" (Some "t1_d02") Tier1)))))
     = [Some "t1_d06"; Some "t1_d03"; Some "t1_d04"; Some "t1_d05"]
  /\ option_map (fun p => (map card_id (reservedCards p), gems_gold (gems p)))
       (getPlayerById
          (stateOf (applyAction freshGame
                      (RESERVE_CARD "p2" (Some "t1_d02") Tier1))) "p2")
     = Some (["t1_d02"], 1).
Proof. evaluate. Qed.

(** applyReserveCard, blind draw: the deck loses its top card, the market is
    untouched. *)
Example test_reserve_blind_draw :
  List.length (deck_tier2 (decks freshGame)) = 26%nat
  /\ List.length
       (deck_tier2
          (decks (stateOf (applyAction freshGame (RESERVE_CARD "p2" None Tier2)))))
     = 25%nat
  /\ market (stateOf (applyAction freshGame (RESERVE_CARD "p2" None Tier2)))
     = market freshGame
  /\ option_map (fun p => List.length (reservedCards p))
       (getPlayerById
          (stateOf (applyAction freshGame (RESERVE_CARD "p2" None Tier2))) "p2")
     = Some 1%nat.
Proof. evaluate. Qed.

(** Game end: the last player of the final round moves, the index wraps and
    the game ends with a winner. *)
Example test_game_ends_after_final_round :
  phase
    (stateOf (applyAction lastTurn
                (TAKE_THREE_GEMS "p1"
                   [colored emerald; colored diamond; colored sapphire])))
  = ended
  /\ winners
       (stateOf (applyAction lastTurn
                   (TAKE_THREE_GEMS "p1"
                      [colored emerald; colored diamond; colored sapphire])))
     = ["p2"].
Proof. evaluate. Qed.

(* ======================================================================= *)
(** * Payment *)
(* ======================================================================= *)

Lemma paymentStep_gems (eff : ColoredGemCollection) (player : Player)
  (color : GemColor) :
  col_get (fst (fold_left (paymentStep eff player) GEM_COLORS
                  (mkColored 0 0 0 0 0, 0))) color
  = Z.min (col_get eff color) (gem_get (gems player) color).
Proof.
  unfold GEM_COLORS, paymentStep. cbn [fold_left].
  destruct (Z.leb_spec (col_get eff emerald) (gem_get (gems player) emerald));
  destruct (Z.leb_spec (col_get eff diamond) (gem_get (gems player) diamond));
  destruct (Z.leb_spec (col_get eff sapphire) (gem_get (gems player) sapphire));
  destruct (Z.leb_spec (col_get eff onyx) (gem_get (gems player) onyx));
  destruct (Z.leb_spec (col_get eff ruby) (gem_get (gems player) ruby));
  destruct color; cbn in *; lia.
Qed.

(** X1. [canAffordCard] and [calculatePayment] agree on every state, player
    id and card id: the card is affordable exactly when a payment is
    computed, so a purchase the validator accepts is never refused by the
    handler for lack of payment. *)
Theorem canAffordCard_iff_payment (s : GameState) (pid cid : string) :
  canAffordCard s pid cid = true <->
  exists payment, calculatePayment s pid cid = Some payment.
Proof.
  split; [apply canAffordCard_payment|].
  unfold canAffordCard, calculatePayment.
  destruct (getPlayerById s pid) as [player|]; [|intros [? H]; discriminate H].
  destruct (calculateEffectiveCost s pid cid) as [eff|];
    [|intros [? H]; discriminate H].
  rewrite goldNeededFor_sum, paymentStep_gold. cbn [snd].
  intros [payment H]. apply Z.leb_le.
  destruct (Z.ltb_spec (gem_get (gems player) gold)
              (0 + fold_right Z.add 0
                     (map (fun c => Z.max 0 (col_get eff c
                                             - gem_get (gems player) c))
                        GEM_COLORS))); [discriminate H|lia].
Qed.

(** X2. The payment [calculatePayment] computes for a found player and card:
    in each colour it is the smaller of the effective cost and the gems
    held; the gold is the sum of what the colours lack and is at most the
    gold held; colour by colour, payment plus gold share make up the
    effective cost exactly. *)
Theorem calculatePayment_exact (s : GameState) (pid cid : string)
  (player : Player) (card : DevelopmentCard) (payment : Payment) :
  getPlayerById s pid = Some player ->
  findCardForPlayer s player cid = Some card ->
  calculatePayment s pid cid = Some payment ->
  (forall color,
     col_get (pay_gems payment) color
     = Z.min (Z.max 0 (col_get (cost card) color
                       - col_get (bonuses player) color))
             (gem_get (gems player) color))
  /\ pay_gold payment
     = fold_right Z.add 0 (map (colorShortfall card player) GEM_COLORS)
  /\ pay_gold payment <= gem_get (gems player) gold
  /\ (forall color,
        col_get (pay_gems payment) color + colorShortfall card player color
        = Z.max 0 (col_get (cost card) color
                   - col_get (bonuses player) color)).
Proof.
  intros Hp Hc. unfold calculatePayment. rewrite Hp.
  destruct (effectiveCost_get s pid cid player card Hp Hc) as (eff & He & Hget).
  rewrite He.
  set (r := fold_left (paymentStep eff player) GEM_COLORS
              (mkColored 0 0 0 0 0, 0)).
  assert (Hgems : forall color,
             col_get (fst r) color
             = Z.min (col_get eff color) (gem_get (gems player) color))
    by (intro color; apply paymentStep_gems).
  assert (Hgold : snd r
                  = fold_right Z.add 0
                      (map (colorShortfall card player) GEM_COLORS)).
  { subst r. rewrite paymentStep_gold. cbn [snd].
    rewrite Z.add_0_l. f_equal. apply map_ext. intro c.
    unfold colorShortfall. rewrite Hget. reflexivity. }
  clearbody r.
  destruct (Z.ltb_spec (gem_get (gems player) gold) (snd r)); [discriminate|].
  intro H'. inversion H'. subst payment. cbn [pay_gems pay_gold].
  split; [intro color; rewrite Hgems, Hget; reflexivity|].
  split; [exact Hgold|]. split; [lia|].
  intro color. rewrite Hgems. unfold colorShortfall. rewrite <- Hget. lia.
Qed.

Lemma calculatePayment_exact_witness :
  pay_gold (mkPayment (mkColored 1 0 0 0 0) 0)
  = fold_right Z.add 0 (map (colorShortfall cardEmerald3 alice) GEM_COLORS).
Proof.
  apply (calculatePayment_exact purchaseScenario "p1" "c_e3" alice cardEmerald3
           (mkPayment (mkColored 1 0 0 0 0) 0)); reflexivity.
Defined.

(* ======================================================================= *)
(** * Nobles a player may select *)
(* ======================================================================= *)

Lemma meetsRequirements_existsb (player : Player) (noble : Noble) :
  existsb (fun color => col_get (bonuses player) color
                        <? col_get (requirements noble) color) GEM_COLORS
  = negb (meetsRequirements player noble).
Proof.
  unfold meetsRequirements. induction GEM_COLORS as [|c l IH]; cbn;
    [reflexivity|].
  rewrite IH, negb_andb, negb_involutive. reflexivity.
Qed.

(** X3. For a player of the state and a pool of nobles with distinct ids, the
    validator accepts the selection of a noble id exactly when
    [getEligibleNobles] lists that id for the player. *)
Theorem validateSelectNoble_iff_eligible (s : GameState) (pid nid : string)
  (player : Player) :
  getPlayerById s pid = Some player ->
  NoDup (map noble_id (nobles s)) ->
  (validateSelectNoble s pid nid = Ret Valid <->
   In nid (getEligibleNobles s pid)).
Proof.
  intros Hp Hnd. unfold getEligibleNobles. rewrite Hp. split.
  - intro Hv. destruct (validateSelectNoble_inv s pid nid Hv)
      as (player' & noble & Hp' & Hn & Hm).
    assert (player' = player) by congruence. subst player'.
    apply find_some in Hn. destruct Hn as [Hin Hid].
    apply String.eqb_eq in Hid. subst nid.
    apply in_map, filter_In. auto.
  - intro Hin. apply in_map_iff in Hin. destruct Hin as (noble & Hid & Hf).
    apply filter_In in Hf. destruct Hf as [Hin Hm]. subst nid.
    unfold validateSelectNoble. rewrite Hp.
    rewrite (find_unique noble_id (nobles s) noble Hnd Hin).
    rewrite meetsRequirements_existsb, Hm. reflexivity.
Qed.

Lemma validateSelectNoble_iff_eligible_witness :
  validateSelectNoble idleNoble "p2" "noble_07" = Ret Valid <->
  In "noble_07" (getEligibleNobles idleNoble "p2").
Proof.
  apply (validateSelectNoble_iff_eligible idleNoble "p2" "noble_07" erin).
  - reflexivity.
  - cbn. repeat (constructor; [cbn; intuition discriminate|]). constructor.
Defined.

(* ======================================================================= *)
(** * The shortfall a player is shown *)
(* ======================================================================= *)

Lemma goldStep_fold_le (l : list GemColor) (sf : ColoredGemCollection) (g : Z) :
  nonnegColored sf -> 0 <= g ->
  forall c, col_get (fst (fold_left goldStep l (sf, g))) c <= col_get sf c.
Proof.
  revert sf g. induction l as [|c0 l IH]; intros sf g Hsf Hg c; cbn [fold_left];
    [cbn; lia|].
  destruct (goldStep_fold [c0] sf g Hsf Hg) as (S1 & S2 & _).
  cbn [fold_left] in S1, S2.
  destruct (goldStep (sf, g) c0) as [sf1 g1] eqn:E. cbn [fst snd] in S1, S2.
  specialize (IH sf1 g1 S1 S2 c).
  assert (Hstep : col_get sf1 c <= col_get sf c).
  { unfold goldStep in E. cbn [fst snd] in E. pose proof (Hsf c0).
    destruct ((0 <? g) && (0 <? col_get sf c0)) eqn:B; inversion E; subst;
      [|lia].
    rewrite col_get_set. destruct (GemColor_eqb c0 c) eqn:Q; [|lia].
    assert (c0 = c) by (destruct c0, c; cbn in Q; congruence). subst. lia. }
  lia.
Qed.

(** X4. The shortfall [getCardShortfall] shows, for a found player holding no
    negative amount of gold and a found card: every entry lies between 0 and
    what the colour lacks before gold, and the entries sum to what all
    colours lack together minus the gold held, floored at 0. *)
Theorem getCardShortfall_after_gold (s : GameState) (pid cid : string)
  (player : Player) (card : DevelopmentCard) :
  getPlayerById s pid = Some player ->
  findCardForPlayer s player cid = Some card ->
  0 <= gem_get (gems player) gold ->
  (forall color,
     0 <= col_get (getCardShortfall s pid cid) color
          <= colorShortfall card player color)
  /\ coloredSum (getCardShortfall s pid cid)
     = Z.max 0 (fold_right Z.add 0 (map (colorShortfall card player) GEM_COLORS)
                - gem_get (gems player) gold).
Proof.
  intros Hp Hc Hgold.
  destruct (effectiveCost_get s pid cid player card Hp Hc) as (eff & He & Hget).
  unfold getCardShortfall. rewrite Hp, He.
  remember (fold_left (shortfallStep eff player) GEM_COLORS emptyColored)
    as raw eqn:Eraw.
  assert (Hrawc : forall c, col_get raw c = colorShortfall card player c).
  { intro c. rewrite Eraw, rawShortfall_get. unfold colorShortfall.
    rewrite Hget. reflexivity. }
  assert (Hraw : nonnegColored raw).
  { intro c. rewrite Hrawc. unfold colorShortfall. lia. }
  assert (Hsum : coloredSum raw
                 = fold_right Z.add 0
                     (map (colorShortfall card player) GEM_COLORS)).
  { rewrite coloredSum_get. f_equal. apply map_ext. exact Hrawc. }
  clear Eraw.
  pose proof (goldStep_fold GEM_COLORS raw _ Hraw Hgold) as G.
  pose proof (goldStep_fold_le GEM_COLORS raw _ Hraw Hgold) as L.
  remember (fold_left goldStep GEM_COLORS (raw, gem_get (gems player) gold))
    as r eqn:Er.
  clear Er. destruct G as (G1 & G2 & G3 & G4 & _ & _).
  split.
  - intro c. rewrite <- Hrawc. split; [apply G1|apply L].
  - rewrite <- Hsum.
    assert (Hnn : 0 <= coloredSum (fst r)).
    { rewrite coloredSum_get. unfold GEM_COLORS, map, fold_right.
      pose proof (G1 emerald); pose proof (G1 diamond);
        pose proof (G1 sapphire); pose proof (G1 onyx); pose proof (G1 ruby).
      lia. }
    destruct G4 as [G4|G4]; [lia|].
    assert (Hz : coloredSum (fst r) = 0).
    { rewrite coloredSum_get. unfold GEM_COLORS at 1. unfold map, fold_right.
      rewrite !G4; [lia| | | | |]; unfold GEM_COLORS, In; tauto. }
    lia.
Qed.

Lemma getCardShortfall_after_gold_witness :
  coloredSum (getCardShortfall purchaseScenario "p1" "c_e3")
  = Z.max 0 (fold_right Z.add 0
               (map (colorShortfall cardEmerald3 alice) GEM_COLORS)
             - gem_get (gems alice) gold).
Proof.
  apply (getCardShortfall_after_gold purchaseScenario "p1" "c_e3" alice
           cardEmerald3); [reflexivity | reflexivity | cbn; lia].
Defined.

(* ======================================================================= *)
(** * What createGame deals *)
(* ======================================================================= *)

Lemma shuffleLoop_calls {A : Type} (rand : RandomSource) (i calls : nat)
  (l : list A) :
  snd (shuffleLoop rand i calls l) = (calls + i)%nat.
Proof.
  revert calls l. induction i as [|i IH]; intros calls l; cbn [shuffleLoop snd].
  - lia.
  - rewrite IH. lia.
Qed.

(** X5. [shuffleArray] with a random source within the contract of
    [Math.random] returns a permutation of its argument, of the same
    length, and draws one random number per element but the first. *)
Theorem shuffleArray_permutes {A : Type} (rand : RandomSource) (calls : nat)
  (array : list A) :
  inContract rand ->
  Permutation (fst (shuffleArray rand calls array)) array
  /\ List.length (fst (shuffleArray rand calls array)) = List.length array
  /\ snd (shuffleArray rand calls array)
     = (calls + (List.length array - 1))%nat.
Proof.
  intros _. pose proof (shuffleArray_perm rand calls array) as P.
  split; [exact P|]. split; [apply Permutation_length, P|].
  unfold shuffleArray. apply shuffleLoop_calls.
Qed.

Lemma firstIndex_inContract : inContract firstIndex.
Proof. intros k bound H. exact H. Qed.

Lemma shuffleArray_permutes_witness :
  Permutation (fst (shuffleArray firstIndex 0 [1; 2; 3; 4])) [1; 2; 3; 4]
  /\ List.length (fst (shuffleArray firstIndex 0 [1; 2; 3; 4])) = 4%nat
  /\ snd (shuffleArray firstIndex 0 [1; 2; 3; 4]) = 3%nat.
Proof.
  apply (shuffleArray_permutes firstIndex 0 [1; 2; 3; 4]).
  exact firstIndex_inContract.
Defined.

(** The parts of the state [createGame] returns. *)
Lemma createInitialMarket_parts (a b c : list DevelopmentCard) :
  createInitialMarket (mkDecks a b c)
  = (mkMarket (map Some (firstn 4 a)) (map Some (firstn 4 b))
       (map Some (firstn 4 c)),
     mkDecks (skipn 4 a) (skipn 4 b) (skipn 4 c)).
Proof. reflexivity. Qed.

Lemma createShuffledDecks_parts (rand : RandomSource) (calls : nat) :
  exists c2 c3 c4,
    createShuffledDecks rand calls
    = (mkDecks (fst (shuffleArray rand calls (getCardsByTier Tier1)))
         (fst (shuffleArray rand c2 (getCardsByTier Tier2)))
         (fst (shuffleArray rand c3 (getCardsByTier Tier3))), c4).
Proof. unfold createShuffledDecks. eexists _, _, _. reflexivity. Qed.

Lemma selectNobles_parts (n : PlayerCount) (rand : RandomSource) (calls : nat) :
  fst (selectNobles n rand calls)
  = firstn (Z.to_nat (playerCount_value n + 1))
      (fst (shuffleArray rand calls getAllNobles)).
Proof. reflexivity. Qed.

Lemma createGame_parts (config : GameConfig)
  (playerInfos : list (string * string)) (rand : RandomSource)
  (freshId : string) (s : GameState) :
  createGame config playerInfos rand freshId = Ret s ->
  Z.of_nat (List.length playerInfos) = playerCount_value (playerCount config)
  /\ exists c1 c2 c3 c4,
       players s
       = fst (shuffleArray rand O
                (map (fun info => createPlayer (fst info) (snd info))
                   playerInfos))
       /\ market s
          = mkMarket
              (map Some
                 (firstn 4 (fst (shuffleArray rand c1 (getCardsByTier Tier1)))))
              (map Some
                 (firstn 4 (fst (shuffleArray rand c2 (getCardsByTier Tier2)))))
              (map Some
                 (firstn 4 (fst (shuffleArray rand c3 (getCardsByTier Tier3)))))
       /\ decks s
          = mkDecks (skipn 4 (fst (shuffleArray rand c1 (getCardsByTier Tier1))))
              (skipn 4 (fst (shuffleArray rand c2 (getCardsByTier Tier2))))
              (skipn 4 (fst (shuffleArray rand c3 (getCardsByTier Tier3))))
       /\ nobles s
          = firstn (Z.to_nat (playerCount_value (playerCount config) + 1))
              (fst (shuffleArray rand c4 getAllNobles)).
Proof.
  unfold createGame.
  destruct (Z.eqb_spec (Z.of_nat (List.length playerInfos))
              (playerCount_value (playerCount config))) as [E|E];
    cbn [negb]; [|discriminate].
  set (ordered := randomizePlayerOrder _ _ _).
  remember (snd ordered) as c1 eqn:E1.
  destruct (createShuffledDecks_parts rand c1) as (c2 & c3 & c4 & Ed).
  remember (createShuffledDecks rand c1) as shuffledDecks eqn:Es.
  remember (createInitialMarket (fst shuffledDecks)) as dealt eqn:Edealt.
  remember (selectNobles (playerCount config) rand (snd shuffledDecks))
    as chosen eqn:Ec.
  set (initialBank := createInitialBank _). clearbody initialBank.
  intro H. injection H as H. split; [exact E|].
  exists c1, c2, c3, c4. rewrite <- H. cbn [players market decks nobles].
  clear H s.
  rewrite Ed in Edealt, Ec. clear Es Ed shuffledDecks.
  change (fst (A := CardDecks) (B := nat) (?a, ?b)) with a in Edealt.
  rewrite createInitialMarket_parts in Edealt.
  rewrite Edealt, Ec, selectNobles_parts.
  split; [reflexivity|]. split; [reflexivity|]. split; reflexivity.
Qed.

Lemma nonNull_map_Some (l : list DevelopmentCard) : nonNull (map Some l) = l.
Proof.
  unfold nonNull. induction l as [|c l IH]; cbn [map flat_map app];
    [reflexivity | rewrite IH; reflexivity].
Qed.

Lemma deal_from_catalog (rand : RandomSource) (calls : nat)
  (catalog : list DevelopmentCard) :
  (4 <= List.length catalog)%nat ->
  Permutation
    (firstn 4 (fst (shuffleArray rand calls catalog))
     ++ skipn 4 (fst (shuffleArray rand calls catalog))) catalog
  /\ List.length (firstn 4 (fst (shuffleArray rand calls catalog))) = 4%nat
  /\ List.length (skipn 4 (fst (shuffleArray rand calls catalog)))
     = (List.length catalog - 4)%nat.
Proof.
  intro Hlen. pose proof (shuffleArray_perm rand calls catalog) as P.
  pose proof (Permutation_length P) as L.
  remember (fst (shuffleArray rand calls catalog)) as shuffled.
  rewrite firstn_skipn.
  split; [exact P|]. split.
  - rewrite length_firstn. lia.
  - rewrite length_skipn. lia.
Qed.

Lemma catalog_sizes (tier : CardTier) :
  List.length (getCardsByTier tier)
  = match tier with Tier1 => 40 | Tier2 => 30 | Tier3 => 20 end%nat.
Proof. destruct tier; vm_compute; reflexivity. Qed.

(** X6. In the state [createGame] returns with a random source within the
    contract, each tier shows 4 cards in its market and keeps 36, 26 and 16
    cards in its deck, and the market cards followed by the deck are a
    permutation of the tier's catalog: every card of the catalog is dealt
    exactly once. *)
Theorem createGame_deals_catalog (config : GameConfig)
  (playerInfos : list (string * string)) (rand : RandomSource)
  (freshId : string) (s : GameState) (tier : CardTier) :
  inContract rand ->
  createGame config playerInfos rand freshId = Ret s ->
  Permutation (getMarketCardsByTier s tier ++ getDeckByTier s tier)
    (getCardsByTier tier)
  /\ List.length (getMarketByTier s tier) = 4%nat
  /\ List.length (getMarketCardsByTier s tier) = 4%nat
  /\ List.length (getDeckByTier s tier)
     = match tier with Tier1 => 36 | Tier2 => 26 | Tier3 => 16 end%nat.
Proof.
  intros _ H. destruct (createGame_parts _ _ _ _ _ H)
    as (_ & c1 & c2 & c3 & _ & _ & Hm & Hd & _).
  assert (exists c,
             getMarketByTier s tier
             = map Some (firstn 4 (fst (shuffleArray rand c (getCardsByTier tier))))
             /\ getDeckByTier s tier
                = skipn 4 (fst (shuffleArray rand c (getCardsByTier tier))))
    as (c & Em & Edk).
  { unfold getMarketByTier, getDeckByTier. rewrite Hm, Hd.
    destruct tier; [exists c1 | exists c2 | exists c3]; split; reflexivity. }
  unfold getMarketCardsByTier.
  rewrite Em, Edk, nonNull_map_Some, length_map.
  pose proof (catalog_sizes tier) as Hsize.
  destruct (deal_from_catalog rand c (getCardsByTier tier)) as (P & L1 & L2).
  { rewrite Hsize. destruct tier; lia. }
  rewrite L1, L2, Hsize.
  split; [exact P|]. split; [reflexivity|]. split; [reflexivity|].
  destruct tier; reflexivity.
Qed.

Lemma createGame_deals_catalog_witness :
  Permutation (getMarketCardsByTier freshGame Tier1 ++ getDeckByTier freshGame Tier1)
    (getCardsByTier Tier1)
  /\ List.length (getMarketByTier freshGame Tier1) = 4%nat
  /\ List.length (getMarketCardsByTier freshGame Tier1) = 4%nat
  /\ List.length (getDeckByTier freshGame Tier1) = 36%nat.
Proof.
  apply (createGame_deals_catalog (mkConfig Two)
           [("p1", "Alice"); ("p2", "Bob")] firstIndex "game_1" freshGame Tier1).
  - exact firstIndex_inContract.
  - vm_compute. reflexivity.
Defined.

(** X7. The players of the state [createGame] returns, with a random source
    within the contract, are a permutation of the players created from the
    given infos: as many as [config.playerCount], each id exactly as often
    as it was given, and every player starts with no gems, no bonuses, no
    cards, no nobles and no prestige. *)
Theorem createGame_players (config : GameConfig)
  (playerInfos : list (string * string)) (rand : RandomSource)
  (freshId : string) (s : GameState) :
  inContract rand ->
  createGame config playerInfos rand freshId = Ret s ->
  Permutation (map player_id (players s)) (map fst playerInfos)
  /\ Z.of_nat (List.length (players s)) = playerCount_value (playerCount config)
  /\ forall p, In p (players s) ->
       gems p = createEmptyGemCollection
       /\ bonuses p = createEmptyColoredGemCollection
       /\ reservedCards p = [] /\ purchasedCards p = []
       /\ player_nobles p = [] /\ prestigePoints p = 0.
Proof.
  intros _ H. destruct (createGame_parts _ _ _ _ _ H)
    as (Hlen & _ & _ & _ & _ & Hp & _).
  pose proof (shuffleArray_perm rand O
                (map (fun info => createPlayer (fst info) (snd info))
                   playerInfos)) as P.
  rewrite <- Hp in P. split; [|split].
  - apply (Permutation_map player_id) in P. rewrite map_map in P. exact P.
  - rewrite (Permutation_length P), length_map. exact Hlen.
  - intros p Hin. apply (Permutation_in p P) in Hin.
    apply in_map_iff in Hin. destruct Hin as (info & E & _). subst p.
    cbn. auto 10.
Qed.

Lemma createGame_players_witness :
  Permutation (map player_id (players freshGame)) ["p1"; "p2"]
  /\ Z.of_nat (List.length (players freshGame)) = 2
  /\ forall p, In p (players freshGame) ->
       gems p = createEmptyGemCollection
       /\ bonuses p = createEmptyColoredGemCollection
       /\ reservedCards p = [] /\ purchasedCards p = []
       /\ player_nobles p = [] /\ prestigePoints p = 0.
Proof.
  apply (createGame_players (mkConfig Two) [("p1", "Alice"); ("p2", "Bob")]
           firstIndex "game_1" freshGame).
  - exact firstIndex_inContract.
  - vm_compute. reflexivity.
Defined.

(** X8. The nobles of the state [createGame] returns, with a random source
    within the contract, are [playerCount + 1] nobles of the catalog with
    distinct ids. *)
Theorem createGame_nobles (config : GameConfig)
  (playerInfos : list (string * string)) (rand : RandomSource)
  (freshId : string) (s : GameState) :
  inContract rand ->
  createGame config playerInfos rand freshId = Ret s ->
  Z.of_nat (List.length (nobles s)) = playerCount_value (playerCount config) + 1
  /\ NoDup (map noble_id (nobles s))
  /\ forall n, In n (nobles s) -> In n getAllNobles.
Proof.
  intros _ H. destruct (createGame_noblesWellFormed _ _ _ _ _ H) as [Hnd _].
  destruct (createGame_parts _ _ _ _ _ H)
    as (_ & _ & _ & _ & c4 & _ & _ & _ & Hn).
  pose proof (shuffleArray_perm rand c4 getAllNobles) as P.
  pose proof (Permutation_length P) as L.
  assert (List.length getAllNobles = 10%nat) as Hsize
      by (vm_compute; reflexivity).
  remember (fst (shuffleArray rand c4 getAllNobles)) as shuffled.
  split; [|split; [exact Hnd|]].
  - rewrite Hn, length_firstn, L, Hsize.
    destruct (playerCount config); cbn; lia.
  - intros n Hin. rewrite Hn in Hin. apply (Permutation_in n P).
    rewrite <- (firstn_skipn
                  (Z.to_nat (playerCount_value (playerCount config) + 1))
                  shuffled).
    apply in_or_app. left. exact Hin.
Qed.

Lemma createGame_nobles_witness :
  Z.of_nat (List.length (nobles freshGame)) = 3
  /\ NoDup (map noble_id (nobles freshGame))
  /\ forall n, In n (nobles freshGame) -> In n getAllNobles.
Proof.
  apply (createGame_nobles (mkConfig Two) [("p1", "Alice"); ("p2", "Bob")]
           firstIndex "game_1" freshGame).
  - exact firstIndex_inContract.
  - vm_compute. reflexivity.
Defined.

(* ======================================================================= *)
(** * The writes of an action *)
(* ======================================================================= *)

Lemma length_replaceAt {A : Type} (i : nat) (v : A) (l : list A) :
  List.length (replaceAt i v l) = List.length l.
Proof.
  revert i. induction l as [|x l IH]; intros [|i]; cbn; auto.
Qed.

Lemma getMarketByTier_set_deckByTier (s : GameState) (t t' : CardTier)
  (rest : list DevelopmentCard) :
  getMarketByTier (set_deckByTier t' rest s) t = getMarketByTier s t.
Proof. destruct t, t'; reflexivity. Qed.

Lemma bankToPlayer_economy (pid : string) (gem : GemType) (n : Z)
  (s : GameState) : economy s (bankToPlayer pid gem n s).
Proof.
  unfold bankToPlayer.
  eapply eco_trans; [apply (eco_bank (gem_add (bank s) gem (- n)))|].
  apply (eco_gems pid (fun p => gem_add (gems p) gem n)).
Qed.

Lemma playerToBank_economy (pid : string) (gem : GemType) (n : Z)
  (s : GameState) : economy s (playerToBank pid gem n s).
Proof.
  unfold playerToBank.
  eapply eco_trans; [apply (eco_gems pid (fun p => gem_add (gems p) gem (- n)))|].
  apply eco_bank.
Qed.

Lemma fold_left_economy {A : Type} (f : GameState -> A -> GameState)
  (l : list A) (s : GameState) :
  (forall st a, economy st (f st a)) -> economy s (fold_left f l s).
Proof.
  intro H. revert s. induction l as [|a l IH]; intro s; cbn [fold_left].
  - apply eco_refl.
  - eapply eco_trans; [apply H | apply IH].
Qed.

Lemma removeFromSlots_length (cid : string)
  (slots slots' : list (option DevelopmentCard)) (card : DevelopmentCard) :
  removeFromSlots cid slots = Some (card, slots') ->
  List.length slots' = List.length slots.
Proof.
  unfold removeFromSlots.
  destruct (findIndex (slotHasId cid) slots) as [i|]; [|discriminate].
  destruct (nth_error slots i) as [[c|]|]; try discriminate.
  intro H. injection H as _ H. subst slots'. apply length_replaceAt.
Qed.

Lemma removeCardFromMarket_economy (s : GameState) (cid : string) :
  economy s (snd (removeCardFromMarket s cid)).
Proof.
  unfold removeCardFromMarket.
  destruct (removeFromSlots cid (market_tier1 (market s))) as [[c1 l1]|] eqn:E1.
  { apply (eco_market Tier1). apply (removeFromSlots_length _ _ _ _ E1). }
  destruct (removeFromSlots cid (market_tier2 (market s))) as [[c2 l2]|] eqn:E2.
  { apply (eco_market Tier2). apply (removeFromSlots_length _ _ _ _ E2). }
  destruct (removeFromSlots cid (market_tier3 (market s))) as [[c3 l3]|] eqn:E3.
  { apply (eco_market Tier3). apply (removeFromSlots_length _ _ _ _ E3). }
  apply eco_refl.
Qed.

Lemma refillMarketSlot_economy (s : GameState) (tier : CardTier) :
  economy s (refillMarketSlot s tier).
Proof.
  unfold refillMarketSlot.
  destruct (getDeckByTier s tier) as [|card rest] eqn:Ed; [apply eco_refl|].
  destruct (findIndex isNull (getMarketByTier s tier)) as [i|];
    [|apply eco_refl].
  eapply eco_trans; [apply (eco_deck tier card rest s Ed)|].
  apply eco_market.
  rewrite length_replaceAt, getMarketByTier_set_deckByTier. reflexivity.
Qed.

Lemma takeReservedCard_economy (s : GameState) (cardId : option string)
  (tier : CardTier) : economy s (snd (takeReservedCard s cardId tier)).
Proof.
  unfold takeReservedCard. destruct cardId as [cid|].
  - pose proof (removeCardFromMarket_economy s cid) as H.
    destruct (removeCardFromMarket s cid) as [[card|] st]; cbn [snd] in *.
    + eapply eco_trans; [exact H | apply refillMarketSlot_economy].
    + exact H.
  - destruct (getDeckByTier s tier) as [|card rest] eqn:Ed; cbn [snd].
    + apply eco_refl.
    + apply (eco_deck tier card rest s Ed).
Qed.

Lemma validateReserveCard_inv (s : GameState) (pid : string)
  (cardId : option string) (tier : CardTier) :
  validateReserveCard s pid cardId tier = Ret Valid ->
  exists player,
    getPlayerById s pid = Some player
    /\ Z.of_nat (List.length (reservedCards player))
       < GAME_CONSTANTS.MAX_RESERVED_CARDS
    /\ match cardId with
       | Some cid => findCardInMarket s cid <> None
       | None => getDeckByTier s tier <> []
       end.
Proof.
  unfold validateReserveCard.
  destruct (isPlayersTurn s pid) as [turn|e]; cbn [bind]; [|discriminate].
  destruct turn; cbn [negb]; [|discriminate].
  destruct (getPlayerById s pid) as [player|]; [|discriminate].
  destruct (Z.leb_spec GAME_CONSTANTS.MAX_RESERVED_CARDS
              (Z.of_nat (List.length (reservedCards player)))) as [Hle|Hlt];
    [discriminate|].
  intro H. exists player. split; [reflexivity|]. split; [exact Hlt|].
  destruct cardId as [cid|].
  - destruct (findCardInMarket s cid); [discriminate | discriminate H].
  - destruct (getDeckByTier s tier); [discriminate H | discriminate].
Qed.

Lemma validateAction_inv (s : GameState) (a : PlayerAction) :
  validateAction s a = Ret Valid ->
  isGameInProgress s = true
  /\ match a with
     | TAKE_THREE_GEMS pid gs => validateTakeThreeGems s pid gs = Ret Valid
     | TAKE_TWO_GEMS pid g => validateTakeTwoGems s pid g = Ret Valid
     | RESERVE_CARD pid cid tier => validateReserveCard s pid cid tier = Ret Valid
     | PURCHASE_CARD pid cid _ => validatePurchaseCard s pid cid = Ret Valid
     | SELECT_NOBLE pid nid => validateSelectNoble s pid nid = Ret Valid
     | DISCARD_GEMS pid es => validateDiscardGems s pid es = Ret Valid
     end.
Proof.
  unfold validateAction. destruct (isGameInProgress s); cbn [negb];
    [|discriminate].
  intro H. split; [reflexivity|]. destruct a; exact H.
Qed.

Lemma payGems_economy (pid : string) (payment : Payment) (s : GameState) :
  economy s (payGems pid payment s).
Proof.
  unfold payGems. eapply eco_trans; [|apply playerToBank_economy].
  apply fold_left_economy. intros st color. apply playerToBank_economy.
Qed.

Lemma discardEntries_economy (pid : string)
  (entries : list (GemType * option Z)) (s s1 : GameState) :
  discardEntries pid entries s = Ret s1 -> economy s s1.
Proof.
  revert s. induction entries as [|[gem [count|]] rest IH]; intro s;
    cbn [discardEntries].
  - intro H. injection H as H. subst s1. apply eco_refl.
  - destruct (count <=? 0); [apply IH|].
    destruct (getPlayerById s pid); [|discriminate].
    intro H. eapply eco_trans; [apply playerToBank_economy | apply IH, H].
  - apply IH.
Qed.

Lemma actionEffect_economy (s : GameState) (a : PlayerAction) (s1 : GameState) :
  validateAction s a = Ret Valid ->
  actionEffect s a = Ret s1 -> economy s s1.
Proof.
  intros Hv H. apply validateAction_inv in Hv. destruct Hv as [_ Hv].
  destruct a as [pid gs|pid g|pid cid tier|pid cid gu|pid nid|pid es];
    cbn [actionEffect] in H.
  - unfold takeThreeGemsEffect, cloneGameState in H.
    destruct (getPlayerById s pid); [|discriminate].
    injection H as H. subst s1. apply fold_left_economy.
    intros st gem. apply bankToPlayer_economy.
  - unfold takeTwoGemsEffect, cloneGameState in H.
    destruct (getPlayerById s pid); [|discriminate].
    injection H as H. subst s1. apply bankToPlayer_economy.
  - apply validateReserveCard_inv in Hv.
    destruct Hv as (player & Hp & Hlen & _).
    unfold reserveCardEffect, cloneGameState in H. rewrite Hp in H.
    pose proof (takeReservedCard_economy s cid tier) as Ht.
    destruct (takeReservedCard_same s cid tier) as (Hps & _).
    destruct (takeReservedCard s cid tier) as [taken st]. cbn [fst snd] in *.
    injection H as H. subst s1.
    eapply eco_trans; [exact Ht|].
    assert (economy st
              match taken with
              | Some card =>
                mutatePlayer pid
                  (fun p => set_reservedCards (reservedCards p ++ [card]) p) st
              | None => st
              end) as Hr.
    { destruct taken as [card|]; [|apply eco_refl].
      apply eco_reserve. intros p Hq. unfold getPlayerById in Hq, Hp.
      rewrite Hps, Hp in Hq. injection Hq as Hq. subst p. exact Hlen. }
    eapply eco_trans; [exact Hr|].
    match goal with
    | |- economy _ (if ?b then _ else _) =>
      destruct b; [apply bankToPlayer_economy | apply eco_refl]
    end.
  - unfold purchaseCardEffect, cloneGameState in H.
    destruct (calculatePayment s pid cid) as [payment|]; [|discriminate].
    destruct (getPlayerById s pid) as [player|]; [|discriminate].
    unfold takePurchasedCard in H.
    pose proof (removeCardFromMarket_economy s cid) as Hm.
    destruct (removeCardFromMarket s cid) as [[card|] st]; cbn [snd] in Hm.
    + injection H as H. subst s1.
      eapply eco_trans; [exact Hm|].
      eapply eco_trans; [apply payGems_economy|].
      eapply eco_trans; [apply eco_receiveCard|].
      apply refillMarketSlot_economy.
    + destruct (findIndex _ (reservedCards player)) as [i|]; [|discriminate].
      destruct (nth_error (reservedCards player) i) as [card|];
        [|discriminate].
      injection H as H. subst s1.
      eapply eco_trans; [exact Hm|].
      eapply eco_trans; [apply eco_unreserve|].
      eapply eco_trans; [apply payGems_economy|].
      apply eco_receiveCard.
  - injection H as H. subst s1. apply eco_refl.
  - unfold discardGemsEffect, cloneGameState in H.
    destruct (discardEntries pid es s) as [st|e] eqn:Ed; cbn [bind] in H;
      [|discriminate].
    injection H as H. subst s1.
    eapply eco_trans; [apply (discardEntries_economy _ _ _ _ Ed)|].
    apply eco_discarded.
Qed.

Lemma checkGameEndAndAdvance_turnEnd (s : GameState) :
  turnEnd s (checkGameEndAndAdvance s).
Proof.
  unfold checkGameEndAndAdvance.
  eapply turn_trans; [apply turn_trigger | apply turn_advance].
Qed.

Lemma checkNobleAndAdvance_turnEnd (s : GameState) (pid : string)
  (s' : GameState) :
  checkNobleAndAdvance s pid = Ret s' -> turnEnd s s'.
Proof.
  destruct (getPlayerById s pid) as [player|] eqn:Hp.
  - pose proof (checkNobleAndAdvance_cases s pid player Hp) as H.
    destruct (filter (meetsRequirements player) (nobles s)) as [|n [|n' r]].
    + rewrite H. intro E. injection E as E. subst s'.
      apply checkGameEndAndAdvance_turnEnd.
    + destruct H as (i & noble & _ & Hn & _ & H). rewrite H.
      intro E. injection E as E. subst s'.
      eapply turn_trans; [apply (turn_noble pid i noble s Hn)|].
      apply checkGameEndAndAdvance_turnEnd.
    + rewrite H. intro E. injection E as E. subst s'.
      apply turn_pendingNoble.
  - unfold checkNobleAndAdvance, getEligibleNobles. rewrite Hp.
    intro E. injection E as E. subst s'.
    apply checkGameEndAndAdvance_turnEnd.
Qed.

Lemma finishTurn_turnEnd (s : GameState) (pid : string) (s' : GameState) :
  finishTurn s pid = Ret s' -> turnEnd s s'.
Proof.
  unfold finishTurn. destruct (getPlayerById s pid) as [player|];
    [|discriminate].
  destruct (GAME_CONSTANTS.MAX_GEMS <? playerTotalGems player).
  - intro E. injection E as E. subst s'. apply turn_pendingDiscard.
  - apply checkNobleAndAdvance_turnEnd.
Qed.

Lemma applySelectNoble_turnEnd (s : GameState) (pid nid : string)
  (s' : GameState) :
  applySelectNoble s pid nid = Ret s' -> turnEnd s s'.
Proof.
  unfold applySelectNoble, cloneGameState.
  destruct (findIndex _ (nobles s)) as [i|]; [|discriminate].
  cbn [spliceOne fst snd].
  destruct (getPlayerById (set_nobles (removeAt i (nobles s)) s) pid);
    [|discriminate].
  destruct (nth_error (nobles s) i) as [noble|] eqn:Hn; [|discriminate].
  intro E. injection E as E. subst s'.
  eapply turn_trans; [apply (turn_noble pid i noble s Hn)|].
  eapply turn_trans; [apply (turn_pendingNoble None)|].
  apply checkGameEndAndAdvance_turnEnd.
Qed.

(** An applied action is accepted, and its result is the economic effect of
    the action followed by writes of the end-of-turn pipeline. *)
Lemma applyAction_trace (s : GameState) (a : PlayerAction) (s' : GameState) :
  applyAction s a = Ret s' ->
  validateAction s a = Ret Valid
  /\ exists s1, actionEffect s a = Ret s1 /\ economy s s1 /\ turnEnd s1 s'.
Proof.
  unfold applyAction.
  destruct (validateAction s a) as [[|code]|e] eqn:Hv; cbn [bind];
    try discriminate.
  intro H. split; [reflexivity|].
  assert (exists s1, actionEffect s a = Ret s1 /\ turnEnd s1 s') as (s1 & He & Ht).
  { destruct a as [pid gs|pid g|pid cid tier|pid cid gu|pid nid|pid es];
      cbn [applyActionUnsafe actionEffect] in *.
    - unfold applyTakeThreeGems in H.
      destruct (takeThreeGemsEffect s pid gs) as [s1|e]; cbn [bind] in H;
        [|discriminate].
      exists s1. split; [reflexivity | apply (finishTurn_turnEnd _ _ _ H)].
    - unfold applyTakeTwoGems in H.
      destruct (takeTwoGemsEffect s pid g) as [s1|e]; cbn [bind] in H;
        [|discriminate].
      exists s1. split; [reflexivity | apply (finishTurn_turnEnd _ _ _ H)].
    - unfold applyReserveCard in H.
      destruct (reserveCardEffect s pid cid tier) as [s1|e]; cbn [bind] in H;
        [|discriminate].
      exists s1. split; [reflexivity | apply (finishTurn_turnEnd _ _ _ H)].
    - unfold applyPurchaseCard in H.
      destruct (purchaseCardEffect s pid cid) as [s1|e]; cbn [bind] in H;
        [|discriminate].
      exists s1. split; [reflexivity | apply (finishTurn_turnEnd _ _ _ H)].
    - exists s. split; [reflexivity | apply (applySelectNoble_turnEnd _ _ _ _ H)].
    - unfold applyDiscardGems in H.
      destruct (discardGemsEffect s pid es) as [s1|e]; cbn [bind] in H;
        [|discriminate].
      exists s1. split;
        [reflexivity | apply (checkNobleAndAdvance_turnEnd _ _ _ H)]. }
  exists s1. split; [exact He|]. split; [|exact Ht].
  apply (actionEffect_economy s a s1 Hv He).
Qed.

Ltac same_players :=
  cbn [game_id phase players currentPlayerIndex bank market decks nobles round
       endGameTriggeredBy winners pendingGemDiscard pendingNobleSelection
       mutatePlayer set_players set_bank set_nobles set_pendingGemDiscard
       set_pendingNobleSelection];
  rewrite ?map_withPlayer by (intro; reflexivity);
  reflexivity.

Lemma checkGameEndTrigger_keeps (s : GameState) :
  seatsOf (checkGameEndTrigger s) = seatsOf s
  /\ holdingsOf (checkGameEndTrigger s) = holdingsOf s.
Proof.
  unfold checkGameEndTrigger.
  destruct (phase s); try (split; reflexivity);
    destruct (find _ (players s)); split; reflexivity.
Qed.

Lemma advanceTurn_keeps (s : GameState) :
  seatsOf (advanceTurn s) = seatsOf s
  /\ holdingsOf (advanceTurn s) = holdingsOf s.
Proof.
  unfold advanceTurn, checkGameEnd.
  destruct (phase s) eqn:E; cbn; rewrite ?E;
    try destruct (Z.rem (currentPlayerIndex s + 1)
                    (Z.of_nat (List.length (players s))) =? 0);
    cbn; rewrite ?E; split; reflexivity.
Qed.

Lemma economy_seats (s s' : GameState) :
  economy s s' -> seatsOf s' = seatsOf s.
Proof.
  induction 1 as [s|s1 s2 s3 _ IH1 _ IH2|b s|pid g s|tier slots s _
                  |tier card rest s _|pid card s _|pid i s|pid card s|s];
    try congruence; unfold seatsOf; try same_players;
    destruct tier; reflexivity.
Qed.

Lemma economy_turnState (s s' : GameState) :
  economy s s' -> turnStateOf s' = turnStateOf s.
Proof.
  induction 1 as [s|s1 s2 s3 _ IH1 _ IH2|b s|pid g s|tier slots s _
                  |tier card rest s _|pid card s _|pid i s|pid card s|s];
    try congruence; unfold turnStateOf; try same_players;
    destruct tier; reflexivity.
Qed.

Lemma turnEnd_seats (s s' : GameState) :
  turnEnd s s' -> seatsOf s' = seatsOf s.
Proof.
  induction 1 as [s|s1 s2 s3 _ IH1 _ IH2|pid s|v s|pid i noble s _|s|s];
    try congruence; try (unfold seatsOf; same_players).
  - apply checkGameEndTrigger_keeps.
  - apply advanceTurn_keeps.
Qed.

Lemma turnEnd_holdings (s s' : GameState) :
  turnEnd s s' -> holdingsOf s' = holdingsOf s.
Proof.
  induction 1 as [s|s1 s2 s3 _ IH1 _ IH2|pid s|v s|pid i noble s _|s|s];
    try congruence; try (unfold holdingsOf; same_players).
  - apply checkGameEndTrigger_keeps.
  - apply advanceTurn_keeps.
Qed.

(* ======================================================================= *)
(** * Invariants of play *)
(* ======================================================================= *)

(** X9. An applied action keeps the table: the id of the game, and the ids
    and names of the players in their order, are those of the state the
    action was applied to. *)
Theorem applyAction_keeps_seats (s : GameState) (a : PlayerAction)
  (s' : GameState) :
  applyAction s a = Ret s' ->
  game_id s' = game_id s
  /\ map player_id (players s') = map player_id (players s)
  /\ map player_name (players s') = map player_name (players s)
  /\ List.length (players s') = List.length (players s).
Proof.
  intro H. apply applyAction_trace in H.
  destruct H as (_ & s1 & _ & He & Ht).
  apply economy_seats in He. apply turnEnd_seats in Ht.
  rewrite He in Ht. unfold seatsOf in Ht. injection Ht as Hg Hi Hn.
  repeat split; try assumption.
  rewrite <- (length_map player_id (players s')), Hi. apply length_map.
Qed.

Lemma applyAction_keeps_seats_witness :
  game_id (stateOf (applyAction freshGame (TAKE_TWO_GEMS "p2" (colored ruby))))
  = game_id freshGame
  /\ map player_id
       (players (stateOf (applyAction freshGame
                            (TAKE_TWO_GEMS "p2" (colored ruby)))))
     = map player_id (players freshGame)
  /\ map player_name
       (players (stateOf (applyAction freshGame
                            (TAKE_TWO_GEMS "p2" (colored ruby)))))
     = map player_name (players freshGame)
  /\ List.length
       (players (stateOf (applyAction freshGame
                            (TAKE_TWO_GEMS "p2" (colored ruby)))))
     = List.length (players freshGame).
Proof.
  apply (applyAction_keeps_seats freshGame (TAKE_TWO_GEMS "p2" (colored ruby))).
  vm_compute. reflexivity.
Defined.

Lemma checkNobleAndAdvance_outcome (s : GameState) (pid : string)
  (s' : GameState) :
  checkNobleAndAdvance s pid = Ret s' -> turnOutcome pid s s'.
Proof.
  unfold turnOutcome. destruct (getPlayerById s pid) as [player|] eqn:Hp.
  - pose proof (checkNobleAndAdvance_cases s pid player Hp) as H.
    destruct (filter (meetsRequirements player) (nobles s)) as [|n [|n' r]].
    + rewrite H. intro E. injection E as E. subst s'.
      right. right. exists s. split; [apply award_none | reflexivity].
    + destruct H as (i & noble & _ & Hn & _ & H). rewrite H.
      intro E. injection E as E. subst s'.
      right. right. eexists.
      split; [apply (award_noble pid i noble s); [congruence | exact Hn]|].
      reflexivity.
    + rewrite H. intro E. injection E as E. subst s'. right. left. reflexivity.
  - unfold checkNobleAndAdvance, getEligibleNobles. rewrite Hp.
    intro E. injection E as E. subst s'.
    right. right. exists s. split; [apply award_none | reflexivity].
Qed.

Lemma finishTurn_outcome (s : GameState) (pid : string) (s' : GameState) :
  finishTurn s pid = Ret s' -> turnOutcome pid s s'.
Proof.
  unfold finishTurn. destruct (getPlayerById s pid) as [player|];
    [|discriminate].
  destruct (GAME_CONSTANTS.MAX_GEMS <? playerTotalGems player).
  - intro E. injection E as E. subst s'. left. reflexivity.
  - apply checkNobleAndAdvance_outcome.
Qed.

Lemma applySelectNoble_outcome (s : GameState) (pid nid : string)
  (s' : GameState) :
  applySelectNoble s pid nid = Ret s' -> turnOutcome pid s s'.
Proof.
  unfold applySelectNoble, cloneGameState.
  destruct (findIndex _ (nobles s)) as [i|]; [|discriminate].
  cbn [spliceOne fst snd].
  change (getPlayerById (set_nobles (removeAt i (nobles s)) s) pid)
    with (getPlayerById s pid).
  destruct (getPlayerById s pid) as [player|] eqn:Hp; [|discriminate].
  destruct (nth_error (nobles s) i) as [noble|] eqn:Hn; [|discriminate].
  intro E. injection E as E. subst s'.
  right. right. eexists.
  split; [apply (award_selected pid i noble s); [congruence | exact Hn]|].
  reflexivity.
Qed.

(** An applied action is accepted; its result is the outcome of the
    end-of-turn pipeline on the economic effect of the action. *)
Lemma applyAction_outcome (s : GameState) (a : PlayerAction) (s' : GameState) :
  applyAction s a = Ret s' ->
  validateAction s a = Ret Valid
  /\ exists s1, actionEffect s a = Ret s1 /\ economy s s1
                /\ turnOutcome (action_playerId a) s1 s'.
Proof.
  intro H0. pose proof H0 as H. unfold applyAction in H.
  destruct (validateAction s a) as [[|code]|e] eqn:Hv; cbn [bind] in H;
    try discriminate.
  split; [reflexivity|].
  assert (exists s1, actionEffect s a = Ret s1
                     /\ turnOutcome (action_playerId a) s1 s')
    as (s1 & He & Ht).
  { destruct a as [pid gs|pid g|pid cid tier|pid cid gu|pid nid|pid es];
      cbn [applyActionUnsafe actionEffect action_playerId] in *.
    - unfold applyTakeThreeGems in H.
      destruct (takeThreeGemsEffect s pid gs) as [s1|e]; cbn [bind] in H;
        [|discriminate].
      exists s1. split; [reflexivity | apply (finishTurn_outcome _ _ _ H)].
    - unfold applyTakeTwoGems in H.
      destruct (takeTwoGemsEffect s pid g) as [s1|e]; cbn [bind] in H;
        [|discriminate].
      exists s1. split; [reflexivity | apply (finishTurn_outcome _ _ _ H)].
    - unfold applyReserveCard in H.
      destruct (reserveCardEffect s pid cid tier) as [s1|e]; cbn [bind] in H;
        [|discriminate].
      exists s1. split; [reflexivity | apply (finishTurn_outcome _ _ _ H)].
    - unfold applyPurchaseCard in H.
      destruct (purchaseCardEffect s pid cid) as [s1|e]; cbn [bind] in H;
        [|discriminate].
      exists s1. split; [reflexivity | apply (finishTurn_outcome _ _ _ H)].
    - exists s. split;
        [reflexivity | apply (applySelectNoble_outcome _ _ _ _ H)].
    - unfold applyDiscardGems in H.
      destruct (discardGemsEffect s pid es) as [s1|e]; cbn [bind] in H;
        [|discriminate].
      exists s1. split;
        [reflexivity | apply (checkNobleAndAdvance_outcome _ _ _ H)]. }
  exists s1. split; [exact He|]. split; [|exact Ht].
  apply (actionEffect_economy s a s1 Hv He).
Qed.

(** The scalars the turn is counted with, before [checkGameEndAndAdvance]. *)
Lemma award_scalars (s s' : GameState) :
  award s s' ->
  phase s' = phase s /\ currentPlayerIndex s' = currentPlayerIndex s
  /\ round s' = round s /\ endGameTriggeredBy s' = endGameTriggeredBy s
  /\ winners s' = winners s
  /\ List.length (players s') = List.length (players s).
Proof.
  destruct 1; cbn [phase currentPlayerIndex round endGameTriggeredBy winners
                   players mutatePlayer set_players set_nobles
                   set_pendingNobleSelection];
    rewrite ?length_withPlayer; auto 10.
Qed.

Lemma isGameInProgress_rank (s : GameState) :
  isGameInProgress s = true <-> 1 <= phaseRank (phase s) <= 2.
Proof.
  unfold isGameInProgress. destruct (phase s); cbn; split;
    try discriminate; try lia; reflexivity.
Qed.

Lemma checkGameEndAndAdvance_progress (s : GameState) :
  phaseRank (phase s) <= phaseRank (phase (checkGameEndAndAdvance s))
  /\ round s <= round (checkGameEndAndAdvance s) <= round s + 1.
Proof.
  unfold checkGameEndAndAdvance, checkGameEndTrigger, advanceTurn, checkGameEnd.
  destruct (phase s) eqn:E; cbn; rewrite ?E;
    try destruct (find _ (players s)); cbn; rewrite ?E;
    try match goal with
        | |- context [if ?b then _ else _] => destruct b
        end; cbn; rewrite ?E; cbn; lia.
Qed.

Lemma economy_scalars (s s' : GameState) :
  economy s s' ->
  phase s' = phase s /\ currentPlayerIndex s' = currentPlayerIndex s
  /\ round s' = round s /\ nobles s' = nobles s
  /\ endGameTriggeredBy s' = endGameTriggeredBy s
  /\ winners s' = winners s
  /\ pendingNobleSelection s' = pendingNobleSelection s
  /\ map player_nobles (players s') = map player_nobles (players s).
Proof.
  intro H. apply economy_turnState in H. unfold turnStateOf in H.
  injection H. intros. repeat split; assumption.
Qed.

(** X10. An applied action never takes the phase back (playing, then the
    final round, then ended) and raises the round number by at most one:
    the state it starts from is in progress and the round of the result is
    the same or the next. *)
Theorem applyAction_progress (s : GameState) (a : PlayerAction)
  (s' : GameState) :
  applyAction s a = Ret s' ->
  1 <= phaseRank (phase s) <= 2
  /\ phaseRank (phase s) <= phaseRank (phase s')
  /\ round s <= round s' <= round s + 1.
Proof.
  intro H. apply applyAction_outcome in H.
  destruct H as (Hv & s1 & _ & He & Ht).
  apply validateAction_inv in Hv. destruct Hv as [Hp _].
  apply isGameInProgress_rank in Hp.
  destruct (economy_scalars _ _ He) as (Hph & _ & Hr & _).
  destruct Ht as [Ht|[Ht|(s2 & Ha & Ht)]]; subst s'.
  - cbn [phase round set_pendingGemDiscard]. rewrite Hph, Hr. lia.
  - cbn [phase round set_pendingNobleSelection]. rewrite Hph, Hr. lia.
  - destruct (award_scalars _ _ Ha) as (Hph2 & _ & Hr2 & _).
    pose proof (checkGameEndAndAdvance_progress s2) as Hc.
    rewrite Hph2, Hr2, Hph, Hr in Hc. lia.
Qed.

Lemma applyAction_progress_witness :
  1 <= phaseRank (phase lastTurn) <= 2
  /\ phaseRank (phase lastTurn)
     <= phaseRank (phase (stateOf (applyAction lastTurn
                                     (TAKE_TWO_GEMS "p1" (colored ruby)))))
  /\ round lastTurn
     <= round (stateOf (applyAction lastTurn
                          (TAKE_TWO_GEMS "p1" (colored ruby))))
     <= round lastTurn + 1.
Proof.
  apply (applyAction_progress lastTurn (TAKE_TWO_GEMS "p1" (colored ruby))).
  vm_compute. reflexivity.
Defined.

Lemma createGame_scalars (config : GameConfig)
  (playerInfos : list (string * string)) (rand : RandomSource)
  (freshId : string) (s : GameState) :
  createGame config playerInfos rand freshId = Ret s ->
  phase s = playing /\ currentPlayerIndex s = 0 /\ round s = 1
  /\ endGameTriggeredBy s = None /\ winners s = []
  /\ pendingGemDiscard s = None /\ pendingNobleSelection s = None.
Proof.
  unfold createGame.
  destruct (negb _); [discriminate|].
  set (ordered := randomizePlayerOrder _ _ _).
  set (shuffledDecks := createShuffledDecks _ _).
  set (dealt := createInitialMarket _).
  set (initialBank := createInitialBank _).
  set (chosen := selectNobles _ _ _).
  clearbody chosen initialBank dealt shuffledDecks ordered.
  intro H. injection H as E. rewrite <- E. cbn. auto 10.
Qed.

Lemma createGame_player_created (config : GameConfig)
  (playerInfos : list (string * string)) (rand : RandomSource)
  (freshId : string) (s : GameState) (p : Player) :
  createGame config playerInfos rand freshId = Ret s ->
  In p (players s) ->
  exists id name, p = createPlayer id name.
Proof.
  intros H Hin. destruct (createGame_parts _ _ _ _ _ H)
    as (_ & _ & _ & _ & _ & Hp & _).
  pose proof (shuffleArray_perm rand O
                (map (fun info => createPlayer (fst info) (snd info))
                   playerInfos)) as P.
  rewrite <- Hp in P. apply (Permutation_in p P) in Hin.
  apply in_map_iff in Hin. destruct Hin as (info & E & _).
  exists (fst info), (snd info). symmetry. exact E.
Qed.

Lemma createGame_seated (config : GameConfig)
  (playerInfos : list (string * string)) (rand : RandomSource)
  (freshId : string) (s : GameState) :
  createGame config playerInfos rand freshId = Ret s ->
  2 <= Z.of_nat (List.length (players s)) <= 4.
Proof.
  intro H. destruct (createGame_parts _ _ _ _ _ H)
    as (Hlen & _ & _ & _ & _ & Hp & _).
  pose proof (shuffleArray_perm rand O
                (map (fun info => createPlayer (fst info) (snd info))
                   playerInfos)) as P.
  rewrite <- Hp in P. rewrite (Permutation_length P), length_map, Hlen.
  destruct (playerCount config); cbn; lia.
Qed.

Lemma checkGameEndAndAdvance_index (s : GameState) :
  0 <= currentPlayerIndex s < Z.of_nat (List.length (players s)) ->
  0 <= currentPlayerIndex (checkGameEndAndAdvance s)
    < Z.of_nat (List.length (players (checkGameEndAndAdvance s))).
Proof.
  intro H. destruct (checkGameEndAndAdvance_same s) as (Hp & _).
  rewrite Hp. unfold checkGameEndAndAdvance.
  destruct (checkGameEndTrigger_fields s) as (Hp' & Hi' & _).
  destruct (phase (checkGameEndTrigger s)) eqn:E.
  1-3: rewrite advanceTurn_index by congruence; rewrite Hp', Hi';
    apply Z.rem_bound_pos; lia.
  unfold advanceTurn. rewrite E, Hi'. exact H.
Qed.

(** X11. In every state of a game the current player index points into the
    player list, so there is a current player and [isPlayersTurn] answers
    for every player id without throwing. *)
Theorem reachable_current_player (s : GameState) :
  reachable s ->
  0 <= currentPlayerIndex s < Z.of_nat (List.length (players s))
  /\ exists p, getCurrentPlayer s = Some p
       /\ forall pid, isPlayersTurn s pid = Ret (player_id p =? pid)%string.
Proof.
  intro H.
  assert (0 <= currentPlayerIndex s < Z.of_nat (List.length (players s)))
    as Hr.
  { induction H as [config infos rand freshId s Hc|s a s' _ IH Ha].
    - destruct (createGame_scalars _ _ _ _ _ Hc) as (_ & Hi & _).
      pose proof (createGame_seated _ _ _ _ _ Hc). lia.
    - apply applyAction_outcome in Ha.
      destruct Ha as (_ & s1 & _ & He & Ht).
      destruct (economy_scalars _ _ He) as (_ & Hi & _).
      pose proof (economy_seats _ _ He) as Hs. unfold seatsOf in Hs.
      injection Hs as _ Hs _.
      apply (f_equal (@List.length string)) in Hs.
      rewrite !length_map in Hs.
      destruct Ht as [Ht|[Ht|(s2 & Haw & Ht)]]; subst s'.
      + cbn [currentPlayerIndex players set_pendingGemDiscard]. lia.
      + cbn [currentPlayerIndex players set_pendingNobleSelection]. lia.
      + destruct (award_scalars _ _ Haw) as (_ & Hi2 & _ & _ & _ & Hl2).
        apply checkGameEndAndAdvance_index. lia. }
  split; [exact Hr|].
  unfold isPlayersTurn, getCurrentPlayer.
  destruct (Z.ltb_spec (currentPlayerIndex s) 0) as [Hneg|_]; [lia|].
  destruct (nth_error (players s) (Z.to_nat (currentPlayerIndex s)))
    as [p|] eqn:E.
  - exists p. split; [reflexivity | intro pid; reflexivity].
  - apply nth_error_None in E. lia.
Qed.

Lemma reachable_current_player_witness :
  0 <= currentPlayerIndex freshGame
    < Z.of_nat (List.length (players freshGame))
  /\ exists p, getCurrentPlayer freshGame = Some p
       /\ forall pid,
            isPlayersTurn freshGame pid = Ret (player_id p =? pid)%string.
Proof.
  apply (reachable_current_player freshGame).
  apply (reachable_created (mkConfig Two) [("p1", "Alice"); ("p2", "Bob")]
           firstIndex "game_1").
  vm_compute. reflexivity.
Defined.

Lemma Forall_withPlayer (P : Player -> Prop) (pid : string)
  (f : Player -> Player) (ps : list Player) :
  Forall P ps ->
  (forall p, find (fun q => player_id q =? pid)%string ps = Some p ->
             P p -> P (f p)) ->
  Forall P (withPlayer pid f ps).
Proof.
  induction 1 as [|q ps Hq Hps IH]; intro Hf; cbn [withPlayer].
  - constructor.
  - cbn [find] in Hf. destruct (player_id q =? pid)%string.
    + constructor; [apply Hf; [reflexivity | exact Hq] | exact Hps].
    + constructor; [exact Hq | apply IH, Hf].
Qed.

Section PlayerInvariant.

Variable P : Player -> Prop.
Hypothesis P_created : forall id name, P (createPlayer id name).
Hypothesis P_gems : forall p g, P p -> P (set_gems g p).
Hypothesis P_reserve :
  forall p card,
    Z.of_nat (List.length (reservedCards p))
    < GAME_CONSTANTS.MAX_RESERVED_CARDS ->
    P p -> P (set_reservedCards (reservedCards p ++ [card]) p).
Hypothesis P_unreserve :
  forall p i, P p -> P (set_reservedCards (removeAt i (reservedCards p)) p).
Hypothesis P_card : forall p card, P p -> P (receiveCard card p).
Hypothesis P_noble : forall p noble, P p -> P (receiveNoble noble p).

Lemma economy_players (s s' : GameState) :
  economy s s' -> Forall P (players s) -> Forall P (players s').
Proof.
  induction 1 as [s|s1 s2 s3 _ IH1 _ IH2|b s|pid g s|tier slots s _
                  |tier card rest s _|pid card s Hlen|pid i s|pid card s|s];
    intro H; auto;
    try (cbn [players mutatePlayer set_players]; apply Forall_withPlayer;
         auto).
  - destruct tier; exact H.
  - destruct tier; exact H.
Qed.

Lemma turnOutcome_players (pid : string) (s s' : GameState) :
  turnOutcome pid s s' -> Forall P (players s) -> Forall P (players s').
Proof.
  intros [H|[H|(s2 & Ha & H)]] Hs; subst s'; try exact Hs.
  destruct (checkGameEndAndAdvance_same s2) as (Hp & _). rewrite Hp.
  destruct Ha as [s|pid' i noble s _ _|pid' i noble s _ _]; auto;
    cbn [players mutatePlayer set_players set_nobles
         set_pendingNobleSelection];
    apply Forall_withPlayer; auto.
Qed.

Lemma reachable_players (s : GameState) :
  reachable s -> Forall P (players s).
Proof.
  induction 1 as [config infos rand freshId s Hc|s a s' _ IH Ha].
  - apply Forall_forall. intros p Hin.
    destruct (createGame_player_created _ _ _ _ _ p Hc Hin)
      as (id & name & E).
    subst p. apply P_created.
  - apply applyAction_outcome in Ha.
    destruct Ha as (_ & s1 & _ & He & Ht).
    apply (turnOutcome_players _ _ _ Ht).
    apply (economy_players _ _ He IH).
Qed.

End PlayerInvariant.

Lemma sumZ_app (l1 l2 : list Z) : sumZ (l1 ++ l2) = sumZ l1 + sumZ l2.
Proof.
  unfold sumZ. induction l1 as [|x l1 IH]; cbn [app fold_right]; lia.
Qed.

Lemma bonusCount_app (color : GemColor) (l1 l2 : list DevelopmentCard) :
  bonusCount color (l1 ++ l2) = bonusCount color l1 + bonusCount color l2.
Proof.
  unfold bonusCount. rewrite filter_app, length_app. lia.
Qed.

Lemma bonusCount_one (color : GemColor) (card : DevelopmentCard) :
  bonusCount color [card] = if GemColor_eqb (bonus card) color then 1 else 0.
Proof.
  unfold bonusCount. cbn [filter].
  destruct (GemColor_eqb (bonus card) color); reflexivity.
Qed.

(** X12. In every state of a game the books of every player balance: the
    prestige points are the sum of the points of the purchased cards and of
    the nobles received, and the bonus of each colour is the number of
    purchased cards that give that colour. *)
Theorem reachable_books_balanced (s : GameState) :
  reachable s -> Forall booksBalanced (players s).
Proof.
  apply reachable_players; unfold booksBalanced.
  - intros id name. split; [reflexivity | intros []; reflexivity].
  - intros p g H. exact H.
  - intros p card _ H. exact H.
  - intros p i H. exact H.
  - intros p card [Hp Hb]. unfold receiveCard.
    cbn [prestigePoints purchasedCards player_nobles bonuses
         set_prestigePoints set_bonuses set_purchasedCards].
    split.
    + rewrite map_app, sumZ_app, Hp. cbn. lia.
    + intro color. rewrite col_get_set, bonusCount_app, bonusCount_one.
      destruct (GemColor_eqb (bonus card) color) eqn:E.
      * assert (bonus card = color) as ->
            by (destruct (bonus card), color; try discriminate; reflexivity).
        rewrite Hb. lia.
      * rewrite Hb. lia.
  - intros p noble [Hp Hb]. unfold receiveNoble.
    cbn [prestigePoints purchasedCards player_nobles bonuses
         set_prestigePoints set_player_nobles].
    split; [|exact Hb].
    rewrite map_app, sumZ_app, Hp. cbn. lia.
Qed.

Lemma reachable_books_balanced_witness :
  Forall booksBalanced (players freshGame).
Proof.
  apply (reachable_books_balanced freshGame).
  apply (reachable_created (mkConfig Two) [("p1", "Alice"); ("p2", "Bob")]
           firstIndex "game_1").
  vm_compute. reflexivity.
Defined.

(** X13. In every state of a game no player holds more than
    [MAX_RESERVED_CARDS] (3) reserved cards. *)
Theorem reachable_reserved_limit (s : GameState) :
  reachable s ->
  Forall (fun p => Z.of_nat (List.length (reservedCards p))
                   <= GAME_CONSTANTS.MAX_RESERVED_CARDS) (players s).
Proof.
  apply (reachable_players
           (fun p => Z.of_nat (List.length (reservedCards p))
                     <= GAME_CONSTANTS.MAX_RESERVED_CARDS)).
  - intros id name. cbn. unfold GAME_CONSTANTS.MAX_RESERVED_CARDS. lia.
  - intros p g H. exact H.
  - intros p card Hlt _. cbn [reservedCards set_reservedCards].
    rewrite length_app. cbn [List.length]. lia.
  - intros p i H. cbn [reservedCards set_reservedCards].
    assert (List.length (removeAt i (reservedCards p))
            <= List.length (reservedCards p))%nat as Hle; [|lia].
    clear H. revert i. induction (reservedCards p) as [|c l IH]; intros [|i];
      cbn [removeAt List.length]; try lia.
    specialize (IH i). lia.
  - intros p card H. exact H.
  - intros p noble H. exact H.
Qed.

Lemma reachable_reserved_limit_witness :
  Forall (fun p => Z.of_nat (List.length (reservedCards p))
                   <= GAME_CONSTANTS.MAX_RESERVED_CARDS) (players freshGame).
Proof.
  apply (reachable_reserved_limit freshGame).
  apply (reachable_created (mkConfig Two) [("p1", "Alice"); ("p2", "Bob")]
           firstIndex "game_1").
  vm_compute. reflexivity.
Defined.

Lemma checkGameEndAndAdvance_books (s : GameState) :
  isGameInProgress s = true ->
  endGameBooks s -> endGameBooks (checkGameEndAndAdvance s).
Proof.
  unfold isGameInProgress, endGameBooks, checkGameEndAndAdvance,
    checkGameEndTrigger, advanceTurn, checkGameEnd.
  destruct (phase s) eqn:E; try discriminate; intros _ [Ht Hw];
    try destruct (find _ (players s)); cbn; rewrite ?E; cbn;
    try match goal with
        | |- context [if ?b then _ else _] => destruct b
        end; cbn; rewrite ?E; cbn;
    split; try assumption; try discriminate; reflexivity.
Qed.

(** X14. In every state of a game the end-game bookkeeping is consistent
    with the phase: while the game is played nobody has triggered the end
    and there is no winner; in the final round the trigger is set and there
    is still no winner; once ended, the winners are those
    [determineWinners] gives for the final table. The phase is never
    [waiting]. *)
Theorem reachable_end_game_books (s : GameState) :
  reachable s -> endGameBooks s.
Proof.
  induction 1 as [config infos rand freshId s Hc|s a s' _ IH Ha].
  - destruct (createGame_scalars _ _ _ _ _ Hc) as (Hp & _ & _ & Ht & Hw & _).
    unfold endGameBooks. rewrite Hp. auto.
  - apply applyAction_outcome in Ha.
    destruct Ha as (Hv & s1 & _ & He & Ht).
    apply validateAction_inv in Hv. destruct Hv as [Hprog _].
    destruct (economy_scalars _ _ He) as (Hph & _ & _ & _ & Htr & Hw & _).
    assert (isGameInProgress s1 = true /\ endGameBooks s1) as [Hprog1 Hb1].
    { unfold isGameInProgress, endGameBooks in *. rewrite Hph, Htr, Hw.
      split; [exact Hprog|]. destruct (phase s); try discriminate; exact IH. }
    destruct Ht as [Ht|[Ht|(s2 & Haw & Ht)]]; subst s'; try exact Hb1.
    apply checkGameEndAndAdvance_books.
    + destruct (award_scalars _ _ Haw) as (Hph2 & _).
      unfold isGameInProgress in *. rewrite Hph2. exact Hprog1.
    + destruct (award_scalars _ _ Haw) as (Hph2 & _ & _ & Htr2 & Hw2 & _).
      unfold isGameInProgress, endGameBooks in *. rewrite Hph2, Htr2, Hw2.
      destruct (phase s1); try discriminate; exact Hb1.
Qed.

Lemma reachable_end_game_books_witness : endGameBooks freshGame.
Proof.
  apply (reachable_end_game_books freshGame).
  apply (reachable_created (mkConfig Two) [("p1", "Alice"); ("p2", "Bob")]
           firstIndex "game_1").
  vm_compute. reflexivity.
Defined.

(* ======================================================================= *)
(** * The cards on the table *)
(* ======================================================================= *)


Lemma getMarketByTier_set_same (s : GameState) (t : CardTier)
  (l : list (option DevelopmentCard)) :
  getMarketByTier (set_marketByTier t l s) t = l.
Proof. destruct t; reflexivity. Qed.

Lemma getMarketByTier_set_other (s : GameState) (t t' : CardTier)
  (l : list (option DevelopmentCard)) :
  t' <> t -> getMarketByTier (set_marketByTier t l s) t' = getMarketByTier s t'.
Proof. destruct t, t'; intro H; try reflexivity; contradiction H; reflexivity. Qed.

Lemma getDeckByTier_set_marketByTier (s : GameState) (t t' : CardTier)
  (l : list (option DevelopmentCard)) :
  getDeckByTier (set_marketByTier t l s) t' = getDeckByTier s t'.
Proof. destruct t, t'; reflexivity. Qed.

Lemma getDeckByTier_set_same (s : GameState) (t : CardTier)
  (l : list DevelopmentCard) :
  getDeckByTier (set_deckByTier t l s) t = l.
Proof. destruct t; reflexivity. Qed.

Lemma getDeckByTier_set_other (s : GameState) (t t' : CardTier)
  (l : list DevelopmentCard) :
  t' <> t -> getDeckByTier (set_deckByTier t l s) t' = getDeckByTier s t'.
Proof. destruct t, t'; intro H; try reflexivity; contradiction H; reflexivity. Qed.


Lemma nth_error_replaceAt_same {A : Type} (i : nat) (v : A) (l : list A) :
  (i < List.length l)%nat -> nth_error (replaceAt i v l) i = Some v.
Proof.
  revert i. induction l as [|y l IH]; intros [|i]; cbn [replaceAt List.length nth_error];
    try lia; auto.
  intro H. apply IH. lia.
Qed.


Lemma findIndex_isNull (slots : list (option DevelopmentCard)) (j : nat) :
  findIndex isNull slots = Some j -> nth_error slots j = Some None.
Proof.
  intro H. apply findIndex_find in H. destruct H as (x & Hn & _ & Hx).
  destruct x; [discriminate Hx | exact Hn].
Qed.



Lemma removeFromSlots_shape (cid : string)
  (slots slots' : list (option DevelopmentCard)) (card : DevelopmentCard) :
  removeFromSlots cid slots = Some (card, slots') ->
  exists i, nth_error slots i = Some (Some card)
            /\ slots' = replaceAt i None slots.
Proof.
  unfold removeFromSlots.
  destruct (findIndex (slotHasId cid) slots) as [i|]; [|discriminate].
  destruct (nth_error slots i) as [[c|]|] eqn:E; try discriminate.
  intro H. injection H as H1 H2. subst. exists i. split; [exact E | reflexivity].
Qed.

Lemma removeCardFromMarket_shape (s : GameState) (cid : string) :
  match removeCardFromMarket s cid with
  | (Some card, st) =>
    exists t i,
      nth_error (getMarketByTier s t) i = Some (Some card)
      /\ st = set_marketByTier t (replaceAt i None (getMarketByTier s t)) s
  | (None, st) => st = s
  end.
Proof.
  unfold removeCardFromMarket.
  destruct (removeFromSlots cid (market_tier1 (market s))) as [[c1 l1]|] eqn:E1.
  { apply removeFromSlots_shape in E1. destruct E1 as (i & Hi & ->).
    exists Tier1, i. split; [exact Hi | reflexivity]. }
  destruct (removeFromSlots cid (market_tier2 (market s))) as [[c2 l2]|] eqn:E2.
  { apply removeFromSlots_shape in E2. destruct E2 as (i & Hi & ->).
    exists Tier2, i. split; [exact Hi | reflexivity]. }
  destruct (removeFromSlots cid (market_tier3 (market s))) as [[c3 l3]|] eqn:E3.
  { apply removeFromSlots_shape in E3. destruct E3 as (i & Hi & ->).
    exists Tier3, i. split; [exact Hi | reflexivity]. }
  reflexivity.
Qed.

Lemma refillMarketSlot_shape (x : GameState) (t : CardTier) :
  (forall t', t' <> t ->
     getMarketByTier (refillMarketSlot x t) t' = getMarketByTier x t'
     /\ getDeckByTier (refillMarketSlot x t) t' = getDeckByTier x t')
  /\ match getDeckByTier x t, findIndex isNull (getMarketByTier x t) with
     | c :: rest, Some j =>
       getMarketByTier (refillMarketSlot x t) t
       = replaceAt j (Some c) (getMarketByTier x t)
       /\ getDeckByTier (refillMarketSlot x t) t = rest
     | _, _ => refillMarketSlot x t = x
     end.
Proof.
  unfold refillMarketSlot.
  destruct (getDeckByTier x t) as [|c rest] eqn:Ed.
  { split; [intros; split; reflexivity | reflexivity]. }
  destruct (findIndex isNull (getMarketByTier x t)) as [j|] eqn:Ej.
  2: { split; [intros; split; reflexivity | reflexivity]. }
  split.
  - intros t' Hn. split.
    + rewrite getMarketByTier_set_other by exact Hn.
      apply getMarketByTier_set_deckByTier.
    + rewrite getDeckByTier_set_marketByTier.
      apply getDeckByTier_set_other, Hn.
  - split.
    + apply getMarketByTier_set_same.
    + rewrite getDeckByTier_set_marketByTier. apply getDeckByTier_set_same.
Qed.




Lemma bankToPlayer_cardsView (pid : string) (gem : GemType) (n : Z)
  (s : GameState) : cardsView (bankToPlayer pid gem n s) = cardsView s.
Proof. unfold cardsView, bankToPlayer. same_players. Qed.

Lemma playerToBank_cardsView (pid : string) (gem : GemType) (n : Z)
  (s : GameState) : cardsView (playerToBank pid gem n s) = cardsView s.
Proof. unfold cardsView, playerToBank. same_players. Qed.

Lemma fold_left_cardsView {A : Type} (f : GameState -> A -> GameState)
  (l : list A) (s : GameState) :
  (forall st a, cardsView (f st a) = cardsView st) ->
  cardsView (fold_left f l s) = cardsView s.
Proof.
  intro H. revert s. induction l as [|a l IH]; intro s; cbn [fold_left].
  - reflexivity.
  - rewrite IH. apply H.
Qed.

Lemma payGems_cardsView (pid : string) (payment : Payment) (s : GameState) :
  cardsView (payGems pid payment s) = cardsView s.
Proof.
  unfold payGems. rewrite playerToBank_cardsView.
  apply fold_left_cardsView. intros st color. apply playerToBank_cardsView.
Qed.

Lemma discardEntries_cardsView (pid : string)
  (entries : list (GemType * option Z)) (s s1 : GameState) :
  discardEntries pid entries s = Ret s1 -> cardsView s1 = cardsView s.
Proof.
  revert s. induction entries as [|[gem [count|]] rest IH]; intro s;
    cbn [discardEntries].
  - intro H. injection H as H. subst s1. reflexivity.
  - destruct (count <=? 0); [apply IH|].
    destruct (getPlayerById s pid); [|discriminate].
    intro H. rewrite (IH _ H). apply playerToBank_cardsView.
  - apply IH.
Qed.

(** Taking gems and discarding gems leave every card where it is. *)
Lemma gemEffect_cardsView (s : GameState) (a : PlayerAction) (s1 : GameState) :
  actionEffect s a = Ret s1 ->
  match a with
  | RESERVE_CARD _ _ _ | PURCHASE_CARD _ _ _ => False
  | _ => True
  end ->
  cardsView s1 = cardsView s.
Proof.
  destruct a as [pid gs|pid g|pid cid tier|pid cid gu|pid nid|pid es];
    cbn [actionEffect]; intros H Ha; try contradiction.
  - unfold takeThreeGemsEffect, cloneGameState in H.
    destruct (getPlayerById s pid); [|discriminate].
    injection H as H. subst s1. apply fold_left_cardsView.
    intros st gem. apply bankToPlayer_cardsView.
  - unfold takeTwoGemsEffect, cloneGameState in H.
    destruct (getPlayerById s pid); [|discriminate].
    injection H as H. subst s1. apply bankToPlayer_cardsView.
  - injection H as H. subst s1. reflexivity.
  - unfold discardGemsEffect, cloneGameState in H.
    destruct (discardEntries pid es s) as [st|e] eqn:Ed; cbn [bind] in H;
      [|discriminate].
    injection H as H. subst s1.
    rewrite <- (discardEntries_cardsView _ _ _ _ Ed). reflexivity.
Qed.

(** The state a reservation leaves: the card taken from the table, pushed
    on the player's reserved cards, and possibly one gold token moved. *)
Lemma reserveCardEffect_shape (s : GameState) (pid : string)
  (cid : option string) (tier : CardTier) (s1 : GameState) :
  reserveCardEffect s pid cid tier = Ret s1 ->
  exists player,
    getPlayerById s pid = Some player
    /\ cardsView s1
       = cardsView
           match fst (takeReservedCard s cid tier) with
           | Some card =>
             mutatePlayer pid
               (fun p => set_reservedCards (reservedCards p ++ [card]) p)
               (snd (takeReservedCard s cid tier))
           | None => snd (takeReservedCard s cid tier)
           end.
Proof.
  unfold reserveCardEffect, cloneGameState.
  destruct (getPlayerById s pid) as [player|]; [|discriminate].
  intro H. injection H as H. subst s1. exists player. split; [reflexivity|].
  match goal with
  | |- context [if ?b then _ else _] => destruct b
  end; [apply bankToPlayer_cardsView | reflexivity].
Qed.

(** The state a purchase leaves: the card comes from the market (and the
    row is refilled) or from the player's reserved cards; the payment is
    made and the card received. *)
Lemma purchaseCardEffect_shape (s : GameState) (pid cid : string)
  (s1 : GameState) :
  purchaseCardEffect s pid cid = Ret s1 ->
  exists player payment,
    getPlayerById s pid = Some player
    /\ calculatePayment s pid cid = Some payment
    /\ ((exists card st,
           removeCardFromMarket s cid = (Some card, st)
           /\ s1 = refillMarketSlot
                     (mutatePlayer pid (receiveCard card)
                        (payGems pid payment st)) (card_tier card))
        \/ (exists i card,
              removeCardFromMarket s cid = (None, s)
              /\ nth_error (reservedCards player) i = Some card
              /\ s1 = mutatePlayer pid (receiveCard card)
                        (payGems pid payment
                           (mutatePlayer pid
                              (fun p => set_reservedCards
                                          (removeAt i (reservedCards p)) p)
                              s)))).
Proof.
  unfold purchaseCardEffect, cloneGameState.
  destruct (calculatePayment s pid cid) as [payment|]; [|discriminate].
  destruct (getPlayerById s pid) as [player|]; [|discriminate].
  unfold takePurchasedCard.
  pose proof (removeCardFromMarket_shape s cid) as Hs.
  destruct (removeCardFromMarket s cid) as [[card|] st].
  - intro H. injection H as H. subst s1. exists player, payment.
    split; [reflexivity|]. split; [reflexivity|].
    left. exists card, st. split; reflexivity.
  - subst st.
    destruct (findIndex _ (reservedCards player)) as [i|]; [|discriminate].
    destruct (nth_error (reservedCards player) i) as [card|] eqn:En;
      [|discriminate].
    intro H. injection H as H. subst s1. exists player, payment.
    split; [reflexivity|]. split; [reflexivity|].
    right. exists i, card. split; [reflexivity|]. split; [exact En|reflexivity].
Qed.









(* ======================================================================= *)
(** * Conservation of cards and nobles *)
(* ======================================================================= *)

Lemma nonNull_remove (slots : list (option DevelopmentCard)) (i : nat)
  (card : DevelopmentCard) :
  nth_error slots i = Some (Some card) ->
  Permutation (card :: nonNull (replaceAt i None slots)) (nonNull slots).
Proof.
  unfold nonNull. revert i.
  induction slots as [|x slots IH]; intros [|i]; cbn [nth_error];
    try discriminate.
  - intro H. injection H as H. subst x. cbn. apply Permutation_refl.
  - intro H. cbn [replaceAt flat_map].
    eapply Permutation_trans; [apply Permutation_middle|].
    apply Permutation_app_head. apply IH, H.
Qed.

Lemma nonNull_fill (slots : list (option DevelopmentCard)) (j : nat)
  (c : DevelopmentCard) :
  nth_error slots j = Some None ->
  Permutation (nonNull (replaceAt j (Some c) slots)) (c :: nonNull slots).
Proof.
  unfold nonNull. revert j.
  induction slots as [|x slots IH]; intros [|j]; cbn [nth_error];
    try discriminate.
  - intro H. injection H as H. subst x. cbn. apply Permutation_refl.
  - intro H. cbn [replaceAt flat_map].
    eapply Permutation_trans; [apply Permutation_app_head, IH, H|].
    symmetry. apply Permutation_middle.
Qed.

(** A change of one tier of the table that gives up the cards [rem] and
    takes in the cards [add]. *)
Lemma tableCards_update (s s' : GameState) (t : CardTier)
  (rem add : list DevelopmentCard) :
  (forall t', t' <> t ->
     getMarketByTier s' t' = getMarketByTier s t'
     /\ getDeckByTier s' t' = getDeckByTier s t') ->
  Permutation (rem ++ tierCards s' t) (add ++ tierCards s t) ->
  Permutation (rem ++ tableCards s') (add ++ tableCards s).
Proof.
  intros Ho Ht.
  assert (forall t', t' <> t -> tierCards s' t' = tierCards s t') as Hsame.
  { intros t' Hn. unfold tierCards. destruct (Ho t' Hn) as [-> ->].
    reflexivity. }
  unfold tableCards. destruct t.
  - rewrite (Hsame Tier2), (Hsame Tier3) by discriminate.
    rewrite !app_assoc. apply Permutation_app_tail.
    rewrite <- !app_assoc.
    rewrite (app_assoc rem), (app_assoc add).
    apply Permutation_app_tail. exact Ht.
  - rewrite (Hsame Tier1), (Hsame Tier3) by discriminate.
    eapply Permutation_trans; [apply Permutation_app_swap_app|].
    eapply Permutation_trans; [|apply Permutation_app_swap_app].
    apply Permutation_app_head.
    rewrite !app_assoc. apply Permutation_app_tail. exact Ht.
  - rewrite (Hsame Tier1), (Hsame Tier2) by discriminate.
    rewrite (app_assoc (tierCards s Tier1) (tierCards s Tier2)
               (tierCards s' Tier3)),
      (app_assoc (tierCards s Tier1) (tierCards s Tier2) (tierCards s Tier3)).
    eapply Permutation_trans; [apply Permutation_app_swap_app|].
    eapply Permutation_trans; [|apply Permutation_app_swap_app].
    apply Permutation_app_head. exact Ht.
Qed.

Lemma refillMarketSlot_tableCards (x : GameState) (t : CardTier) :
  Permutation (tableCards (refillMarketSlot x t)) (tableCards x).
Proof.
  destruct (refillMarketSlot_shape x t) as [Ho Hat].
  destruct (getDeckByTier x t) as [|c rest] eqn:Ed;
    [rewrite Hat; apply Permutation_refl|].
  destruct (findIndex isNull (getMarketByTier x t)) as [j|] eqn:Ej;
    [|rewrite Hat; apply Permutation_refl].
  destruct Hat as [Hm Hd]. apply findIndex_isNull in Ej.
  apply (tableCards_update x _ t [] [] Ho). cbn [app].
  unfold tierCards. rewrite Hm, Hd, Ed.
  eapply Permutation_trans;
    [apply Permutation_app_tail, (nonNull_fill _ _ _ Ej)|].
  cbn [app]. apply Permutation_middle.
Qed.

Lemma removal_tableCards (s : GameState) (t : CardTier) (i : nat)
  (card : DevelopmentCard) :
  nth_error (getMarketByTier s t) i = Some (Some card) ->
  Permutation
    (card :: tableCards
               (set_marketByTier t (replaceAt i None (getMarketByTier s t)) s))
    (tableCards s).
Proof.
  intro Hi.
  apply (tableCards_update s _ t [card] []).
  - intros t' Hn. split.
    + apply getMarketByTier_set_other, Hn.
    + apply getDeckByTier_set_marketByTier.
  - cbn [app]. unfold tierCards.
    rewrite getMarketByTier_set_same, getDeckByTier_set_marketByTier.
    apply (Permutation_app_tail _ (nonNull_remove _ _ _ Hi)).
Qed.

Lemma draw_tableCards (s : GameState) (t : CardTier) (card : DevelopmentCard)
  (rest : list DevelopmentCard) :
  getDeckByTier s t = card :: rest ->
  Permutation (card :: tableCards (set_deckByTier t rest s)) (tableCards s).
Proof.
  intro Hd.
  apply (tableCards_update s _ t [card] []).
  - intros t' Hn. split.
    + apply getMarketByTier_set_deckByTier.
    + apply getDeckByTier_set_other, Hn.
  - cbn [app]. unfold tierCards.
    rewrite getMarketByTier_set_deckByTier, getDeckByTier_set_same, Hd.
    apply Permutation_middle.
Qed.

(** A mutation of the player with the id that gives up the cards [rem] and
    takes in the cards [add]. *)
Lemma hands_withPlayer (pid : string) (f : Player -> Player)
  (ps : list Player) (p : Player) (rem add : list DevelopmentCard) :
  find (fun q => player_id q =? pid)%string ps = Some p ->
  Permutation (rem ++ handCards (f p)) (add ++ handCards p) ->
  Permutation (rem ++ flat_map handCards (withPlayer pid f ps))
    (add ++ flat_map handCards ps).
Proof.
  intros Hfind Hp. induction ps as [|q ps IH]; [discriminate|].
  cbn [find withPlayer] in *. destruct (player_id q =? pid)%string.
  - injection Hfind as Hfind. subst q. cbn [flat_map].
    rewrite !app_assoc. apply Permutation_app_tail. exact Hp.
  - cbn [flat_map].
    eapply Permutation_trans; [apply Permutation_app_swap_app|].
    eapply Permutation_trans; [|apply Permutation_app_swap_app].
    apply Permutation_app_head. apply IH, Hfind.
Qed.

Lemma hands_of_view (ps ps' : list Player) :
  map reservedCards ps' = map reservedCards ps ->
  map purchasedCards ps' = map purchasedCards ps ->
  flat_map handCards ps' = flat_map handCards ps.
Proof.
  revert ps'. induction ps as [|p ps IH]; intros [|p' ps']; cbn [map];
    try discriminate; auto.
  intros Hr Hp. injection Hr as Hr1 Hr2. injection Hp as Hp1 Hp2.
  cbn [flat_map]. unfold handCards at 1 3. rewrite Hr1, Hp1.
  f_equal. apply IH; assumption.
Qed.

Lemma cardsView_allCards (s s' : GameState) :
  cardsView s' = cardsView s -> allCards s' = allCards s.
Proof.
  unfold cardsView. intro H. injection H as Hm Hd Hr Hp.
  unfold allCards, tableCards, tierCards, getMarketByTier, getDeckByTier.
  rewrite Hm, Hd, (hands_of_view _ _ Hr Hp). reflexivity.
Qed.

Lemma mutatePlayer_allCards (pid : string) (f : Player -> Player)
  (s : GameState) (p : Player) (rem add : list DevelopmentCard) :
  getPlayerById s pid = Some p ->
  Permutation (rem ++ handCards (f p)) (add ++ handCards p) ->
  Permutation (rem ++ allCards (mutatePlayer pid f s)) (add ++ allCards s).
Proof.
  intros Hp Hperm. unfold allCards.
  change (tableCards (mutatePlayer pid f s)) with (tableCards s).
  cbn [players mutatePlayer set_players].
  eapply Permutation_trans; [apply Permutation_app_swap_app|].
  eapply Permutation_trans; [|apply Permutation_app_swap_app].
  apply Permutation_app_head.
  apply (hands_withPlayer pid f (players s) p rem add Hp Hperm).
Qed.

Lemma takeReservedCard_allCards (s : GameState) (cid : option string)
  (tier : CardTier) :
  match fst (takeReservedCard s cid tier) with
  | Some card =>
    Permutation (card :: tableCards (snd (takeReservedCard s cid tier)))
      (tableCards s)
  | None => snd (takeReservedCard s cid tier) = s
  end.
Proof.
  unfold takeReservedCard. destruct cid as [cid|].
  - pose proof (removeCardFromMarket_shape s cid) as Hs.
    destruct (removeCardFromMarket s cid) as [[card|] st]; cbn [fst snd].
    + destruct Hs as (t & i & Hi & ->).
      eapply Permutation_trans; [|apply (removal_tableCards s t i card Hi)].
      apply perm_skip. apply refillMarketSlot_tableCards.
    + exact Hs.
  - destruct (getDeckByTier s tier) as [|card rest] eqn:Ed; cbn [fst snd].
    + reflexivity.
    + apply (draw_tableCards s tier card rest Ed).
Qed.

Lemma tableCards_players (s s' : GameState) :
  market s' = market s -> decks s' = decks s -> tableCards s' = tableCards s.
Proof.
  intros Hm Hd. unfold tableCards, tierCards, getMarketByTier, getDeckByTier.
  rewrite Hm, Hd. reflexivity.
Qed.

Lemma allCards_table (s s' : GameState) (rem add : list DevelopmentCard) :
  players s' = players s ->
  Permutation (rem ++ tableCards s') (add ++ tableCards s) ->
  Permutation (rem ++ allCards s') (add ++ allCards s).
Proof.
  intros Hp H. unfold allCards. rewrite Hp, !app_assoc.
  apply Permutation_app_tail. exact H.
Qed.

Lemma same_ids_found (ps ps' : list Player) (pid : string) (p : Player) :
  map player_id ps' = map player_id ps ->
  find (fun q => player_id q =? pid)%string ps = Some p ->
  exists q, find (fun q => player_id q =? pid)%string ps' = Some q.
Proof.
  revert ps'. induction ps as [|x ps IH]; intros [|x' ps']; cbn [map find];
    try discriminate.
  intros H. injection H as Hx Hrest. rewrite Hx.
  destruct (player_id x =? pid)%string.
  - intros _. exists x'. reflexivity.
  - apply IH, Hrest.
Qed.

Lemma seats_ids (s s' : GameState) :
  seatsOf s' = seatsOf s ->
  map player_id (players s') = map player_id (players s).
Proof.
  intro H. apply (f_equal (fun x => snd (fst x))) in H. exact H.
Qed.

Lemma economy_found (s s' : GameState) (pid : string) (p : Player) :
  economy s s' -> getPlayerById s pid = Some p ->
  exists q, getPlayerById s' pid = Some q.
Proof.
  intros He Hp. apply economy_seats, seats_ids in He.
  apply (same_ids_found _ _ pid p He Hp).
Qed.

Lemma refillMarketSlot_allCards (x : GameState) (t : CardTier) :
  Permutation (allCards (refillMarketSlot x t)) (allCards x).
Proof.
  unfold allCards. destruct (refillMarketSlot_same x t) as (Hp & _).
  rewrite Hp. apply Permutation_app_tail. apply refillMarketSlot_tableCards.
Qed.

Lemma actionEffect_allCards (s : GameState) (a : PlayerAction) (s1 : GameState) :
  actionEffect s a = Ret s1 -> Permutation (allCards s1) (allCards s).
Proof.
  intro H.
  destruct a as [pid gs|pid g|pid cid tier|pid cid gu|pid nid|pid es].
  1,2,5,6: rewrite (cardsView_allCards _ _ (gemEffect_cardsView _ _ _ H I));
    apply Permutation_refl.
  - cbn [actionEffect] in H. apply reserveCardEffect_shape in H.
    destruct H as (player & Hp & Hv). rewrite (cardsView_allCards _ _ Hv).
    pose proof (takeReservedCard_allCards s cid tier) as Ht.
    destruct (takeReservedCard_same s cid tier) as (Hps & _).
    destruct (takeReservedCard s cid tier) as [[card|] st]; cbn [fst snd] in *.
    + assert (getPlayerById st pid = Some player) as Hp'
          by (unfold getPlayerById; rewrite Hps; exact Hp).
      eapply Permutation_trans;
        [apply (mutatePlayer_allCards pid _ st player [] [card] Hp')|].
      * cbn [app]. unfold handCards.
        cbn [reservedCards purchasedCards set_reservedCards].
        rewrite <- app_assoc. cbn [app]. symmetry. apply Permutation_middle.
      * apply (allCards_table s st [card] [] Hps Ht).
    + rewrite Ht. apply Permutation_refl.
  - cbn [actionEffect] in H. apply purchaseCardEffect_shape in H.
    destruct H as (player & payment & Hp & _ & [H|H]).
    + destruct H as (card & st & Hr & ->).
      pose proof (removeCardFromMarket_shape s cid) as Hsh.
      destruct (removeCardFromMarket_same s cid) as (Hps & _).
      rewrite Hr in Hsh, Hps. cbn [snd] in Hps.
      destruct Hsh as (t & i & Hi & Hst).
      set (paid := payGems pid payment st).
      assert (exists q, getPlayerById paid pid = Some q) as [q Hq].
      { apply (economy_found st paid pid player).
        - apply payGems_economy.
        - unfold getPlayerById. rewrite Hps. exact Hp. }
      eapply Permutation_trans; [apply refillMarketSlot_allCards|].
      eapply Permutation_trans;
        [apply (mutatePlayer_allCards pid _ paid q [] [card] Hq)|].
      * cbn [app]. unfold handCards, receiveCard.
        cbn [reservedCards purchasedCards set_prestigePoints set_bonuses
             set_purchasedCards].
        rewrite app_assoc. symmetry.
        apply (Permutation_cons_append (reservedCards q ++ purchasedCards q)).
      * cbn [app]. unfold paid.
        rewrite (cardsView_allCards _ _ (payGems_cardsView pid payment st)).
        subst st. apply (allCards_table s _ [card] []); [exact Hps|].
        apply (removal_tableCards s t i card Hi).
    + destruct H as (i & card & _ & Hn & ->).
      set (taken := mutatePlayer pid
                      (fun p => set_reservedCards
                                  (removeAt i (reservedCards p)) p) s).
      set (paid := payGems pid payment taken).
      assert (exists q, getPlayerById paid pid = Some q) as [q Hq].
      { apply (economy_found s paid pid player); [|exact Hp].
        eapply eco_trans; [apply eco_unreserve | apply payGems_economy]. }
      eapply Permutation_trans;
        [apply (mutatePlayer_allCards pid _ paid q [] [card] Hq)|].
      * cbn [app]. unfold handCards, receiveCard.
        cbn [reservedCards purchasedCards set_prestigePoints set_bonuses
             set_purchasedCards].
        rewrite app_assoc. symmetry.
        apply (Permutation_cons_append (reservedCards q ++ purchasedCards q)).
      * cbn [app]. unfold paid.
        rewrite (cardsView_allCards _ _ (payGems_cardsView pid payment taken)).
        apply (mutatePlayer_allCards pid _ s player [card] [] Hp).
        cbn [app]. unfold handCards.
        cbn [reservedCards purchasedCards set_reservedCards].
        symmetry.
        exact (Permutation_app_tail (purchasedCards player)
                 (removeAt_perm _ _ _ Hn)).
Qed.

Lemma applyAction_allCards (s : GameState) (a : PlayerAction) (s' : GameState) :
  applyAction s a = Ret s' -> Permutation (allCards s') (allCards s).
Proof.
  intro H. apply applyAction_trace in H.
  destruct H as (_ & s1 & He & _ & Ht).
  apply turnEnd_holdings in Ht. unfold holdingsOf in Ht.
  injection Ht as _ Hm Hd _ _ Hr Hp.
  assert (cardsView s' = cardsView s1) as Hv
      by (unfold cardsView; rewrite Hm, Hd, Hr, Hp; reflexivity).
  rewrite (cardsView_allCards _ _ Hv).
  apply (actionEffect_allCards _ _ _ He).
Qed.

(** X16. An applied action neither creates nor loses a development card:
    the cards of the result (market rows, decks, reserved and purchased
    cards of all players) are a permutation of the cards of the state it
    was applied to. *)
Theorem applyAction_conserves_cards (s : GameState) (a : PlayerAction)
  (s' : GameState) :
  applyAction s a = Ret s' -> Permutation (allCards s') (allCards s).
Proof. apply applyAction_allCards. Qed.

Lemma applyAction_conserves_cards_witness :
  Permutation
    (allCards (stateOf (applyAction purchaseScenario
                          (PURCHASE_CARD "p1" "c_e3" None))))
    (allCards purchaseScenario).
Proof.
  apply (applyAction_conserves_cards purchaseScenario
           (PURCHASE_CARD "p1" "c_e3" None)).
  vm_compute. reflexivity.
Defined.

Lemma distinctIds_NoDup (l : list string) : distinctIds l = true -> NoDup l.
Proof.
  induction l as [|x l IH]; cbn [distinctIds]; intro H; constructor.
  - apply andb_prop in H. destruct H as [H _]. intro Hin.
    assert (existsb (String.eqb x) l = true) as He.
    { apply existsb_exists. exists x. split; [exact Hin|apply String.eqb_refl]. }
    rewrite He in H. discriminate H.
  - apply IH. apply andb_prop in H. apply H.
Qed.

Lemma catalog_ids_distinct : NoDup (map card_id getAllCards).
Proof. apply distinctIds_NoDup. vm_compute. reflexivity. Qed.





Lemma flat_map_withPlayer {A : Type} (h : Player -> list A) (pid : string)
  (f : Player -> Player) (ps : list Player) (p : Player) (x : A) :
  find (fun q => player_id q =? pid)%string ps = Some p ->
  h (f p) = h p ++ [x] ->
  Permutation (flat_map h (withPlayer pid f ps)) (x :: flat_map h ps).
Proof.
  intros Hfind Hp. induction ps as [|q ps IH]; [discriminate|].
  cbn [find withPlayer] in *. destruct (player_id q =? pid)%string.
  - injection Hfind as Hfind. subst q. cbn [flat_map]. rewrite Hp.
    rewrite <- app_assoc. cbn [app].
    symmetry. apply Permutation_middle.
  - cbn [flat_map].
    eapply Permutation_trans; [apply Permutation_app_head, IH, Hfind|].
    symmetry. apply Permutation_middle.
Qed.

Lemma nobles_of_view (ps ps' : list Player) :
  map player_nobles ps' = map player_nobles ps ->
  flat_map player_nobles ps' = flat_map player_nobles ps.
Proof.
  intro H. rewrite !flat_map_concat_map, H. reflexivity.
Qed.

Lemma award_allNobles (s s' : GameState) :
  award s s' -> Permutation (allNobles s') (allNobles s).
Proof.
  assert (forall pid i noble st,
             getPlayerById st pid <> None ->
             nth_error (nobles st) i = Some noble ->
             Permutation
               (removeAt i (nobles st)
                ++ flat_map player_nobles
                     (withPlayer pid (receiveNoble noble) (players st)))
               (nobles st ++ flat_map player_nobles (players st))) as Hstep.
  { intros pid i noble st Hp Hn.
    destruct (getPlayerById st pid) as [p|] eqn:Ep; [|congruence].
    eapply Permutation_trans.
    - apply Permutation_app_head.
      apply (flat_map_withPlayer player_nobles pid _ (players st) p noble Ep).
      reflexivity.
    - eapply Permutation_trans; [symmetry; apply Permutation_middle|].
      symmetry.
      exact (Permutation_app_tail (flat_map player_nobles (players st))
               (removeAt_perm _ _ _ Hn)). }
  destruct 1 as [s|pid i noble s Hp Hn|pid i noble s Hp Hn];
    [apply Permutation_refl | |]; apply (Hstep pid i noble s Hp Hn).
Qed.

Lemma applyAction_allNobles (s : GameState) (a : PlayerAction)
  (s' : GameState) :
  applyAction s a = Ret s' -> Permutation (allNobles s') (allNobles s).
Proof.
  intro H. apply applyAction_outcome in H.
  destruct H as (_ & s1 & _ & He & Ht).
  destruct (economy_scalars _ _ He) as (_ & _ & _ & Hn & _ & _ & _ & Hpn).
  assert (allNobles s1 = allNobles s) as E1
      by (unfold allNobles; rewrite Hn, (nobles_of_view _ _ Hpn); reflexivity).
  rewrite <- E1.
  destruct Ht as [Ht|[Ht|(s2 & Ha & Ht)]]; subst s';
    try apply Permutation_refl.
  destruct (checkGameEndAndAdvance_same s2) as (Hp2 & _ & Hn2 & _).
  unfold allNobles at 1. rewrite Hp2, Hn2.
  apply (award_allNobles _ _ Ha).
Qed.

(** X18. An applied action neither creates nor loses a noble tile: the
    nobles of the result (the pool and the nobles of all players) are a
    permutation of the nobles of the state it was applied to. *)
Theorem applyAction_conserves_nobles (s : GameState) (a : PlayerAction)
  (s' : GameState) :
  applyAction s a = Ret s' -> Permutation (allNobles s') (allNobles s).
Proof. apply applyAction_allNobles. Qed.

Lemma applyAction_conserves_nobles_witness :
  Permutation
    (allNobles (stateOf (applyAction oneNobleAhead
                           (PURCHASE_CARD "p1" "t1_o06" None))))
    (allNobles oneNobleAhead).
Proof.
  apply (applyAction_conserves_nobles oneNobleAhead
           (PURCHASE_CARD "p1" "t1_o06" None)).
  vm_compute. reflexivity.
Defined.




(* ======================================================================= *)
(** * Discarding down to the limit *)
(* ======================================================================= *)

Lemma discardTotal_sum (player : Player) (entries : list (GemType * option Z))
  (acc total : Z) :
  discardTotal player entries acc = Some total ->
  total = acc + discardedTotal entries.
Proof.
  unfold discardedTotal. revert acc.
  induction entries as [|[gem [count|]] rest IH]; intro acc;
    cbn [discardTotal map sumZ fold_right snd].
  - intro H. injection H as H. lia.
  - destruct (Z.ltb_spec count 0) as [Hneg|Hpos].
    + intro H. apply IH in H. unfold sumZ in H. lia.
    + destruct (gem_get (gems player) gem <? count); [discriminate|].
      intro H. apply IH in H. unfold sumZ in H. lia.
  - intro H. apply IH in H. unfold sumZ in H. lia.
Qed.

Lemma playerTotalGems_add (p : Player) (gem : GemType) (d : Z) :
  playerTotalGems (set_gems (gem_add (gems p) gem d) p)
  = playerTotalGems p + d.
Proof.
  unfold playerTotalGems, gem_add. destruct gem as [[]|]; cbn; lia.
Qed.

Lemma discardEntries_total (pid : string)
  (entries : list (GemType * option Z)) (s st : GameState) (p : Player) :
  getPlayerById s pid = Some p ->
  discardEntries pid entries s = Ret st ->
  exists q, getPlayerById st pid = Some q
            /\ playerTotalGems q = playerTotalGems p - discardedTotal entries.
Proof.
  unfold discardedTotal. revert s p.
  induction entries as [|[gem [count|]] rest IH]; intros s p Hp;
    cbn [discardEntries map sumZ fold_right snd].
  - intro H. injection H as H. subst st. exists p. split; [exact Hp | lia].
  - destruct (Z.leb_spec count 0) as [Hle|Hgt].
    + intro H. destruct (IH s p Hp H) as (q & Hq & Ht).
      exists q. split; [exact Hq|]. unfold sumZ in Ht. lia.
    + rewrite Hp. intro H.
      assert (getPlayerById (playerToBank pid gem count s) pid
              = Some (set_gems (gem_add (gems p) gem (- count)) p)) as Hp'.
      { unfold playerToBank.
        change (getPlayerById (set_bank ?b ?x) pid) with (getPlayerById x pid).
        rewrite getPlayerById_mutatePlayer by (intro; reflexivity).
        rewrite Hp. reflexivity. }
      destruct (IH _ _ Hp' H) as (q & Hq & Ht).
      exists q. split; [exact Hq|].
      rewrite playerTotalGems_add in Ht. unfold sumZ in Ht. lia.
  - intro H. destruct (IH s p Hp H) as (q & Hq & Ht).
    exists q. split; [exact Hq|]. unfold sumZ in Ht. lia.
Qed.

Lemma same_seats_found {B : Type} (h : Player -> B) (ps ps' : list Player)
  (pid : string) (p : Player) :
  map player_id ps' = map player_id ps ->
  map h ps' = map h ps ->
  find (fun q => player_id q =? pid)%string ps = Some p ->
  exists q, find (fun q => player_id q =? pid)%string ps' = Some q
            /\ h q = h p.
Proof.
  revert ps'. induction ps as [|x ps IH]; intros [|x' ps']; cbn [map find];
    try discriminate.
  intros Hi Hh. injection Hi as Hx Hrest. injection Hh as Hhx Hhrest.
  rewrite Hx. destruct (player_id x =? pid)%string.
  - intro E. injection E as E. subst x. exists x'. split; [reflexivity|exact Hhx].
  - apply IH; assumption.
Qed.

Lemma checkNobleAndAdvance_pendingDiscard (s : GameState) (pid : string)
  (s' : GameState) :
  checkNobleAndAdvance s pid = Ret s' ->
  pendingGemDiscard s' = pendingGemDiscard s.
Proof.
  intro H. destruct (getPlayerById s pid) as [player|] eqn:Hp.
  - pose proof (checkNobleAndAdvance_cases s pid player Hp) as Hc.
    destruct (filter (meetsRequirements player) (nobles s)) as [|n [|n' r]].
    + rewrite Hc in H. injection H as H. subst s'.
      apply checkGameEndAndAdvance_same.
    + destruct Hc as (i & noble & _ & _ & _ & Hc). rewrite Hc in H.
      injection H as H. subst s'.
      destruct (checkGameEndAndAdvance_same
                  (mutatePlayer pid (receiveNoble noble)
                     (set_nobles (removeAt i (nobles s)) s)))
        as (_ & _ & _ & Hd & _).
      rewrite Hd. reflexivity.
    + rewrite Hc in H. injection H as H. subst s'. reflexivity.
  - unfold checkNobleAndAdvance, getEligibleNobles in H. rewrite Hp in H.
    injection H as H. subst s'. apply checkGameEndAndAdvance_same.
Qed.

(** X20. An applied DISCARD_GEMS action brings the player down to the
    limit: the player held more than [MAX_GEMS] (10) gems, holds exactly 10
    afterwards, and no discard is pending in the result. *)
Theorem discard_leaves_ten (s : GameState) (pid : string)
  (entries : list (GemType * option Z)) (s' : GameState) :
  applyAction s (DISCARD_GEMS pid entries) = Ret s' ->
  exists p p',
    getPlayerById s pid = Some p /\ getPlayerById s' pid = Some p'
    /\ GAME_CONSTANTS.MAX_GEMS < playerTotalGems p
    /\ playerTotalGems p' = GAME_CONSTANTS.MAX_GEMS
    /\ playerTotalGems p - playerTotalGems p' = discardedTotal entries
    /\ pendingGemDiscard s' = None.
Proof.
  intro H. pose proof H as H0. apply applyAction_trace in H0.
  destruct H0 as (Hv & s1 & He & _ & Ht).
  apply validateAction_inv in Hv. destruct Hv as [_ Hv].
  unfold validateDiscardGems, getTotalGems in Hv.
  destruct (getPlayerById s pid) as [p|] eqn:Hp; [|discriminate].
  destruct (Z.leb_spec (playerTotalGems p) GAME_CONSTANTS.MAX_GEMS)
    as [Hle|Hgt]; [discriminate|].
  destruct (discardTotal p entries 0) as [total|] eqn:Hd; [|discriminate].
  apply discardTotal_sum in Hd.
  destruct (Z.eqb_spec (playerTotalGems p - total) GAME_CONSTANTS.MAX_GEMS)
    as [Hten|Hne]; [|discriminate].
  cbn [actionEffect] in He. unfold discardGemsEffect, cloneGameState in He.
  destruct (discardEntries pid entries s) as [st|e] eqn:Ed; cbn [bind] in He;
    [|discriminate].
  injection He as He. subst s1.
  destruct (discardEntries_total pid entries s st p Hp Ed) as (q & Hq & Hqt).
  pose proof (turnEnd_seats _ _ Ht) as Hs. apply seats_ids in Hs.
  pose proof (turnEnd_holdings _ _ Ht) as Hh.
  apply (f_equal (fun x => snd (fst (fst (fst x))))) in Hh. cbn [fst snd] in Hh.
  destruct (same_seats_found gems _ _ pid q Hs Hh Hq) as (p' & Hp' & Hg).
  exists p, p'. split; [reflexivity|]. split; [exact Hp'|].
  assert (playerTotalGems p' = playerTotalGems q) as Hsame
      by (unfold playerTotalGems; rewrite Hg; reflexivity).
  split; [exact Hgt|]. split; [lia|]. split; [lia|].
  unfold applyAction in H.
  destruct (validateAction s (DISCARD_GEMS pid entries)) as [[|code]|e];
    cbn [bind] in H; try discriminate.
  cbn [applyActionUnsafe] in H. unfold applyDiscardGems in H.
  unfold discardGemsEffect, cloneGameState in H. rewrite Ed in H.
  cbn [bind] in H.
  rewrite (checkNobleAndAdvance_pendingDiscard _ _ _ H). reflexivity.
Qed.

Lemma discard_leaves_ten_witness :
  exists p p',
    getPlayerById awaitingDiscard "p1" = Some p
    /\ getPlayerById (stateOf (applyAction awaitingDiscard resolvingDiscard))
         "p1" = Some p'
    /\ GAME_CONSTANTS.MAX_GEMS < playerTotalGems p
    /\ playerTotalGems p' = GAME_CONSTANTS.MAX_GEMS
    /\ playerTotalGems p - playerTotalGems p'
       = discardedTotal [(colored emerald, Some 2)]
    /\ pendingGemDiscard (stateOf (applyAction awaitingDiscard resolvingDiscard))
       = None.
Proof.
  apply (discard_leaves_ten awaitingDiscard "p1" [(colored emerald, Some 2)]).
  vm_compute. reflexivity.
Defined.

(* ======================================================================= *)
(** * No negative gem count *)
(* ======================================================================= *)

Lemma gemsNonneg_add (g : GemCollection) (t : GemType) (d : Z) :
  gemsNonneg g -> 0 <= gem_get g t + d -> gemsNonneg (gem_add g t d).
Proof.
  intros H Hd t'. rewrite gem_get_add.
  destruct (GemType_eqb t t') eqn:E.
  - apply GemType_eqb_eq in E. subst t'. exact Hd.
  - specialize (H t'). lia.
Qed.

Lemma gem_get_add_other (g : GemCollection) (t t' : GemType) (d : Z) :
  t <> t' -> gem_get (gem_add g t d) t' = gem_get g t'.
Proof.
  intro H. rewrite gem_get_add.
  destruct (GemType_eqb t t') eqn:E; [|lia].
  apply GemType_eqb_eq in E. contradiction.
Qed.

Lemma noDebt_same (s s' : GameState) :
  bank s' = bank s -> map gems (players s') = map gems (players s) ->
  noDebt s -> noDebt s'.
Proof.
  unfold noDebt. intros Hb Hg [H1 H2]. rewrite Hb. split; [exact H1|].
  apply (Forall_map gems gemsNonneg). rewrite Hg.
  apply (Forall_map gems gemsNonneg). exact H2.
Qed.

Lemma bankToPlayer_noDebt (pid : string) (gem : GemType) (n : Z)
  (st : GameState) :
  noDebt st -> 0 <= n <= gem_get (bank st) gem ->
  noDebt (bankToPlayer pid gem n st).
Proof.
  unfold noDebt, bankToPlayer. intros [Hb Hp] Hn.
  cbn [bank players mutatePlayer set_players set_bank]. split.
  - apply gemsNonneg_add; [exact Hb | lia].
  - apply Forall_withPlayer; [exact Hp|].
    intros p _ Hnn. cbn [gems set_gems].
    apply gemsNonneg_add; [exact Hnn | specialize (Hnn gem); lia].
Qed.

Lemma playerToBank_noDebt (pid : string) (gem : GemType) (n : Z)
  (st : GameState) (p : Player) :
  getPlayerById st pid = Some p ->
  noDebt st -> 0 <= n <= gem_get (gems p) gem ->
  noDebt (playerToBank pid gem n st).
Proof.
  unfold noDebt, playerToBank. intros Hfind [Hb Hp] Hn.
  cbn [bank players mutatePlayer set_players set_bank]. split.
  - apply gemsNonneg_add; [exact Hb | specialize (Hb gem); lia].
  - apply Forall_withPlayer; [exact Hp|].
    intros q Hq Hnn. unfold getPlayerById in Hfind. rewrite Hfind in Hq.
    injection Hq as Hq. subst q. cbn [gems set_gems].
    apply gemsNonneg_add; [exact Hnn | lia].
Qed.

Lemma transfers_noDebt (pid : string) (moves : list (GemType * Z))
  (st : GameState) (p : Player) :
  NoDup (map fst moves) ->
  getPlayerById st pid = Some p ->
  noDebt st ->
  (forall g n, In (g, n) moves -> 0 <= n <= gem_get (gems p) g) ->
  noDebt (fold_left (transfer pid) moves st).
Proof.
  revert st p. induction moves as [|[g n] rest IH]; intros st p Hnd Hp Hs Hm;
    cbn [fold_left]; [exact Hs|].
  cbn [map fst] in Hnd. inversion Hnd as [|? ? Hnotin Hnd']. subst.
  apply (IH _ (set_gems (gem_add (gems p) g (- n)) p) Hnd').
  - unfold transfer, playerToBank. cbn [fst snd].
    change (getPlayerById (set_bank ?b ?x) pid) with (getPlayerById x pid).
    rewrite getPlayerById_mutatePlayer by (intro; reflexivity).
    rewrite Hp. reflexivity.
  - apply (playerToBank_noDebt pid g n st p Hp Hs).
    apply Hm. left. reflexivity.
  - intros g' n' Hin. cbn [gems set_gems].
    rewrite gem_get_add_other.
    + apply Hm. right. exact Hin.
    + intro E. subst g'. apply Hnotin.
      apply (in_map fst) in Hin. exact Hin.
Qed.

Lemma distinctCount_le (l : list GemType) :
  (distinctCount l <= List.length l)%nat.
Proof.
  induction l as [|x l IH]; cbn [distinctCount List.length]; [lia|].
  destruct (existsb (GemType_eqb x) l); lia.
Qed.

Lemma distinctCount_NoDup (l : list GemType) :
  distinctCount l = List.length l -> NoDup l.
Proof.
  induction l as [|x l IH]; cbn [distinctCount List.length]; intro H;
    constructor.
  - intro Hin. pose proof (distinctCount_le l).
    assert (existsb (GemType_eqb x) l = true) as He.
    { apply existsb_exists. exists x. split; [exact Hin|].
      apply GemType_eqb_eq. reflexivity. }
    rewrite He in H. lia.
  - pose proof (distinctCount_le l).
    destruct (existsb (GemType_eqb x) l); [lia|]. apply IH. lia.
Qed.

Lemma takes_noDebt (pid : string) (gs : list GemType) (st : GameState) :
  NoDup gs -> noDebt st ->
  (forall g, In g gs -> 1 <= gem_get (bank st) g) ->
  noDebt (fold_left (fun st gem => bankToPlayer pid gem 1 st) gs st).
Proof.
  revert st. induction gs as [|g rest IH]; intros st Hnd Hs Hb;
    cbn [fold_left]; [exact Hs|].
  inversion Hnd as [|? ? Hnotin Hnd']. subst.
  apply (IH _ Hnd').
  - apply bankToPlayer_noDebt; [exact Hs|].
    specialize (Hb g (or_introl eq_refl)). lia.
  - intros g' Hin. unfold bankToPlayer.
    cbn [bank mutatePlayer set_players set_bank].
    rewrite gem_get_add_other; [apply Hb; right; exact Hin|].
    intro E. subst g'. contradiction.
Qed.

Lemma validateTakeThreeGems_inv (s : GameState) (pid : string)
  (gs : list GemType) :
  validateTakeThreeGems s pid gs = Ret Valid ->
  NoDup gs /\ (1 <= List.length gs <= 3)%nat
  /\ (forall g, In g gs -> g <> gold /\ 1 <= gem_get (bank s) g).
Proof.
  unfold validateTakeThreeGems.
  destruct (isPlayersTurn s pid) as [turn|e]; cbn [bind]; [|discriminate].
  destruct turn; cbn [negb]; [|discriminate].
  destruct (Nat.ltb_spec (List.length gs) 1) as [|Hl1]; cbn [orb];
    [discriminate|].
  destruct (Nat.ltb_spec 3 (List.length gs)) as [|Hl3]; [discriminate|].
  destruct (Nat.eqb_spec (distinctCount gs) (List.length gs)) as [Hd|];
    cbn [negb]; [|discriminate].
  destruct (existsb _ gs) eqn:Hgold; [discriminate|].
  destruct (existsb (fun gem => gem_get (bank s) gem <? 1) gs) eqn:Hbank;
    [discriminate|].
  intros _. split; [apply distinctCount_NoDup, Hd|]. split; [lia|].
  intros g Hin. split.
  - intro E. subst g.
    assert (existsb
              (fun gem => negb (existsb (fun c => GemType_eqb (colored c) gem)
                                  GEM_COLORS)) gs = true) as Ht.
    { apply existsb_exists. exists gold. split; [exact Hin | reflexivity]. }
    rewrite Ht in Hgold. discriminate Hgold.
  - destruct (Z.ltb_spec (gem_get (bank s) g) 1) as [Hlt|Hge]; [|exact Hge].
    assert (existsb (fun gem => gem_get (bank s) gem <? 1) gs = true) as Ht.
    { apply existsb_exists. exists g. split; [exact Hin|].
      apply Z.ltb_lt. exact Hlt. }
    rewrite Ht in Hbank. discriminate Hbank.
Qed.

Lemma validateTakeTwoGems_inv (s : GameState) (pid : string) (g : GemType) :
  validateTakeTwoGems s pid g = Ret Valid ->
  g <> gold /\ GAME_CONSTANTS.MIN_GEMS_FOR_TAKE_TWO <= gem_get (bank s) g.
Proof.
  unfold validateTakeTwoGems.
  destruct (isPlayersTurn s pid) as [turn|e]; cbn [bind]; [|discriminate].
  destruct turn; cbn [negb]; [|discriminate].
  destruct (existsb _ GEM_COLORS) eqn:Hc; cbn [negb]; [|discriminate].
  destruct (Z.ltb_spec (gem_get (bank s) g)
              GAME_CONSTANTS.MIN_GEMS_FOR_TAKE_TWO) as [|Hge]; [discriminate|].
  intros _. split; [|exact Hge].
  intro E. subst g. discriminate Hc.
Qed.

Lemma calculatePayment_bounds (s : GameState) (pid cid : string) (p : Player)
  (payment : Payment) :
  getPlayerById s pid = Some p ->
  calculatePayment s pid cid = Some payment ->
  gemsNonneg (gems p) ->
  (forall c, 0 <= col_get (pay_gems payment) c <= gem_get (gems p) (colored c))
  /\ 0 <= pay_gold payment <= gem_get (gems p) gold.
Proof.
  intros Hp H Hnn. unfold calculatePayment in H. rewrite Hp in H.
  destruct (calculateEffectiveCost s pid cid) as [eff|] eqn:He;
    [|discriminate].
  assert (forall c, 0 <= col_get eff c) as Heff.
  { unfold calculateEffectiveCost in He. rewrite Hp in He.
    destruct (findCardForPlayer s p cid); [|discriminate].
    injection He as He. subst eff. intros []; cbn; lia. }
  pose proof (paymentStep_gems eff p) as Hg.
  pose proof (paymentStep_gold eff p GEM_COLORS (mkColored 0 0 0 0 0, 0)) as Hgo.
  cbn [snd] in Hgo.
  remember (fold_left (paymentStep eff p) GEM_COLORS (mkColored 0 0 0 0 0, 0))
    as r.
  destruct (Z.ltb_spec (gem_get (gems p) gold) (snd r)) as [|Hle];
    [discriminate|].
  injection H as H. subst payment. cbn [pay_gems pay_gold]. split.
  - intro c. rewrite Hg. specialize (Heff c). specialize (Hnn (colored c)). lia.
  - split; [|exact Hle]. rewrite Hgo. unfold GEM_COLORS.
    cbn [map fold_right]. lia.
Qed.

Lemma payGems_transfers (pid : string) (payment : Payment) (st : GameState) :
  payGems pid payment st
  = fold_left (transfer pid)
      (map (fun c => (colored c, col_get (pay_gems payment) c)) GEM_COLORS
       ++ [(gold, pay_gold payment)]) st.
Proof. reflexivity. Qed.

Lemma payGems_noDebt (pid : string) (payment : Payment) (st : GameState)
  (p : Player) :
  getPlayerById st pid = Some p ->
  noDebt st ->
  (forall c, 0 <= col_get (pay_gems payment) c <= gem_get (gems p) (colored c)) ->
  0 <= pay_gold payment <= gem_get (gems p) gold ->
  noDebt (payGems pid payment st).
Proof.
  intros Hp Hs Hc Hg. rewrite payGems_transfers.
  apply (transfers_noDebt pid _ st p); try assumption.
  - unfold GEM_COLORS. cbn [map app fst].
    repeat (constructor; [cbn [In]; intuition discriminate|]). constructor.
  - intros g n Hin. apply in_app_or in Hin. destruct Hin as [Hin|Hin].
    + apply in_map_iff in Hin. destruct Hin as (c & E & _).
      injection E as E1 E2. subst g n. apply Hc.
    + destruct Hin as [E|[]]. injection E as E1 E2. subst g n. exact Hg.
Qed.

Lemma discardEntries_transfers (pid : string)
  (entries : list (GemType * option Z)) (s st : GameState) :
  discardEntries pid entries s = Ret st ->
  st = fold_left (transfer pid) (positiveEntries entries) s.
Proof.
  unfold positiveEntries. revert s.
  induction entries as [|[gem [count|]] rest IH]; intro s;
    cbn [discardEntries flat_map snd fst].
  - intro H. injection H as H. subst st. reflexivity.
  - destruct (count <=? 0); cbn [app]; [apply IH|].
    destruct (getPlayerById s pid); [|discriminate].
    cbn [fold_left]. apply IH.
  - cbn [app]. apply IH.
Qed.

Lemma positiveEntries_In (entries : list (GemType * option Z)) (g : GemType)
  (n : Z) :
  In (g, n) (positiveEntries entries) -> In (g, Some n) entries /\ 0 < n.
Proof.
  unfold positiveEntries. intro H. apply in_flat_map in H.
  destruct H as ([g' [count|]] & Hin & H); cbn [snd fst] in H; [|destruct H].
  destruct (Z.leb_spec count 0) as [|Hpos]; [destruct H|].
  destruct H as [E|[]]. injection E as E1 E2. subst g' count.
  split; [exact Hin | exact Hpos].
Qed.

Lemma positiveEntries_NoDup (entries : list (GemType * option Z)) :
  NoDup (map fst entries) -> NoDup (map fst (positiveEntries entries)).
Proof.
  unfold positiveEntries.
  induction entries as [|[gem [count|]] rest IH]; cbn [map flat_map fst snd];
    intro H; [constructor| |];
    inversion H as [|? ? Hnotin Hnd]; subst.
  - destruct (count <=? 0); cbn [app map fst]; [apply IH, Hnd|].
    constructor; [|apply IH, Hnd].
    intro Hin. apply Hnotin. apply in_map_iff in Hin.
    destruct Hin as ([g n] & E & Hin). cbn [fst] in E. subst g.
    apply positiveEntries_In in Hin. destruct Hin as [Hin _].
    apply (in_map fst) in Hin. exact Hin.
  - cbn [app]. apply IH, Hnd.
Qed.

Lemma discardTotal_enough (p : Player) (entries : list (GemType * option Z))
  (acc total : Z) (g : GemType) (n : Z) :
  discardTotal p entries acc = Some total ->
  In (g, Some n) entries -> 0 <= n -> n <= gem_get (gems p) g.
Proof.
  revert acc. induction entries as [|[gem [count|]] rest IH]; intro acc;
    cbn [discardTotal]; intros H Hin Hn; [destruct Hin| |].
  - destruct (Z.ltb_spec count 0) as [Hneg|Hpos].
    + destruct Hin as [E|Hin]; [injection E as E1 E2; subst; lia|].
      apply (IH acc H Hin Hn).
    + destruct (Z.ltb_spec (gem_get (gems p) gem) count) as [|Hge];
        [discriminate|].
      destruct Hin as [E|Hin]; [injection E as E1 E2; subst; exact Hge|].
      apply (IH _ H Hin Hn).
  - destruct Hin as [E|Hin]; [discriminate E|].
    apply (IH acc H Hin Hn).
Qed.

Lemma actionEffect_noDebt (s : GameState) (a : PlayerAction) (s1 : GameState) :
  validateAction s a = Ret Valid -> wellFormedAction a -> noDebt s ->
  actionEffect s a = Ret s1 -> noDebt s1.
Proof.
  intros Hv Hwf Hs H. apply validateAction_inv in Hv. destruct Hv as [_ Hv].
  destruct a as [pid gs|pid g|pid cid tier|pid cid gu|pid nid|pid es];
    cbn [actionEffect] in H.
  - apply validateTakeThreeGems_inv in Hv. destruct Hv as (Hnd & _ & Hb).
    unfold takeThreeGemsEffect, cloneGameState in H.
    destruct (getPlayerById s pid); [|discriminate].
    injection H as H. subst s1.
    apply (takes_noDebt pid gs s Hnd Hs). intros g Hin. apply Hb, Hin.
  - apply validateTakeTwoGems_inv in Hv. destruct Hv as [_ Hb].
    unfold takeTwoGemsEffect, cloneGameState in H.
    destruct (getPlayerById s pid); [|discriminate].
    injection H as H. subst s1.
    apply bankToPlayer_noDebt; [exact Hs|].
    unfold GAME_CONSTANTS.MIN_GEMS_FOR_TAKE_TWO in Hb. lia.
  - unfold reserveCardEffect, cloneGameState in H.
    destruct (getPlayerById s pid); [|discriminate].
    injection H as H. subst s1. cbv zeta.
    destruct (takeReservedCard_same s cid tier) as (Hps & Hbk & _).
    match goal with
    | |- noDebt (if _ then bankToPlayer _ _ _ ?x else _) =>
      assert (noDebt x) as Hx
    end.
    { destruct (fst (takeReservedCard s cid tier)) as [card|].
      - apply (noDebt_same s); [exact Hbk| |exact Hs].
        cbn [players mutatePlayer set_players].
        rewrite map_withPlayer by (intro; reflexivity).
        rewrite Hps. reflexivity.
      - apply (noDebt_same s); [exact Hbk | rewrite Hps; reflexivity | exact Hs]. }
    match goal with
    | |- noDebt (if ?b then _ else _) => destruct b eqn:Hb
    end; [|exact Hx].
    apply Z.ltb_lt in Hb.
    apply bankToPlayer_noDebt; [exact Hx | cbn [gem_get]; lia].
  - apply purchaseCardEffect_shape in H.
    destruct H as (player & payment & Hp & Hpay & H).
    assert (gemsNonneg (gems player)) as Hnn.
    { destruct Hs as [_ Hs]. apply (proj1 (Forall_forall _ _) Hs).
      apply (getPlayerById_In _ _ _ Hp). }
    destruct (calculatePayment_bounds s pid cid player payment Hp Hpay Hnn)
      as [Hc Hg].
    destruct H as [H|H].
    + destruct H as (card & st & Hr & ->).
      destruct (removeCardFromMarket_same s cid) as (Hps & Hbk & _).
      rewrite Hr in Hps, Hbk. cbn [snd] in Hps, Hbk.
      assert (noDebt (payGems pid payment st)) as Hpaid.
      { apply (payGems_noDebt pid payment st player); try assumption.
        - unfold getPlayerById. rewrite Hps. exact Hp.
        - apply (noDebt_same s); [exact Hbk | rewrite Hps; reflexivity
                                  | exact Hs]. }
      destruct (refillMarketSlot_same
                  (mutatePlayer pid (receiveCard card) (payGems pid payment st))
                  (card_tier card)) as (Hrp & Hrb & _).
      apply (noDebt_same (payGems pid payment st)); [| |exact Hpaid].
      * rewrite Hrb. reflexivity.
      * rewrite Hrp. cbn [players mutatePlayer set_players].
        apply map_withPlayer. intro q. reflexivity.
    + destruct H as (i & card & _ & _ & ->).
      set (taken := mutatePlayer pid
                      (fun p => set_reservedCards
                                  (removeAt i (reservedCards p)) p) s).
      assert (noDebt (payGems pid payment taken)) as Hpaid.
      { apply (payGems_noDebt pid payment taken
                 (set_reservedCards (removeAt i (reservedCards player)) player));
          try assumption.
        - unfold taken.
          rewrite getPlayerById_mutatePlayer by (intro; reflexivity).
          rewrite Hp. reflexivity.
        - apply (noDebt_same s); [reflexivity| |exact Hs].
          unfold taken. cbn [players mutatePlayer set_players].
          apply map_withPlayer. intro q. reflexivity. }
      apply (noDebt_same (payGems pid payment taken)); [reflexivity| |exact Hpaid].
      cbn [players mutatePlayer set_players].
      apply map_withPlayer. intro q. reflexivity.
  - injection H as H. subst s1. exact Hs.
  - unfold validateDiscardGems, getTotalGems in Hv.
    destruct (getPlayerById s pid) as [p|] eqn:Hp; [|discriminate].
    destruct (playerTotalGems p <=? GAME_CONSTANTS.MAX_GEMS); [discriminate|].
    destruct (discardTotal p es 0) as [total|] eqn:Hd; [|discriminate].
    unfold discardGemsEffect, cloneGameState in H.
    destruct (discardEntries pid es s) as [st|e] eqn:Ed; cbn [bind] in H;
      [|discriminate].
    injection H as H. subst s1.
    apply discardEntries_transfers in Ed. subst st.
    apply (noDebt_same (fold_left (transfer pid) (positiveEntries es) s));
      [reflexivity | reflexivity |].
    apply (transfers_noDebt pid _ s p).
    + apply positiveEntries_NoDup. exact Hwf.
    + exact Hp.
    + exact Hs.
    + intros g n Hin. apply positiveEntries_In in Hin. destruct Hin as [Hin Hn].
      split; [lia|].
      apply (discardTotal_enough p es 0 total g n Hd Hin). lia.
Qed.

(** X21. An applied action leaves no negative gem count: if neither the
    bank nor any player holds a negative number of gems of any type, and
    the entries of a DISCARD_GEMS action have distinct keys (as the keys of
    an object do), the same holds of the result. *)
Theorem applyAction_keeps_gems_nonnegative (s : GameState) (a : PlayerAction)
  (s' : GameState) :
  noDebt s -> wellFormedAction a ->
  applyAction s a = Ret s' -> noDebt s'.
Proof.
  intros Hs Hwf H. apply applyAction_trace in H.
  destruct H as (Hv & s1 & He & _ & Ht).
  pose proof (turnEnd_holdings _ _ Ht) as Hh.
  assert (bank s' = bank s1) as Hb
      by (apply (f_equal (fun x => fst (fst (fst (fst (fst (fst x))))))) in Hh;
          exact Hh).
  assert (map gems (players s') = map gems (players s1)) as Hg
      by (apply (f_equal (fun x => snd (fst (fst (fst x))))) in Hh; exact Hh).
  apply (noDebt_same s1 s' Hb Hg).
  apply (actionEffect_noDebt s a s1 Hv Hwf Hs He).
Qed.

Lemma purchaseScenario_noDebt : noDebt purchaseScenario.
Proof.
  split; [intros [[]|]; cbn; lia|].
  repeat constructor; intros [[]|]; cbn; lia.
Qed.

Lemma applyAction_keeps_gems_nonnegative_witness :
  noDebt (stateOf (applyAction purchaseScenario
                     (PURCHASE_CARD "p1" "c_e3" None))).
Proof.
  apply (applyAction_keeps_gems_nonnegative purchaseScenario
           (PURCHASE_CARD "p1" "c_e3" None)).
  - exact purchaseScenario_noDebt.
  - exact I.
  - vm_compute. reflexivity.
Defined.

(* ======================================================================= *)
(** * What getAvailableActions offers *)
(* ======================================================================= *)

(** The answer of [getAvailableActions] to the player to move with nothing
    pending: the three option records are those of the specific checkers. *)
Lemma getAvailableActions_free (s : GameState) (pid : string)
  (av : AvailableActions) :
  getAvailableActions s pid = Ret av ->
  isPlayerTurn av = true -> mustDiscardGems av = false ->
  mustSelectNoble av = false ->
  isPlayersTurn s pid = Ret true /\ isGameInProgress s = true
  /\ takeGems av = getTakeGemOptions s
  /\ reservableCards av = getReservableCards s pid
  /\ purchasableCards av = getPurchasableCards s pid.
Proof.
  unfold getAvailableActions.
  destruct (getPlayerById s pid) as [player|].
  2: { intro H. injection H as H. subst av. discriminate. }
  destruct (isPlayersTurn s pid) as [turn|e]; cbn [bind]; [|discriminate].
  cbv zeta.
  destruct (negb (turn && isGameInProgress s)
            || isId (pendingGemDiscard s) pid
            || isId (pendingNobleSelection s) pid
               && (1 <? List.length (getEligibleNobles s pid))%nat) eqn:Hlim;
    intro H; injection H as H; subst av;
    cbn [isPlayerTurn mustDiscardGems mustSelectNoble takeGems reservableCards
         purchasableCards]; intros Ht Hd Hn.
  - rewrite Ht, Hd, Hn in Hlim. discriminate Hlim.
  - apply andb_prop in Ht. destruct Ht as [Ht Hp]. subst turn. auto.
Qed.

Lemma colored_listed (g : GemType) :
  existsb (fun c => GemType_eqb (colored c) g) GEM_COLORS = true
  <-> exists c, g = colored c.
Proof.
  split.
  - intro H. apply existsb_exists in H. destruct H as (c & _ & H).
    apply GemType_eqb_eq in H. exists c. symmetry. exact H.
  - intros [c ->]. destruct c; reflexivity.
Qed.

Lemma GEM_COLORS_all (c : GemColor) : In c GEM_COLORS.
Proof. destruct c; cbn; auto 10. Qed.

(** X22. For the player to move with nothing pending, the colours
    [getAvailableActions] lists for taking two are exactly the gems
    [validateAction] accepts in a TAKE_TWO_GEMS action of that player. *)
Theorem availableForTwo_iff_valid (s : GameState) (pid : string)
  (av : AvailableActions) (g : GemType) :
  getAvailableActions s pid = Ret av ->
  isPlayerTurn av = true -> mustDiscardGems av = false ->
  mustSelectNoble av = false ->
  (validateAction s (TAKE_TWO_GEMS pid g) = Ret Valid
   <-> exists c, g = colored c /\ In c (availableForTwo (takeGems av))).
Proof.
  intros H Ht Hd Hn.
  destruct (getAvailableActions_free s pid av H Ht Hd Hn)
    as (Hturn & Hprog & -> & _).
  unfold validateAction. rewrite Hprog. cbn [negb].
  unfold validateTakeTwoGems. rewrite Hturn. cbn [bind negb].
  unfold getTakeGemOptions. cbn [availableForTwo]. split.
  - destruct (existsb _ GEM_COLORS) eqn:Hc; cbn [negb]; [|discriminate].
    apply colored_listed in Hc. destruct Hc as [c ->].
    destruct (Z.ltb_spec (gem_get (bank s) c)
                GAME_CONSTANTS.MIN_GEMS_FOR_TAKE_TWO) as [|Hge];
      [discriminate|].
    intros _. exists c. split; [reflexivity|].
    apply filter_In. split; [apply GEM_COLORS_all|].
    apply Z.leb_le. exact Hge.
  - intros (c & -> & Hin). apply filter_In in Hin. destruct Hin as [_ Hge].
    apply Z.leb_le in Hge.
    rewrite (proj2 (colored_listed c)) by (exists c; reflexivity).
    cbn [negb].
    destruct (Z.ltb_spec (gem_get (bank s) c)
                GAME_CONSTANTS.MIN_GEMS_FOR_TAKE_TWO); [lia|reflexivity].
Qed.

Lemma availableForTwo_iff_valid_witness :
  validateAction freshGame (TAKE_TWO_GEMS "p2" (colored ruby)) = Ret Valid
  <-> exists c, colored ruby = colored c
                /\ In c (availableForTwo (takeGems
                           (mkAvailableActions true false 0 false []
                              (getTakeGemOptions freshGame)
                              (getReservableCards freshGame "p2")
                              (getPurchasableCards freshGame "p2")))).
Proof.
  apply (availableForTwo_iff_valid freshGame "p2");
    [vm_compute; reflexivity | reflexivity | reflexivity | reflexivity].
Defined.

Lemma NoDup_distinctCount (l : list GemType) :
  NoDup l -> distinctCount l = List.length l.
Proof.
  induction 1 as [|x l Hnotin _ IH]; cbn [distinctCount List.length];
    [reflexivity|].
  destruct (existsb (GemType_eqb x) l) eqn:E; [|rewrite IH; reflexivity].
  exfalso. apply existsb_exists in E. destruct E as (y & Hy & E).
  apply GemType_eqb_eq in E. subst y. contradiction.
Qed.

(** X23. For the player to move with nothing pending, [validateAction]
    accepts a TAKE_THREE_GEMS action of that player exactly when it names
    one to three distinct gems, each a colour [getAvailableActions] lists
    for taking three; and [canTakeThree] tells whether such an action
    exists. *)
Theorem availableForThree_iff_valid (s : GameState) (pid : string)
  (av : AvailableActions) :
  getAvailableActions s pid = Ret av ->
  isPlayerTurn av = true -> mustDiscardGems av = false ->
  mustSelectNoble av = false ->
  (forall gs,
     validateAction s (TAKE_THREE_GEMS pid gs) = Ret Valid
     <-> (1 <= List.length gs <= 3)%nat /\ NoDup gs
         /\ forall g, In g gs ->
              exists c, g = colored c
                        /\ In c (availableForThree (takeGems av)))
  /\ (canTakeThree (takeGems av) = true
      <-> exists gs, validateAction s (TAKE_THREE_GEMS pid gs) = Ret Valid).
Proof.
  intros H Ht Hd Hn.
  destruct (getAvailableActions_free s pid av H Ht Hd Hn)
    as (Hturn & Hprog & -> & _).
  assert (forall gs,
     validateAction s (TAKE_THREE_GEMS pid gs) = Ret Valid
     <-> (1 <= List.length gs <= 3)%nat /\ NoDup gs
         /\ forall g, In g gs ->
              exists c, g = colored c
                        /\ In c (availableForThree (getTakeGemOptions s)))
    as Hiff.
  { intro gs. unfold getTakeGemOptions. cbn [availableForThree]. split.
    - intro Hv. apply validateAction_inv in Hv. destruct Hv as [_ Hv].
      apply validateTakeThreeGems_inv in Hv. destruct Hv as (Hnd & Hlen & Hg).
      split; [exact Hlen|]. split; [exact Hnd|].
      intros g Hin. destruct (Hg g Hin) as [Hgold Hbank].
      destruct g as [c|]; [|contradiction Hgold; reflexivity].
      exists c. split; [reflexivity|].
      apply filter_In. split; [apply GEM_COLORS_all|].
      apply Z.leb_le. exact Hbank.
    - intros (Hlen & Hnd & Hg).
      unfold validateAction. rewrite Hprog. cbn [negb].
      unfold validateTakeThreeGems. rewrite Hturn. cbn [bind negb].
      destruct (Nat.ltb_spec (List.length gs) 1); [lia|].
      destruct (Nat.ltb_spec 3 (List.length gs)); [lia|]. cbn [orb].
      rewrite (NoDup_distinctCount gs Hnd), Nat.eqb_refl. cbn [negb].
      destruct (existsb _ gs) eqn:Hgold.
      { apply existsb_exists in Hgold. destruct Hgold as (g & Hin & Hgold).
        destruct (Hg g Hin) as (c & -> & _).
        rewrite (proj2 (colored_listed c)) in Hgold by (exists c; reflexivity).
        discriminate Hgold. }
      destruct (existsb (fun gem => gem_get (bank s) gem <? 1) gs) eqn:Hbank;
        [|reflexivity].
      apply existsb_exists in Hbank. destruct Hbank as (g & Hin & Hbank).
      destruct (Hg g Hin) as (c & -> & Hc).
      apply filter_In in Hc. destruct Hc as [_ Hc].
      apply Z.leb_le in Hc. apply Z.ltb_lt in Hbank. lia. }
  split; [exact Hiff|].
  unfold getTakeGemOptions in *. cbn [canTakeThree availableForThree] in *.
  split.
  - intro Hcan. apply Nat.leb_le in Hcan.
    destruct (filter (fun color : GemColor => 1 <=? gem_get (bank s) color)
                GEM_COLORS) as [|c rest] eqn:Ef; [cbn in Hcan; lia|].
    exists [colored c]. apply Hiff. split; [cbn; lia|].
    split; [repeat constructor; intros []|].
    intros g [<-|[]]. exists c. split; [reflexivity | left; reflexivity].
  - intros [gs Hv]. apply Hiff in Hv. destruct Hv as (Hlen & _ & Hg).
    destruct gs as [|g gs]; [cbn in Hlen; lia|].
    destruct (Hg g (or_introl eq_refl)) as (c & _ & Hc).
    apply Nat.leb_le.
    destruct (filter (fun color : GemColor => 1 <=? gem_get (bank s) color)
                GEM_COLORS); [destruct Hc | cbn; lia].
Qed.

Lemma availableForThree_iff_valid_witness :
  canTakeThree (takeGems
                  (mkAvailableActions true false 0 false []
                     (getTakeGemOptions freshGame)
                     (getReservableCards freshGame "p2")
                     (getPurchasableCards freshGame "p2"))) = true
  <-> exists gs,
        validateAction freshGame (TAKE_THREE_GEMS "p2" gs) = Ret Valid.
Proof.
  apply (availableForThree_iff_valid freshGame "p2");
    [vm_compute; reflexivity | reflexivity | reflexivity | reflexivity].
Defined.

Lemma find_id_listed (cid : string) (l : list DevelopmentCard) :
  find (fun c => card_id c =? cid)%string l <> None
  <-> In cid (map card_id l).
Proof.
  split.
  - destruct (find _ l) as [c|] eqn:E; [|congruence]. intros _.
    apply find_some in E. destruct E as [Hin E]. apply String.eqb_eq in E.
    subst cid. apply in_map, Hin.
  - intros Hin E. apply in_map_iff in Hin. destruct Hin as (c & Hc & Hin).
    apply (find_none _ _ E) in Hin. rewrite Hc, String.eqb_refl in Hin.
    discriminate Hin.
Qed.

Lemma findCardInMarket_listed (s : GameState) (cid : string) :
  findCardInMarket s cid
  = find (fun c => card_id c =? cid)%string (getMarketCards s).
Proof.
  unfold findCardInMarket, getMarketCards.
  rewrite !find_app, !findInSlots_nonNull. reflexivity.
Qed.

(** X24. For the player to move with nothing pending, [validateAction]
    accepts a RESERVE_CARD action of that player exactly when
    [getAvailableActions] says so: [canReserve] is set and, for a market
    card, its id is among [marketCards]; for a blind draw, the tier is among
    [blindDrawTiers]. *)
Theorem reservable_iff_valid (s : GameState) (pid : string)
  (av : AvailableActions) (cardId : option string) (tier : CardTier) :
  getAvailableActions s pid = Ret av ->
  isPlayerTurn av = true -> mustDiscardGems av = false ->
  mustSelectNoble av = false ->
  (validateAction s (RESERVE_CARD pid cardId tier) = Ret Valid
   <-> canReserve (reservableCards av) = true
       /\ match cardId with
          | Some cid => In cid (reservable_marketCards (reservableCards av))
          | None => In tier (blindDrawTiers (reservableCards av))
          end).
Proof.
  intros H Ht Hd Hn.
  destruct (getAvailableActions_free s pid av H Ht Hd Hn)
    as (Hturn & Hprog & _ & -> & _).
  unfold validateAction. rewrite Hprog. cbn [negb].
  unfold validateReserveCard, getReservableCards. rewrite Hturn.
  cbn [bind negb].
  destruct (isPlayersTurn_player s pid Hturn) as [player Hp]. rewrite Hp.
  destruct (Z.leb_spec GAME_CONSTANTS.MAX_RESERVED_CARDS
              (Z.of_nat (List.length (reservedCards player)))) as [Hfull|Hroom].
  - destruct (Z.ltb_spec (Z.of_nat (List.length (reservedCards player)))
                GAME_CONSTANTS.MAX_RESERVED_CARDS); [lia|].
    cbn [canReserve noReservable]. split; [discriminate|].
    intros [E _]. discriminate E.
  - destruct (Z.ltb_spec (Z.of_nat (List.length (reservedCards player)))
                GAME_CONSTANTS.MAX_RESERVED_CARDS); [|lia].
    cbn [canReserve reservable_marketCards blindDrawTiers].
    destruct cardId as [cid|].
    + rewrite findCardInMarket_listed.
      pose proof (find_id_listed cid (getMarketCards s)) as Hl.
      destruct (find _ (getMarketCards s)) as [c|].
      * split; [intros _; split; [reflexivity|]; apply Hl; discriminate
               | reflexivity].
      * split; [discriminate|]. intros [_ Hin]. apply Hl in Hin.
        contradiction Hin. reflexivity.
    + unfold hasDeckCards.
      destruct tier; cbn [getDeckByTier];
        destruct (deck_tier1 (decks s)), (deck_tier2 (decks s)),
          (deck_tier3 (decks s)); cbn;
        split; try discriminate; try (intros _; auto 10; fail);
        try (intros [_ Hin]; intuition discriminate).
Qed.

Lemma reservable_iff_valid_witness :
  validateAction freshGame (RESERVE_CARD "p2" (Some "t1_d02") Tier1) = Ret Valid
  <-> canReserve (getReservableCards freshGame "p2") = true
      /\ In "t1_d02" (reservable_marketCards (getReservableCards freshGame "p2")).
Proof.
  apply (reservable_iff_valid freshGame "p2"
           (mkAvailableActions true false 0 false []
              (getTakeGemOptions freshGame)
              (getReservableCards freshGame "p2")
              (getPurchasableCards freshGame "p2"))
           (Some "t1_d02") Tier1);
    [vm_compute; reflexivity | reflexivity | reflexivity | reflexivity].
Defined.

(** X25. For the player to move with nothing pending, [validateAction]
    accepts a PURCHASE_CARD action of that player exactly when
    [getAvailableActions] lists the card id among the purchasable market
    cards or the purchasable reserved cards. *)
Theorem purchasable_iff_valid (s : GameState) (pid : string)
  (av : AvailableActions) (cid : string) (goldUsed : option Z) :
  getAvailableActions s pid = Ret av ->
  isPlayerTurn av = true -> mustDiscardGems av = false ->
  mustSelectNoble av = false ->
  (validateAction s (PURCHASE_CARD pid cid goldUsed) = Ret Valid
   <-> In cid (purchasable_marketCards (purchasableCards av))
       \/ In cid (purchasable_reservedCards (purchasableCards av))).
Proof.
  intros H Ht Hd Hn.
  destruct (getAvailableActions_free s pid av H Ht Hd Hn)
    as (Hturn & Hprog & _ & _ & ->).
  unfold validateAction. rewrite Hprog. cbn [negb].
  unfold validatePurchaseCard, getPurchasableCards. rewrite Hturn.
  cbn [bind negb].
  destruct (isPlayersTurn_player s pid Hturn) as [player Hp]. rewrite Hp.
  cbn [purchasable_marketCards purchasable_reservedCards].
  rewrite findCardForPlayer_listed, <- in_app_iff, <- map_app, <- filter_app.
  split.
  - destruct (find _ (getMarketCards s ++ reservedCards player)) as [card|] eqn:E;
      [|discriminate].
    destruct (canAffordCard s pid cid) eqn:Ha; cbn [negb]; [|discriminate].
    intros _. apply find_some in E. destruct E as [Hin E].
    apply String.eqb_eq in E. subst cid.
    apply in_map. apply filter_In. split; [exact Hin | exact Ha].
  - intro Hin. apply in_map_iff in Hin. destruct Hin as (card & Hc & Hin).
    apply filter_In in Hin. destruct Hin as [Hin Ha]. subst cid.
    destruct (find _ (getMarketCards s ++ reservedCards player)) as [c|] eqn:E.
    + rewrite Ha. reflexivity.
    + apply (find_none _ _ E) in Hin. rewrite String.eqb_refl in Hin.
      discriminate Hin.
Qed.

Lemma purchasable_iff_valid_witness :
  validateAction purchaseScenario (PURCHASE_CARD "p1" "c_e3" None) = Ret Valid
  <-> In "c_e3" (purchasable_marketCards
                   (getPurchasableCards purchaseScenario "p1"))
      \/ In "c_e3" (purchasable_reservedCards
                      (getPurchasableCards purchaseScenario "p1")).
Proof.
  apply (purchasable_iff_valid purchaseScenario "p1"
           (mkAvailableActions true false 0 false []
              (getTakeGemOptions purchaseScenario)
              (getReservableCards purchaseScenario "p1")
              (getPurchasableCards purchaseScenario "p1"))
           "c_e3" None);
    [vm_compute; reflexivity | reflexivity | reflexivity | reflexivity].
Defined.

(* ======================================================================= *)
(** * What the engine never throws *)
(* ======================================================================= *)









(* ======================================================================= *)
(** * The exported noble step and market refill *)
(* ======================================================================= *)

Lemma withPlayer_at_index (f : Player -> Player) (ps : list Player) (i : nat)
  (p : Player) :
  NoDup (map player_id ps) ->
  nth_error ps i = Some p ->
  withPlayer (player_id p) f ps = replaceAt i (f p) ps.
Proof.
  revert i. induction ps as [|q ps IH]; intros [|i] Hnd Hn;
    cbn [nth_error] in Hn; try discriminate; cbn [withPlayer replaceAt].
  - injection Hn as Hn. subst q. rewrite String.eqb_refl. reflexivity.
  - cbn [map] in Hnd. inversion Hnd as [|? ? Hnotin Hnd']. subst.
    destruct (String.eqb_spec (player_id q) (player_id p)) as [E|E].
    + exfalso. apply Hnotin. rewrite E.
      apply in_map. apply (nth_error_In _ _ Hn).
    + rewrite (IH i Hnd' Hn). reflexivity.
Qed.

Lemma current_player_found (s : GameState) (p : Player) :
  NoDup (map player_id (players s)) ->
  getCurrentPlayer s = Some p ->
  nth_error (players s) (Z.to_nat (currentPlayerIndex s)) = Some p
  /\ getPlayerById s (player_id p) = Some p.
Proof.
  intros Hnd Hc. unfold getCurrentPlayer in Hc.
  destruct (currentPlayerIndex s <? 0); [discriminate|].
  split; [exact Hc|]. unfold getPlayerById.
  apply (find_unique player_id (players s) p Hnd).
  apply (nth_error_In _ _ Hc).
Qed.

(** X28. In a state whose players have distinct ids,
    [checkNobleAcquisition] is the noble step of the end-of-turn pipeline
    for the current player: [checkNobleAndAdvance] for that player returns
    the state [checkNobleAcquisition] returns when a selection is left
    pending, and otherwise that state after [checkGameEndAndAdvance]. *)
Theorem checkNobleAcquisition_is_noble_step (s : GameState) (p : Player) :
  NoDup (map player_id (players s)) ->
  getCurrentPlayer s = Some p ->
  exists s1,
    checkNobleAcquisition s = Ret s1
    /\ checkNobleAndAdvance s (player_id p)
       = Ret (if (1 <? List.length (getEligibleNobles s (player_id p)))%nat
              then s1 else checkGameEndAndAdvance s1).
Proof.
  intros Hnd Hc.
  destruct (current_player_found s p Hnd Hc) as [Hn Hp].
  pose proof (checkNobleAndAdvance_cases s (player_id p) p Hp) as Hcases.
  unfold checkNobleAcquisition. rewrite Hc.
  unfold getEligibleNobles in *. rewrite Hp in *.
  destruct (filter (meetsRequirements p) (nobles s)) as [|n [|n' r]];
    cbn [map List.length Nat.ltb Nat.leb].
  - exists s. split; [reflexivity | exact Hcases].
  - destruct Hcases as (i & noble & Hi & Hnth & _ & Hcases).
    rewrite Hi. cbn [spliceOne fst snd]. rewrite Hnth.
    eexists. split; [reflexivity|]. rewrite Hcases.
    unfold mutatePlayer.
    cbn [players currentPlayerIndex set_nobles].
    rewrite (withPlayer_at_index (receiveNoble noble) (players s) _ p Hnd Hn).
    reflexivity.
  - eexists. split; [reflexivity | exact Hcases].
Qed.

Lemma checkNobleAcquisition_is_noble_step_witness :
  exists s1,
    checkNobleAcquisition idleNoble = Ret s1
    /\ checkNobleAndAdvance idleNoble (player_id carol)
       = Ret (if (1 <? List.length
                         (getEligibleNobles idleNoble (player_id carol)))%nat
              then s1 else checkGameEndAndAdvance s1).
Proof.
  apply (checkNobleAcquisition_is_noble_step idleNoble carol).
  - cbn. repeat (constructor; [cbn; intuition discriminate|]). constructor.
  - reflexivity.
Defined.

Lemma emptySlots_fill (slots : list (option DevelopmentCard)) (j : nat)
  (c : DevelopmentCard) :
  nth_error slots j = Some None ->
  S (emptySlots (replaceAt j (Some c) slots)) = emptySlots slots.
Proof.
  unfold emptySlots. revert j.
  induction slots as [|x slots IH]; intros [|j]; cbn [nth_error];
    try discriminate.
  - intro H. injection H as H. subst x. reflexivity.
  - intro H. cbn [replaceAt filter].
    destruct (isNull x); cbn [List.length]; rewrite <- (IH j H); reflexivity.
Qed.

Lemma emptySlots_none (slots : list (option DevelopmentCard)) :
  findIndex isNull slots = None <-> emptySlots slots = O.
Proof.
  unfold emptySlots. induction slots as [|x slots IH]; cbn [findIndex filter].
  - split; reflexivity.
  - destruct (isNull x); cbn [List.length].
    + split; discriminate.
    + rewrite <- IH. destruct (findIndex isNull slots); cbn [option_map];
        split; try discriminate; reflexivity.
Qed.

(** X29. [refillMarket] moves at most one card, from the top of the deck
    of the tier to an empty slot of its row: no card is created or lost;
    with an empty deck or a full row the state is unchanged; otherwise the
    deck loses its top card, which is then in the row, and the row has one
    empty slot fewer. *)
Theorem refillMarket_moves_top_card (s : GameState) (tier : CardTier) :
  Permutation (allCards (refillMarket s tier)) (allCards s)
  /\ List.length (getMarketByTier (refillMarket s tier) tier)
     = List.length (getMarketByTier s tier)
  /\ match getDeckByTier s tier, emptySlots (getMarketByTier s tier) with
     | card :: rest, S k =>
       getDeckByTier (refillMarket s tier) tier = rest
       /\ In (Some card) (getMarketByTier (refillMarket s tier) tier)
       /\ emptySlots (getMarketByTier (refillMarket s tier) tier) = k
     | _, _ => refillMarket s tier = s
     end.
Proof.
  unfold refillMarket, cloneGameState.
  split; [apply refillMarketSlot_allCards|].
  destruct (refillMarketSlot_shape s tier) as [_ Hat].
  destruct (getDeckByTier s tier) as [|card rest] eqn:Ed.
  { rewrite Hat. split; reflexivity. }
  destruct (findIndex isNull (getMarketByTier s tier)) as [j|] eqn:Ej.
  - destruct Hat as [Hm Hd]. rewrite Hm, Hd, length_replaceAt.
    split; [reflexivity|].
    apply findIndex_isNull in Ej.
    pose proof (emptySlots_fill _ j card Ej) as Hfill.
    destruct (emptySlots (getMarketByTier s tier)) as [|k]; [discriminate|].
    split; [reflexivity|]. split.
    + apply (nth_error_In _ j). apply nth_error_replaceAt_same.
      apply nth_error_Some. congruence.
    + injection Hfill as Hfill. exact Hfill.
  - rewrite Hat. split; [reflexivity|].
    apply emptySlots_none in Ej. rewrite Ej. reflexivity.
Qed.

(* ======================================================================= *)
(** * Looking up the catalog *)
(* ======================================================================= *)

Lemma find_by_id_iff {A : Type} (key : A -> string) (l : list A) (x : A) :
  NoDup (map key l) ->
  (In x l <-> find (fun y => key y =? key x)%string l = Some x).
Proof.
  intro Hnd. split.
  - apply (find_unique key l x Hnd).
  - intro H. apply find_some in H. apply H.
Qed.

(** X30. The catalog holds 90 cards and 10 nobles with distinct ids, and
    the lookups by id are exact: [findCardById] (resp. [findNobleById])
    returns a card (resp. noble) for its own id exactly when it belongs to
    the catalog. *)
Theorem catalog_lookup_exact :
  List.length getAllCards = 90%nat /\ List.length NOBLES = 10%nat
  /\ NoDup (map card_id getAllCards) /\ NoDup (map noble_id NOBLES)
  /\ (forall card, In card getAllCards
                   <-> findCardById (card_id card) = Some card)
  /\ (forall noble, In noble NOBLES
                    <-> findNobleById (noble_id noble) = Some noble).
Proof.
  assert (NoDup (map noble_id NOBLES)) as Hn
      by (apply distinctIds_NoDup; vm_compute; reflexivity).
  split; [vm_compute; reflexivity|]. split; [vm_compute; reflexivity|].
  split; [apply catalog_ids_distinct|]. split; [exact Hn|]. split.
  - intro card. apply (find_by_id_iff card_id getAllCards card).
    apply catalog_ids_distinct.
  - intro noble. apply (find_by_id_iff noble_id NOBLES noble Hn).
Qed.
